(** * OpenSAM: the SAM.gov search route, the chat route and the store

    A shallow embedding of [src/app/api/sam-search/route.ts]: the rate
    limiter, the embedding generator with its cache, the upstream query
    builder, the semantic reranker, the [GET] handler and the periodic
    cleanup of the caches; of the chat route ([Chat]): its rate limiter,
    the message formats, the provider calls and the [POST] handler; and of
    the session and favourites actions of the application store ([Store]).
    The properties of the search and ranking subsystem come first, those of
    the rest of the search route, of the chat route and of the store after
    them.

    Conventions.
    - Module-level [Map]s are [gmap]s held in a [State] record that the
      handlers thread through a state-and-exception monad [M]; what a
      handler changed before it threw stays changed.
    - The outside world (clock, upstream registry, embedding endpoints, the
      built-ins of the JavaScript runtime and the helpers the route imports
      from other modules) is an [Env] of oracles; the n-th network call and
      the n-th clock read are answered by the oracle at index n.
    - [await] is sequenced: a handler runs to completion, and the callbacks
      of a [Promise.all] run left to right.
    - Numbers carry exact values: integers are not rounded to 53 bits and
      print in decimal at any size.
    - The periodic cleanup ([setInterval]) is not part of a request: it is
      a computation of its own, [cleanup], that runs between requests. *)

From Stdlib Require Import ZArith QArith String Ascii List Lia Permutation Sorted Reals Lra.
From stdpp Require Import base gmap strings pretty.

Open Scope string_scope.

(** ** JavaScript values *)

(** A JavaScript number: every finite double is a rational, so [Fin q]
    carries its exact value. *)
Inductive number : Type :=
| NaN
| NegInf
| Fin (q : Q)
| PosInf.

(** What a [throw] carries: an [Error] with its message, or another value. *)
Inductive exn : Type :=
| JsError (message : string)
| JsThrown (v : string).

Definition ofZ (z : Z) : number := Fin (inject_Z z).

(** Truthiness of [string | null | undefined] and of numbers. *)
Definition str_truthy (s : string) : bool :=
  match s with "" => false | _ => true end.

Definition opt_truthy (o : option string) : bool :=
  match o with Some s => str_truthy s | None => false end.

(** [x || undefined] on [string | null]. *)
Definition or_undefined (o : option string) : option string :=
  if opt_truthy o then o else None.

Definition num_truthy (x : number) : bool :=
  match x with
  | NaN => false
  | Fin q => negb (Qeq_bool q 0)
  | NegInf | PosInf => true
  end.

(** [x || d] on numbers. *)
Definition num_or (x d : number) : number := if num_truthy x then x else d.

(** [Math.min] of two numbers. *)
Definition Math_min (x y : number) : number :=
  match x, y with
  | NaN, _ | _, NaN => NaN
  | NegInf, _ | _, NegInf => NegInf
  | PosInf, z | z, PosInf => z
  | Fin a, Fin b => if Qle_bool a b then Fin a else Fin b
  end.

(** The sign of [x - y] as the sort comparator sees it: [Gt] when the
    difference is positive, [Lt] when negative, [Eq] when it is zero or
    [NaN] (a comparator result of [NaN] counts as [+0]). *)
Definition sub_sign (x y : number) : comparison :=
  match x, y with
  | NaN, _ | _, NaN => Eq
  | PosInf, PosInf | NegInf, NegInf => Eq
  | PosInf, _ | _, NegInf => Gt
  | NegInf, _ | _, PosInf => Lt
  | Fin a, Fin b => (a ?= b)%Q
  end.

(** ** Strings *)

Definition is_ws (c : ascii) : bool :=
  let n := nat_of_ascii c in
  (n =? 32)%nat || ((9 <=? n)%nat && (n <=? 13)%nat).

Fixpoint skip_ws (s : string) : string :=
  match s with
  | String c s' => if is_ws c then skip_ws s' else s
  | EmptyString => EmptyString
  end.

(** [!s.trim()]: the string is empty once its white space is removed. *)
Definition trim_is_empty (s : string) : bool :=
  match skip_ws s with EmptyString => true | _ => false end.

Definition is_digit (c : ascii) : bool :=
  let n := nat_of_ascii c in (48 <=? n)%nat && (n <=? 57)%nat.

Definition digit_val (c : ascii) : option Z :=
  let n := Z.of_nat (nat_of_ascii c) in
  if (48 <=? n)%Z && (n <=? 57)%Z then Some (n - 48)%Z
  else if (97 <=? n)%Z && (n <=? 122)%Z then Some (n - 87)%Z
  else if (65 <=? n)%Z && (n <=? 90)%Z then Some (n - 55)%Z
  else None.

Fixpoint parse_digits (radix : Z) (s : string) (acc : option Z) : option Z :=
  match s with
  | String c s' =>
      match digit_val c with
      | Some d =>
          if (d <? radix)%Z
          then parse_digits radix s'
                 (Some (match acc with Some a => a * radix + d | None => d end)%Z)
          else acc
      | None => acc
      end
  | EmptyString => acc
  end.

(** [parseInt(s)] without a radix: leading white space, an optional sign,
    an optional [0x] prefix, then the longest run of digits; [NaN] when
    there is none. *)
Definition parseInt (s : string) : number :=
  let s1 := skip_ws s in
  let '(neg, s2) :=
    match s1 with
    | String "-" r => (true, r)
    | String "+" r => (false, r)
    | _ => (false, s1)
    end in
  let '(radix, s3) :=
    match s2 with
    | String "0" (String "x" r) | String "0" (String "X" r) => (16%Z, r)
    | _ => (10%Z, s2)
    end in
  match parse_digits radix s3 None with
  | Some n => ofZ (if neg : bool then - n else n)
  | None => NaN
  end.

(** [String(n).padStart(2, '0')]. *)
Definition padStart2 (s : string) : string :=
  match s with
  | EmptyString => "00"
  | String c EmptyString => String "0" s
  | _ => s
  end.

Fixpoint all_digits (s : string) : bool :=
  match s with
  | String c s' => is_digit c && all_digits s'
  | EmptyString => true
  end.

(** [s.split(sep)] on a one-character separator. *)
Fixpoint split_on (sep : ascii) (s : string) : list string :=
  match s with
  | EmptyString => [EmptyString]
  | String c s' =>
      if Ascii.eqb c sep then EmptyString :: split_on sep s'
      else match split_on sep s' with
           | w :: ws => String c w :: ws
           | [] => [String c EmptyString]
           end
  end.

Definition len_between (lo hi : nat) (s : string) : bool :=
  (lo <=? String.length s)%nat && (String.length s <=? hi)%nat.

(** [/^\d{1,2}\/\d{1,2}\/\d{4}$/.test(s)] *)
Definition is_sam_date (s : string) : bool :=
  match split_on "/" s with
  | [m; d; y] =>
      all_digits m && len_between 1 2 m && all_digits d && len_between 1 2 d
      && all_digits y && len_between 4 4 y
  | _ => false
  end.

(** [/^\d{4}-\d{2}-\d{2}$/.test(s)] *)
Definition is_iso_date (s : string) : bool :=
  match split_on "-" s with
  | [y; m; d] =>
      all_digits y && len_between 4 4 y && all_digits m && len_between 2 2 m
      && all_digits d && len_between 2 2 d
  | _ => false
  end.

Fixpoint drop_prefix (p s : string) : option string :=
  match p, s with
  | EmptyString, _ => Some s
  | String a p', String b s' => if Ascii.eqb a b then drop_prefix p' s' else None
  | String _ _, EmptyString => None
  end.

(** [s.replace(p, '')] for a string pattern: the first occurrence goes. *)
Fixpoint replace_first (p s : string) : string :=
  match drop_prefix p s with
  | Some rest => rest
  | None =>
      match s with
      | String c s' => String c (replace_first p s')
      | EmptyString => EmptyString
      end
  end.

Fixpoint lower (s : string) : string :=
  match s with
  | String c s' =>
      let n := nat_of_ascii c in
      String (if (65 <=? n)%nat && (n <=? 90)%nat then ascii_of_nat (n + 32) else c)
             (lower s')
  | EmptyString => EmptyString
  end.

Fixpoint join (sep : string) (l : list string) : string :=
  match l with
  | [] => ""
  | [x] => x
  | x :: r => x +:+ sep +:+ join sep r
  end.

(** ** Data model *)

(** A JSON value of type [any] that the route only copies. *)
Definition json_any : Type := option string.

(** A raw listing of the upstream registry, as far as the route reads it. *)
Module Raw.
Record t : Type := mk {
  noticeId : option string;
  solicitationNumber : option string;
  title : option string;
  description : option string;
  synopsis : option string;
  type : json_any;
  baseType : json_any;
  archiveType : json_any;
  archiveDate : json_any;
  typeOfSetAsideDescription : json_any;
  typeOfSetAside : json_any;
  responseDeadLine : json_any;
  naicsCode : json_any;
  naicsDescription : json_any;
  classificationCode : json_any;
  active : json_any;
  award : json_any;
  pointOfContact : json_any;
  placeOfPerformance : json_any;
  organizationType : json_any;
  officeAddress : json_any;
  links : json_any;
  uiLink : json_any
}.
End Raw.

(** [SAMOpportunity] *)
Module Opp.
Record t : Type := mk {
  id : option string;
  noticeId : option string;
  title : option string;
  description : string;
  synopsis : string;
  type : json_any;
  baseType : json_any;
  archiveType : json_any;
  archiveDate : json_any;
  typeOfSetAsideDescription : json_any;
  typeOfSetAside : json_any;
  responseDeadLine : json_any;
  naicsCode : json_any;
  naicsDescription : json_any;
  classificationCode : json_any;
  active : json_any;
  award : json_any;
  pointOfContact : json_any;
  placeOfPerformance : json_any;
  organizationType : json_any;
  officeAddress : json_any;
  links : json_any;
  uiLink : json_any;
  relevanceScore : number;
  isFavorite : bool;
  tags : list string
}.

(** [{ ...opportunity, relevanceScore: similarity }] *)
Definition with_relevanceScore (o : t) (similarity : number) : t :=
  mk (id o) (noticeId o) (title o) (description o) (synopsis o) (type o)
     (baseType o) (archiveType o) (archiveDate o)
     (typeOfSetAsideDescription o) (typeOfSetAside o) (responseDeadLine o)
     (naicsCode o) (naicsDescription o) (classificationCode o) (active o)
     (award o) (pointOfContact o) (placeOfPerformance o) (organizationType o)
     (officeAddress o) (links o) (uiLink o) similarity (isFavorite o) (tags o).
End Opp.

(** [SAMSearchFilters]; [None] is [undefined]. *)
Module Filters.
Record range : Type := mk_range { from : option string; to : option string }.
Record bounds : Type := mk_bounds { min : option number; max : option number }.
Record t : Type := mk {
  keyword : option string;
  startDate : option string;
  endDate : option string;
  naicsCode : option string;
  state : option string;
  agency : option string;
  type : option string;
  setAside : option string;
  active : option bool;
  limit : option number;
  offset : option number;
  entityName : option string;
  contractVehicle : option string;
  classificationCode : option string;
  fundingSource : option string;
  responseDeadline : option range;
  estimatedValue : option bounds;
  hasAttachments : option bool
}.
End Filters.

(** [SAMSearchResponse]; the four facet arrays are always empty. *)
Module Resp.
Record facets_t : Type := mk_facets {
  naicsCodes : list string;
  states : list string;
  agencies : list string;
  types : list string
}.
Record t : Type := mk {
  opportunities : list Opp.t;
  totalRecords : number;
  limit : number;
  offset : number;
  facets : facets_t
}.
End Resp.

(** A JSON body handed to [NextResponse.json], field by field. *)
Inductive json : Type :=
| JBool (b : bool)
| JNum (n : Z)
| JStr (s : string)
| JData (r : Resp.t).

Record NextResponse : Type := mkResponse {
  body : list (string * json);
  status : Z
}.

Record NextRequest : Type := mkRequest {
  headers : list (string * string);
  searchParams : list (string * string)
}.

(** [req.headers.get(name)]: names match without regard to case and the
    values of repeated headers are joined. *)
Definition headers_get (req : NextRequest) (name : string) : option string :=
  match List.filter (fun h => String.eqb (lower (fst h)) (lower name)) (headers req) with
  | [] => None
  | hs => Some (join ", " (List.map snd hs))
  end.

(** [searchParams.get(name)]: the first value under that name. *)
Fixpoint params_get (ps : list (string * string)) (name : string) : option string :=
  match ps with
  | [] => None
  | (k, v) :: r => if String.eqb k name then Some v else params_get r name
  end.

(** ** The world outside the module *)

Record JSDate : Type := mkDate { getFullYear : Z; getMonth : Z; getDate : Z }.

(** The body of a registry answer, as [response.json()] decodes it. *)
Inductive SamBody : Type :=
| BodyNull
| BodyObject (totalRecords : option Z) (opportunitiesData : option (list Raw.t)).

Record SamResponse : Type := mkSamResponse {
  sam_ok : bool;
  sam_status : Z;
  sam_statusText : string;
  sam_text : string;
  sam_json : exn + SamBody
}.

(** The body of an embedding endpoint's answer, seen through the two
    expressions the route evaluates on it. *)
Record EmbedBody : Type := mkEmbedBody {
  (* [error.error?.message] (OpenAI), [error.error] (Hugging Face): its
     rendering when truthy *)
  error_detail : exn + option string;
  (* [data.data[0].embedding] (OpenAI),
     [Array.isArray(data[0]) ? data[0] : data] (Hugging Face) *)
  embedding : exn + list number
}.

Record EmbedResponse : Type := mkEmbedResponse {
  emb_ok : bool;
  emb_statusText : string;
  emb_json : exn + EmbedBody
}.

Class Env : Type := {
  (* the value of the n-th clock read, epoch milliseconds *)
  clock : nat -> Z;
  (* [fetch] of the registry: n-th call, query parameters, API key *)
  sam_fetch : nat -> list (string * string) -> string -> exn + SamResponse;
  (* [fetch] of an embedding endpoint: n-th call, URL, API key, text *)
  embed_fetch : nat -> string -> string -> string -> exn + EmbedResponse;
  (* built-ins of the runtime *)
  frac_toString : Q -> string;
  parseFloat : string -> number;
  JSON_stringify : Filters.t -> string;
  (* [JSON.parse(text).errorMessage], rendered, when that succeeds and is truthy *)
  JSON_errorMessage : string -> option string;
  Date_ofMillis : Z -> JSDate;
  Date_setDate : JSDate -> Z -> JSDate;
  (* [new Date(s)], [None] when the time value is [NaN] *)
  Date_parse : string -> option JSDate;
  (* imported from [@/lib/redis] and [@/lib/utils] *)
  generateCacheKey : string -> string -> string;
  cosineSimilarity : list number -> list number -> exn + number
}.

(** [n.toString()] *)
Definition Number_toString `{E : Env} (x : number) : string :=
  match x with
  | NaN => "NaN"
  | PosInf => "Infinity"
  | NegInf => "-Infinity"
  | Fin q =>
      let r := Qred q in
      if Pos.eqb (Qden r) 1 then pretty (Qnum r) else frac_toString r
  end.

(** ** Module state and the monad of handlers *)

Record RateEntry : Type := mkRate { count : Z; timestamp : Z }.

Record CacheEntry : Type := mkCacheEntry { data : Resp.t; cachedAt : Z }.

(** An entry of the store behind [withCache]. *)
Record StoredPage : Type := mkStored { payload : list Opp.t; storedAt : Z }.

Record State : Type := mkState {
  samRateLimitMap : gmap string RateEntry;
  embeddingCache : gmap string (list number);
  searchResultsCache : gmap string CacheEntry;
  (* the store behind [withCache] *)
  pageStore : gmap string StoredPage;
  (* listings handed to [vectorStoreUtils.addOpportunity], latest first *)
  indexed : list Opp.t;
  (* clock reads and network calls made so far *)
  ticks : nat;
  samCalls : nat;
  embedCalls : nat
}.

Definition M (A : Type) : Type := State -> (exn + A) * State.

Definition ret {A} (a : A) : M A := fun s => (inr a, s).

Definition throw {A} (e : exn) : M A := fun s => (inl e, s).

Definition bind {A B} (m : M A) (k : A -> M B) : M B :=
  fun s => match m s with
           | (inr a, s') => k a s'
           | (inl e, s') => (inl e, s')
           end.

(** [try { m } catch (e) { h e }]: what [m] changed before it threw stays. *)
Definition try_catch {A} (m : M A) (h : exn -> M A) : M A :=
  fun s => match m s with
           | (inr a, s') => (inr a, s')
           | (inl e, s') => h e s'
           end.

Definition lift {A} (r : exn + A) : M A := fun s => (r, s).

Definition get : M State := fun s => (inr s, s).

Definition modify (f : State -> State) : M unit := fun s => (inr tt, f s).

Declare Scope js_scope.
Delimit Scope js_scope with js.
Notation "x <- m ;; k" := (bind m (fun x => k))
  (at level 100, m at next level, right associativity) : js_scope.
Notation "m ;;; k" := (bind m (fun _ => k))
  (at level 100, right associativity) : js_scope.
Open Scope js_scope.

Definition set_samRateLimitMap
    (f : gmap string RateEntry -> gmap string RateEntry) (s : State) : State :=
  mkState (f (samRateLimitMap s)) (embeddingCache s) (searchResultsCache s)
          (pageStore s) (indexed s) (ticks s) (samCalls s) (embedCalls s).

Definition set_embeddingCache
    (f : gmap string (list number) -> gmap string (list number)) (s : State) : State :=
  mkState (samRateLimitMap s) (f (embeddingCache s)) (searchResultsCache s)
          (pageStore s) (indexed s) (ticks s) (samCalls s) (embedCalls s).

Definition set_searchResultsCache
    (f : gmap string CacheEntry -> gmap string CacheEntry) (s : State) : State :=
  mkState (samRateLimitMap s) (embeddingCache s) (f (searchResultsCache s))
          (pageStore s) (indexed s) (ticks s) (samCalls s) (embedCalls s).

Definition set_pageStore
    (f : gmap string StoredPage -> gmap string StoredPage) (s : State) : State :=
  mkState (samRateLimitMap s) (embeddingCache s) (searchResultsCache s)
          (f (pageStore s)) (indexed s) (ticks s) (samCalls s) (embedCalls s).

Definition set_indexed (f : list Opp.t -> list Opp.t) (s : State) : State :=
  mkState (samRateLimitMap s) (embeddingCache s) (searchResultsCache s)
          (pageStore s) (f (indexed s)) (ticks s) (samCalls s) (embedCalls s).

Definition set_ticks (f : nat -> nat) (s : State) : State :=
  mkState (samRateLimitMap s) (embeddingCache s) (searchResultsCache s)
          (pageStore s) (indexed s) (f (ticks s)) (samCalls s) (embedCalls s).

Definition set_samCalls (f : nat -> nat) (s : State) : State :=
  mkState (samRateLimitMap s) (embeddingCache s) (searchResultsCache s)
          (pageStore s) (indexed s) (ticks s) (f (samCalls s)) (embedCalls s).

Definition set_embedCalls (f : nat -> nat) (s : State) : State :=
  mkState (samRateLimitMap s) (embeddingCache s) (searchResultsCache s)
          (pageStore s) (indexed s) (ticks s) (samCalls s) (f (embedCalls s)).

(** [Date.now()] *)
Definition Date_now `{E : Env} : M Z :=
  fun s => (inr (clock (ticks s)), set_ticks S s).

(** One [fetch] of the registry. *)
Definition fetch_sam `{E : Env} (params : list (string * string)) (key : string) : M SamResponse :=
  fun s => (sam_fetch (samCalls s) params key, set_samCalls S s).

(** One [fetch] of an embedding endpoint. *)
Definition fetch_embed `{E : Env} (url key text : string) : M EmbedResponse :=
  fun s => (embed_fetch (embedCalls s) url key text, set_embedCalls S s).

(** ** Rate limiting for SAM.gov API calls *)

Definition SAM_RATE_LIMIT_WINDOW : Z := 60000.
Definition SAM_RATE_LIMIT_MAX_REQUESTS : Z := 100.
Definition CACHE_DURATION : Z := 5 * 60 * 1000.

(** [x-forwarded-for || x-real-ip || 'unknown'] *)
Definition clientIp (req : NextRequest) : string :=
  match or_undefined (headers_get req "x-forwarded-for") with
  | Some ip => ip
  | None =>
      match or_undefined (headers_get req "x-real-ip") with
      | Some ip => ip
      | None => "unknown"
      end
  end.

Definition checkSAMRateLimit `{E : Env} (req : NextRequest) : M bool :=
  let clientIp := clientIp req in
  now <- Date_now ;;
  s <- get ;;
  match samRateLimitMap s !! clientIp with
  | None =>
      modify (set_samRateLimitMap <[clientIp := mkRate 1 now]>) ;;;
      ret true
  | Some clientData =>
      (* Reset if window has passed *)
      if (SAM_RATE_LIMIT_WINDOW <? now - timestamp clientData)%Z then
        modify (set_samRateLimitMap <[clientIp := mkRate 1 now]>) ;;;
        ret true
      (* Check if limit exceeded *)
      else if (SAM_RATE_LIMIT_MAX_REQUESTS <=? count clientData)%Z then
        ret false
      else
        (* Increment count *)
        modify (set_samRateLimitMap
                  <[clientIp := mkRate (count clientData + 1) (timestamp clientData)]>) ;;;
        ret true
  end.

(** ** Embeddings *)

Definition OPENAI_EMBEDDINGS_URL : string := "https://api.openai.com/v1/embeddings".
Definition HUGGINGFACE_EMBEDDINGS_URL : string :=
  "https://api-inference.huggingface.co/pipeline/feature-extraction/"
    +:+ "sentence-transformers/all-MiniLM-L6-v2".

Definition or_else (o : option string) (d : string) : string :=
  match or_undefined o with Some s => s | None => d end.

Definition generateOpenAIEmbeddings `{E : Env} (text apiKey : string) : M (list number) :=
  response <- fetch_embed OPENAI_EMBEDDINGS_URL apiKey text ;;
  if negb (emb_ok response) then
    error <- lift (emb_json response) ;;
    detail <- lift (error_detail error) ;;
    throw (JsError ("OpenAI Embeddings API error: "
                      +:+ or_else detail (emb_statusText response)))
  else
    data <- lift (emb_json response) ;;
    lift (embedding data).

Definition generateHuggingFaceEmbeddings `{E : Env} (text apiKey : string) : M (list number) :=
  response <- fetch_embed HUGGINGFACE_EMBEDDINGS_URL apiKey text ;;
  if negb (emb_ok response) then
    error <- lift (emb_json response) ;;
    detail <- lift (error_detail error) ;;
    throw (JsError ("Hugging Face Embeddings API error: "
                      +:+ or_else detail (emb_statusText response)))
  else
    data <- lift (emb_json response) ;;
    lift (embedding data).

Definition generateEmbeddings `{E : Env} (text provider apiKey : string) : M (list number) :=
  (* Check cache first *)
  let cacheKey := provider +:+ ":" +:+ text in
  s <- get ;;
  match embeddingCache s !! cacheKey with
  | Some cached => ret cached
  | None =>
      embeddings <-
        (if String.eqb provider "openai" then generateOpenAIEmbeddings text apiKey
         else if String.eqb provider "huggingface" then generateHuggingFaceEmbeddings text apiKey
         else throw (JsError ("Embedding provider " +:+ provider +:+ " not supported"))) ;;
      (* Cache the result *)
      modify (set_embeddingCache <[cacheKey := embeddings]>) ;;;
      ret embeddings
  end.

(** ** Searching the registry *)

(** [params.append(k, v)] *)
Definition append (k v : string) (ps : list (string * string)) : list (string * string) :=
  (ps ++ [(k, v)])%list.

Definition append_if (c : bool) (k v : string) (ps : list (string * string)) :
    list (string * string) :=
  if c then append k v ps else ps.

Definition append_str (k : string) (o : option string) (ps : list (string * string)) :
    list (string * string) :=
  match o with
  | Some v => append_if (str_truthy v) k v ps
  | None => ps
  end.

Definition append_num `{E : Env} (k : string) (o : option number) (ps : list (string * string)) :
    list (string * string) :=
  match o with
  | Some x => append_if (num_truthy x) k (Number_toString x) ps
  | None => ps
  end.

Definition bool_toString (b : bool) : string := if b then "true" else "false".

Definition opt_num_or (o : option number) (d : number) : number :=
  match o with Some x => num_or x d | None => d end.

(** The [URLSearchParams] that [searchSAMOpportunities] assembles; each
    line is one [if (...) params.append(...)] of the source, in order. *)
Definition query_params `{E : Env} (filters : Filters.t) : list (string * string) :=
  let ps := [] in
  let ps := append_str "q" (Filters.keyword filters) ps in
  let ps := append_str "postedFrom" (Filters.startDate filters) ps in
  let ps := append_str "postedTo" (Filters.endDate filters) ps in
  let ps := append_str "naicsCode" (Filters.naicsCode filters) ps in
  let ps := append_str "state" (Filters.state filters) ps in
  let ps := append_str "agency" (Filters.agency filters) ps in
  let ps := append_str "noticeType" (Filters.type filters) ps in
  let ps := append_str "setAside" (Filters.setAside filters) ps in
  let ps := match Filters.active filters with
            | Some b => append "active" (bool_toString b) ps
            | None => ps
            end in
  let ps := append_str "entityName" (Filters.entityName filters) ps in
  let ps := append_str "contractVehicle" (Filters.contractVehicle filters) ps in
  let ps := append_str "classificationCode" (Filters.classificationCode filters) ps in
  let ps := append_str "fundingSource" (Filters.fundingSource filters) ps in
  let ps := append_str "responseDeadlineFrom"
              (Filters.responseDeadline filters ≫= Filters.from) ps in
  let ps := append_str "responseDeadlineTo"
              (Filters.responseDeadline filters ≫= Filters.to) ps in
  let ps := append_num "estimatedValueMin"
              (Filters.estimatedValue filters ≫= Filters.min) ps in
  let ps := append_num "estimatedValueMax"
              (Filters.estimatedValue filters ≫= Filters.max) ps in
  let ps := append_if (match Filters.hasAttachments filters with Some b => b | None => false end)
              "hasAttachments" "true" ps in
  let ps := append "limit"
              (Number_toString (Math_min (opt_num_or (Filters.limit filters) (ofZ 50)) (ofZ 100)))
              ps in
  let ps := append "offset" (Number_toString (opt_num_or (Filters.offset filters) (ofZ 0))) ps in
  (* Add default parameters *)
  let ps := append "includeCount" "true" ps in
  append "format" "json" ps.

(** Transform a SAM.gov listing to our format. *)
Definition transform (opportunity : Raw.t) : Opp.t :=
  Opp.mk
    (if opt_truthy (Raw.noticeId opportunity) then Raw.noticeId opportunity
     else Raw.solicitationNumber opportunity)
    (Raw.noticeId opportunity)
    (Raw.title opportunity)
    (or_else (Raw.description opportunity) "")
    (or_else (Raw.synopsis opportunity) "")
    (Raw.type opportunity)
    (Raw.baseType opportunity)
    (Raw.archiveType opportunity)
    (Raw.archiveDate opportunity)
    (Raw.typeOfSetAsideDescription opportunity)
    (Raw.typeOfSetAside opportunity)
    (Raw.responseDeadLine opportunity)
    (Raw.naicsCode opportunity)
    (Raw.naicsDescription opportunity)
    (Raw.classificationCode opportunity)
    (Raw.active opportunity)
    (Raw.award opportunity)
    (Raw.pointOfContact opportunity)
    (Raw.placeOfPerformance opportunity)
    (Raw.organizationType opportunity)
    (Raw.officeAddress opportunity)
    (Raw.links opportunity)
    (Raw.uiLink opportunity)
    (ofZ 0) (* Will be calculated if semantic search is used *)
    false
    [].

(** The callback that [searchSAMOpportunities] hands to [withCache]. *)
Definition fetchOpportunities `{E : Env} (filters : Filters.t) (samApiKey : string) :
    M (list Opp.t) :=
  response <- fetch_sam (query_params filters) samApiKey ;;
  if negb (sam_ok response) then
    let error := sam_text response in
    let errorMessage :=
      "SAM.gov API error: " +:+ pretty (sam_status response) +:+ " "
        +:+ sam_statusText response in
    let errorMessage :=
      match JSON_errorMessage error with
      | Some m => errorMessage +:+ " - " +:+ m
      | None => errorMessage +:+ " - " +:+ error
      end in
    throw (JsError errorMessage)
  else
    data <- lift (sam_json response) ;;
    match data with
    | BodyNull => throw (JsError "Cannot read properties of null (reading 'opportunitiesData')")
    | BodyObject _ (Some opportunitiesData) => ret (List.map transform opportunitiesData)
    | BodyObject _ None => ret []
    end.

(** Modelled from the spec: [withCache] of [@/lib/redis], which is not among
    the sources. Section 4.3: on a live hit ([now - storedAt < ttl]) the
    stored payload is returned without invoking [compute]; on a miss or an
    expired entry [compute] is invoked, its result stored with the current
    timestamp and returned; an exception of [compute] propagates and nothing
    is stored. [ttl] is in seconds, the clock in milliseconds. *)
Definition withCache `{E : Env} (key : string) (compute : M (list Opp.t)) (ttl : Z) :
    M (list Opp.t) :=
  now <- Date_now ;;
  s <- get ;;
  let miss :=
    result <- compute ;;
    stored <- Date_now ;;
    modify (set_pageStore <[key := mkStored result stored]>) ;;;
    ret result in
  match pageStore s !! key with
  | Some entry =>
      if (now - storedAt entry <? ttl * 1000)%Z then ret (payload entry) else miss
  | None => miss
  end.

Definition searchSAMOpportunities `{E : Env} (filters : Filters.t) (samApiKey : string) :
    M (list Opp.t) :=
  (* Generate cache key based on filters *)
  let cacheKey := generateCacheKey (JSON_stringify filters) "sam-search" in
  (* Cache for 30 minutes *)
  withCache cacheKey (fetchOpportunities filters samApiKey) 1800.

(** ** Semantic search *)

(** [Array.prototype.sort(cmp)]: a stable sort; [x] goes behind [y] only
    when [cmp x y] is positive. *)
Fixpoint sort_insert {A} (cmp : A -> A -> comparison) (x : A) (l : list A) : list A :=
  match l with
  | [] => [x]
  | y :: r =>
      match cmp x y with
      | Gt => y :: sort_insert cmp x r
      | _ => x :: l
      end
  end.

Fixpoint Array_sort {A} (cmp : A -> A -> comparison) (l : list A) : list A :=
  match l with
  | [] => []
  | x :: r => sort_insert cmp x (Array_sort cmp r)
  end.

(** [opportunity.relevanceScore || 0] *)
Definition score_key (o : Opp.t) : number := num_or (Opp.relevanceScore o) (ofZ 0).

(** [(a, b) => (b.relevanceScore || 0) - (a.relevanceScore || 0)] *)
Definition by_relevance (a b : Opp.t) : comparison :=
  sub_sign (score_key b) (score_key a).

Definition render (o : option string) : string :=
  match o with Some s => s | None => "undefined" end.

Fixpoint mapM {A B} (f : A -> M B) (l : list A) : M (list B) :=
  match l with
  | [] => ret []
  | x :: r => y <- f x ;; ys <- mapM f r ;; ret (y :: ys)
  end.

(** The text of a listing that is embedded. *)
Definition embedded_text (opportunity : Opp.t) : string :=
  render (Opp.title opportunity) +:+ " " +:+ Opp.description opportunity +:+ " "
    +:+ Opp.synopsis opportunity.

(** The value of [opportunitiesWithScores]: the embeddings of the query
    and of each opportunity, and the similarity merged onto each one. *)
Definition opportunitiesWithScores `{E : Env}
    (opportunities : list Opp.t) (query provider apiKey : string) : M (list Opp.t) :=
  (* Generate embeddings for the search query *)
  queryEmbeddings <- generateEmbeddings query provider apiKey ;;
  (* Generate embeddings for each opportunity and calculate similarity *)
  mapM (fun opportunity =>
          let text := embedded_text opportunity in
          opportunityEmbeddings <- generateEmbeddings text provider apiKey ;;
          similarity <- lift (cosineSimilarity queryEmbeddings opportunityEmbeddings) ;;
          ret (Opp.with_relevanceScore opportunity similarity))
       opportunities.

Definition performSemanticSearch `{E : Env}
    (opportunities : list Opp.t) (query provider apiKey : string) : M (list Opp.t) :=
  if trim_is_empty query then ret opportunities
  else
    try_catch
      (scored <- opportunitiesWithScores opportunities query provider apiKey ;;
       (* Sort by relevance score (descending) and return top results *)
       ret (firstn 25 (Array_sort by_relevance scored)))
      ((* Fall back to original results if semantic search fails *)
       fun _ => ret opportunities).

(** ** The handler *)

(** Format dates as MM/dd/yyyy for SAM.gov API. *)
Definition formatDateForSAM (date : JSDate) : string :=
  let month := padStart2 (pretty (getMonth date + 1)%Z) in
  let day := padStart2 (pretty (getDate date)) in
  let year := pretty (getFullYear date) in
  month +:+ "/" +:+ day +:+ "/" +:+ year.

(** Convert date string to MM/dd/yyyy format if needed. *)
Definition normalizeDate `{E : Env} (dateStr : option string) : option string :=
  match or_undefined dateStr with
  | None => None
  | Some dateStr =>
      (* If already in MM/dd/yyyy format, return as is *)
      if is_sam_date dateStr then Some dateStr
      (* If in YYYY-MM-DD format, convert to MM/dd/yyyy *)
      else if is_iso_date dateStr then
        match split_on "-" dateStr with
        | [year; month; day] => Some (month +:+ "/" +:+ day +:+ "/" +:+ year)
        | _ => None
        end
      (* Try to parse as Date and format *)
      else
        match Date_parse dateStr with
        | Some date => Some (formatDateForSAM date)
        | None => None
        end
  end.

Definition is_true (o : option string) : bool :=
  match o with Some s => String.eqb s "true" | None => false end.

(** The filters that [GET] builds from the query string; [today] is the
    [new Date()] of the request. *)
Definition build_filters `{E : Env} (sp : list (string * string)) (today : JSDate) : Filters.t :=
  let thirtyDaysAgo := Date_setDate today (getDate today - 30) in
  let defaultStartDate := formatDateForSAM thirtyDaysAgo in
  let defaultEndDate := formatDateForSAM today in
  let limit := params_get sp "limit" in
  let offset := params_get sp "offset" in
  let estimatedValueMin := params_get sp "estimatedValueMin" in
  let estimatedValueMax := params_get sp "estimatedValueMax" in
  Filters.mk
    (or_undefined (params_get sp "q"))
    (Some (or_else (normalizeDate (params_get sp "startDate")) defaultStartDate))
    (Some (or_else (normalizeDate (params_get sp "endDate")) defaultEndDate))
    (or_undefined (params_get sp "naicsCode"))
    (or_undefined (params_get sp "state"))
    (or_undefined (params_get sp "agency"))
    (or_undefined (params_get sp "type"))
    (or_undefined (params_get sp "setAside"))
    (Some (is_true (params_get sp "active")))
    (Some (match or_undefined limit with Some l => parseInt l | None => ofZ 50 end))
    (Some (match or_undefined offset with Some o => parseInt o | None => ofZ 0 end))
    (or_undefined (params_get sp "entityName"))
    (or_undefined (params_get sp "contractVehicle"))
    (or_undefined (params_get sp "classificationCode"))
    (or_undefined (params_get sp "fundingSource"))
    (Some (Filters.mk_range
             (or_undefined (normalizeDate (params_get sp "responseDeadlineFrom")))
             (or_undefined (normalizeDate (params_get sp "responseDeadlineTo")))))
    (Some (Filters.mk_bounds
             (option_map parseFloat (or_undefined estimatedValueMin))
             (option_map parseFloat (or_undefined estimatedValueMax))))
    (Some (is_true (params_get sp "hasAttachments"))).

Definition no_facets : Resp.facets_t := Resp.mk_facets [] [] [] [].

Definition error_message (error : exn) : string :=
  match error with
  | JsError message => message
  | JsThrown _ => "An unexpected error occurred"
  end.

(** Perform semantic search if requested and query is provided. *)
Definition finalOpportunities `{E : Env} (req : NextRequest) (opportunities : list Opp.t) :
    M (list Opp.t) :=
  let sp := searchParams req in
  let keyword := params_get sp "q" in
  let semantic := params_get sp "semantic" in
  let provider := or_else (params_get sp "provider") "openai" in
  if is_true semantic && opt_truthy keyword then
    match or_undefined
            (option_map (replace_first "Bearer ") (headers_get req "authorization")) with
    | Some llmApiKey =>
        performSemanticSearch opportunities (or_else keyword "") provider llmApiKey
    | None => ret opportunities
    end
  else ret opportunities.

(** Build response. *)
Definition build_response
    (filters : Filters.t) (opportunities finalOpportunities : list Opp.t) : Resp.t :=
  Resp.mk finalOpportunities
          (ofZ (Z.of_nat (length opportunities)))
          (opt_num_or (Filters.limit filters) (ofZ 50))
          (opt_num_or (Filters.offset filters) (ofZ 0))
          no_facets.

Definition success_body (response : Resp.t) (now : Z) : list (string * json) :=
  [("success", JBool true); ("data", JData response); ("timestamp", JNum now)].

Definition cached_body (response : Resp.t) (now : Z) : list (string * json) :=
  [("success", JBool true); ("data", JData response); ("cached", JBool true);
   ("timestamp", JNum now)].

(** What [GET] does once the results cache has missed. *)
Definition search_fresh `{E : Env} (req : NextRequest) (filters : Filters.t) (samApiKey : string) :
    M NextResponse :=
  (* Search SAM.gov *)
  opportunities <- searchSAMOpportunities filters samApiKey ;;
  (* Add opportunities to vector store for future semantic search *)
  modify (set_indexed (fun l => (rev (firstn 10 opportunities) ++ l)%list)) ;;;
  final <- finalOpportunities req opportunities ;;
  let response := build_response filters opportunities final in
  (* Cache the result *)
  stored <- Date_now ;;
  modify (set_searchResultsCache <[JSON_stringify filters := mkCacheEntry response stored]>) ;;;
  (* Return response *)
  now <- Date_now ;;
  ret (mkResponse (success_body response now) 200).

(** Everything [GET] does inside its [try] once the API key is known. *)
Definition search `{E : Env} (req : NextRequest) (samApiKey : string) : M NextResponse :=
  (* Set default date range if not provided (last 30 days) *)
  today <- Date_now ;;
  (* Build search filters *)
  let filters := build_filters (searchParams req) (Date_ofMillis today) in
  (* Check cache first *)
  s <- get ;;
  match searchResultsCache s !! JSON_stringify filters with
  | Some cachedResult =>
      checked <- Date_now ;;
      if (checked - cachedAt cachedResult <? CACHE_DURATION)%Z then
        now <- Date_now ;;
        ret (mkResponse (cached_body (data cachedResult) now) 200)
      else search_fresh req filters samApiKey
  | None => search_fresh req filters samApiKey
  end.

Definition rate_limited : NextResponse :=
  mkResponse [("error", JStr "Rate limit exceeded. Please try again later.")] 429.

Definition key_required : NextResponse :=
  mkResponse [("error", JStr "SAM API key is required")] 400.

Definition failure (error : exn) (now : Z) : NextResponse :=
  mkResponse [("error", JStr (error_message error)); ("timestamp", JNum now)] 500.

(** Main SAM search API handler. *)
Definition GET `{E : Env} (req : NextRequest) : M NextResponse :=
  (* Check rate limit *)
  allowed <- checkSAMRateLimit req ;;
  if negb allowed then ret rate_limited
  else
    try_catch
      ((* Validate required parameters *)
       match or_undefined (params_get (searchParams req) "samApiKey") with
       | None => ret key_required
       | Some samApiKey => search req samApiKey
       end)
      ((* Return appropriate error response *)
       fun error => now <- Date_now ;; ret (failure error now)).

(** ** Cosine similarity *)

(** Modelled from the spec: [cosineSimilarity] of [@/lib/utils], which is
    not among the sources. Section 4.5: the similarity of two vectors is
    [dot(a,b) / (‖a‖ · ‖b‖)], and it is 0 when either vector has zero
    magnitude. The numbers are real numbers: the rounding of floating-point
    arithmetic is outside this definition. *)
Module Cosine.

Fixpoint dot (a b : list R) : R :=
  match a, b with
  | x :: a', y :: b' => (x * y + dot a' b')%R
  | _, _ => 0%R
  end.

Definition magnitude (a : list R) : R := sqrt (dot a a).

Definition cosineSimilarity (a b : list R) : R :=
  if Req_dec_T (magnitude a) 0 then 0%R
  else if Req_dec_T (magnitude b) 0 then 0%R
  else (dot a b / (magnitude a * magnitude b))%R.

End Cosine.

(** ** A concrete world

    An environment to run the handlers in: the clock, the registry and the
    embedding endpoints are given; the built-ins are simple stand-ins
    (fractions print as [n/d], [parseFloat] reads integers, the date is
    fixed at the last day of January 2024, and the similarity of two
    vectors is their dot product, which is their cosine similarity when
    they are unit vectors). *)

Definition demo_frac_toString (q : Q) : string :=
  pretty (Qnum q) +:+ "/" +:+ pretty (Zpos (Qden q)).

Definition demo_show (o : option string) : string :=
  match o with Some s => "'" +:+ s +:+ "'" | None => "" end.

Definition demo_show_num (o : option number) : string :=
  match o with
  | Some (Fin q) => demo_frac_toString (Qred q)
  | Some _ => "null"
  | None => ""
  end.

Definition demo_show_bool (o : option bool) : string :=
  match o with Some b => bool_toString b | None => "" end.

Definition demo_stringify (f : Filters.t) : string :=
  join ","
    [demo_show (Filters.keyword f); demo_show (Filters.startDate f);
     demo_show (Filters.endDate f); demo_show (Filters.naicsCode f);
     demo_show (Filters.state f); demo_show (Filters.agency f);
     demo_show (Filters.type f); demo_show (Filters.setAside f);
     demo_show_bool (Filters.active f); demo_show_num (Filters.limit f);
     demo_show_num (Filters.offset f); demo_show (Filters.entityName f);
     demo_show (Filters.contractVehicle f); demo_show (Filters.classificationCode f);
     demo_show (Filters.fundingSource f);
     demo_show (Filters.responseDeadline f ≫= Filters.from);
     demo_show (Filters.responseDeadline f ≫= Filters.to);
     demo_show_num (Filters.estimatedValue f ≫= Filters.min);
     demo_show_num (Filters.estimatedValue f ≫= Filters.max);
     demo_show_bool (Filters.hasAttachments f)].

Fixpoint demo_dot (a b : list number) : Q :=
  match a, b with
  | Fin x :: a', Fin y :: b' => x * y + demo_dot a' b'
  | _, _ => 0
  end.

Definition demo_cosine (a b : list number) : exn + number :=
  if (length a =? length b)%nat then inr (Fin (Qred (demo_dot a b)))
  else inl (JsError "Vectors must have the same length").

Definition demo_env
    (clk : nat -> Z)
    (sam : nat -> list (string * string) -> string -> exn + SamResponse)
    (emb : nat -> string -> string -> string -> exn + EmbedResponse) : Env :=
  {| clock := clk;
     sam_fetch := sam;
     embed_fetch := emb;
     frac_toString := demo_frac_toString;
     parseFloat := parseInt;
     JSON_stringify := demo_stringify;
     JSON_errorMessage := fun _ => None;
     Date_ofMillis := fun _ => mkDate 2024 0 31;
     Date_setDate := fun d n => mkDate (getFullYear d) (getMonth d) n;
     Date_parse := fun _ => None;
     generateCacheKey := fun s prefix => prefix +:+ ":" +:+ s;
     cosineSimilarity := demo_cosine |}.

Definition demo_clock (n : nat) : Z := 1700000000000 + Z.of_nat n.

Definition raw_listing (noticeId title : string) : Raw.t :=
  Raw.mk (Some noticeId) None (Some title) None None None None None None None
         None None None None None None None None None None None None None.

Definition sam_page (total : option Z) (listings : list Raw.t) : SamResponse :=
  mkSamResponse true 200 "OK" "" (inr (BodyObject total (Some listings))).

Definition sam_down : SamResponse :=
  mkSamResponse false 500 "Internal Server Error" "upstream exploded"
                (inl (JsError "Unexpected token u in JSON at position 0")).

Definition embed_ok (v : list number) : EmbedResponse :=
  mkEmbedResponse true "OK" (inr (mkEmbedBody (inr None) (inr v))).

Definition embed_down : EmbedResponse :=
  mkEmbedResponse false "Service Unavailable"
                  (inr (mkEmbedBody (inr (Some "model overloaded")) (inl (JsError "no data")))).

Definition init : State := mkState ∅ ∅ ∅ ∅ [] 0 0 0.

Definition demo_request (params : list (string * string)) : NextRequest :=
  mkRequest [("x-forwarded-for", "10.0.0.7")] (("samApiKey", "SAM-KEY") :: params).

(** ** Cleanup of the caches *)

(** The callback of the [setInterval] that ends the module. A [Map] is
    iterated in the order of insertion, which a [gmap] does not record: the
    callback is given the entries of the embedding cache in that order. *)
Definition cleanup `{E : Env} (entries : list (string * list number)) : M unit :=
  now <- Date_now ;;
  s <- get ;;
  (* Clean embedding cache (keep last 1000 entries) *)
  (if (1000 <? Z.of_nat (size (embeddingCache s)))%Z then
     modify (set_embeddingCache (fun _ =>
       foldl (fun cache entry => <[fst entry := snd entry]> cache) ∅
             (skipn (length entries - 500) entries)))
   else ret tt) ;;;
  (* Clean search results cache *)
  modify (set_searchResultsCache
            (filter (fun entry => ~ (CACHE_DURATION < now - cachedAt (snd entry))%Z))).

(** * The chat route

    A shallow embedding of [src/app/api/chat/route.ts]: its own rate
    limiter, the three message formats, the three provider calls and the
    [POST] handler. The module has its own state (the limiter's map, the
    clock reads, the calls made to providers) and its own world: the clock,
    the providers, the three API keys of the server's environment, the
    system prompt (a constant text of the module, whose wording no
    behaviour depends on) and [chatWithRAG], which the route imports. The
    request body is taken as [req.json()] decodes it, typed as the route's
    types say, with the shapes that the handler tells apart kept apart. *)
Module Chat.

(** [LLMMessage] *)
Module Msg.
Record t : Type := mk { role : string; content : string }.
End Msg.

(** The body that goes to a provider. *)
Inductive Payload : Type :=
| OpenAIPayload (model : string) (messages : list Msg.t) (temperature max_tokens : number)
                (stream : bool)
| AnthropicPayload (model : string) (max_tokens temperature : number) (system : string)
                   (messages : list Msg.t)
| HuggingFacePayload (inputs : string) (max_new_tokens temperature : number)
                     (return_full_text : bool).

(** The token counts of an answer: [data.usage] as it came (OpenAI), or
    the three counts that the route computes. *)
Inductive Usage : Type :=
| UsageAny (usage : json_any)
| UsageTokens (prompt_tokens completion_tokens total_tokens : number).

(** [LLMResponse] *)
Module Reply.
Record rag : Type := mk_rag { opportunities : json_any; companyProfile : string }.
Record t : Type := mk {
  content : json_any;
  usage : Usage;
  model : json_any;
  provider : string;
  ragContext : option rag
}.
End Reply.

(** The body of a provider's answer, seen through the expressions that the
    route evaluates on it. *)
Record LlmBody : Type := mkLlmBody {
  (* [error.error?.message] (OpenAI, Anthropic), [error.error] (Hugging
     Face): its rendering when truthy *)
  llm_error : exn + option string;
  (* [data.choices[0].message.content], [data.content[0].text],
     [Array.isArray(data) ? data[0].generated_text : data.generated_text] *)
  llm_content : exn + json_any;
  (* [data.usage] *)
  llm_usage : json_any;
  (* [data.usage.input_tokens] and [data.usage.output_tokens] *)
  llm_tokens : exn + number * number;
  (* [data.model] *)
  llm_model : json_any
}.

Record LlmResponse : Type := mkLlmResponse {
  llm_ok : bool;
  llm_statusText : string;
  llm_json : exn + LlmBody
}.

(** One call to a provider: URL, headers, payload. *)
Record LlmCall : Type := mkCall {
  url : string;
  call_headers : list (string * string);
  payload : Payload
}.

Record State : Type := mkState {
  rateLimitMap : gmap string RateEntry;
  (* clock reads made so far *)
  ticks : nat;
  (* the calls made to providers, latest first *)
  calls : list LlmCall
}.

Definition M (A : Type) : Type := State -> (exn + A) * State.

Definition ret {A} (a : A) : M A := fun s => (inr a, s).

Definition throw {A} (e : exn) : M A := fun s => (inl e, s).

Definition bind {A B} (m : M A) (k : A -> M B) : M B :=
  fun s => match m s with
           | (inr a, s') => k a s'
           | (inl e, s') => (inl e, s')
           end.

Definition try_catch {A} (m : M A) (h : exn -> M A) : M A :=
  fun s => match m s with
           | (inr a, s') => (inr a, s')
           | (inl e, s') => h e s'
           end.

Definition lift {A} (r : exn + A) : M A := fun s => (r, s).

Definition get : M State := fun s => (inr s, s).

Definition modify (f : State -> State) : M unit := fun s => (inr tt, f s).

Declare Scope chat_scope.
Delimit Scope chat_scope with chat.
Notation "x <- m ;; k" := (bind m (fun x => k))
  (at level 100, m at next level, right associativity) : chat_scope.
Notation "m ;;; k" := (bind m (fun _ => k))
  (at level 100, right associativity) : chat_scope.
Local Open Scope chat_scope.

(** [RAGResult], as far as the route reads it. *)
Record RagResult : Type := mkRag { response : json_any; rag_opportunities : json_any }.

Class World : Type := {
  (* the value of the n-th clock read, epoch milliseconds *)
  clock : nat -> Z;
  (* [fetch] of a provider: n-th call, the call *)
  llm_fetch : nat -> LlmCall -> exn + LlmResponse;
  (* [process.env] *)
  OPENAI_API_KEY : option string;
  ANTHROPIC_API_KEY : option string;
  HUGGINGFACE_API_KEY : option string;
  (* the system prompt for SAM.gov expertise *)
  SYSTEM_PROMPT : string;
  (* imported from [@/lib/chat-rag]: last message, company profile, LLM function *)
  chatWithRAG : string -> string -> (string -> string -> M json_any) -> M RagResult
}.

Definition Date_now `{W : World} : M Z :=
  fun s => (inr (clock (ticks s)), mkState (rateLimitMap s) (S (ticks s)) (calls s)).

Definition fetch `{W : World} (call : LlmCall) : M LlmResponse :=
  fun s => (llm_fetch (length (calls s)) call,
            mkState (rateLimitMap s) (ticks s) (call :: calls s)).

(** ** Rate limiting configuration *)

Definition RATE_LIMIT_WINDOW : Z := 60000.
Definition RATE_LIMIT_MAX_REQUESTS : Z := 20.

Definition set_rateLimitMap
    (f : gmap string RateEntry -> gmap string RateEntry) (s : State) : State :=
  mkState (f (rateLimitMap s)) (ticks s) (calls s).

Definition checkRateLimit `{W : World} (req : NextRequest) : M bool :=
  let clientIp := clientIp req in
  now <- Date_now ;;
  s <- get ;;
  match rateLimitMap s !! clientIp with
  | None =>
      modify (set_rateLimitMap <[clientIp := mkRate 1 now]>) ;;;
      ret true
  | Some clientData =>
      (* Reset if window has passed *)
      if (RATE_LIMIT_WINDOW <? now - timestamp clientData)%Z then
        modify (set_rateLimitMap <[clientIp := mkRate 1 now]>) ;;;
        ret true
      (* Check if limit exceeded *)
      else if (RATE_LIMIT_MAX_REQUESTS <=? count clientData)%Z then
        ret false
      else
        (* Increment count *)
        modify (set_rateLimitMap
                  <[clientIp := mkRate (count clientData + 1) (timestamp clientData)]>) ;;;
        ret true
  end.

(** ** LLM provider configurations *)

Module LLM_CONFIGS.
Definition openai_baseUrl : string := "https://api.openai.com/v1".
Definition openai_chatEndpoint : string := "/chat/completions".
Definition openai_headers (apiKey : string) : list (string * string) :=
  [("Authorization", "Bearer " +:+ apiKey); ("Content-Type", "application/json")].

Definition anthropic_baseUrl : string := "https://api.anthropic.com/v1".
Definition anthropic_chatEndpoint : string := "/messages".
Definition anthropic_headers (apiKey : string) : list (string * string) :=
  [("x-api-key", apiKey); ("Content-Type", "application/json");
   ("anthropic-version", "2023-06-01")].

Definition huggingface_baseUrl : string := "https://api-inference.huggingface.co/models".
Definition huggingface_headers (apiKey : string) : list (string * string) :=
  [("Authorization", "Bearer " +:+ apiKey); ("Content-Type", "application/json")].
End LLM_CONFIGS.

(** ** Message formats *)

(** [msg.role === 'assistant' ? 'assistant' : 'user'] *)
Definition chat_role (msg : Msg.t) : string :=
  if String.eqb (Msg.role msg) "assistant" then "assistant" else "user".

(** Format messages for OpenAI API. *)
Definition formatOpenAIMessages `{W : World} (messages : list Msg.t) : list Msg.t :=
  Msg.mk "system" SYSTEM_PROMPT
  :: List.map (fun msg => Msg.mk (chat_role msg) (Msg.content msg)) messages.

(** Format messages for Anthropic API: the [system] text and the messages. *)
Definition formatAnthropicMessages `{W : World} (messages : list Msg.t) :
    string * list Msg.t :=
  let userMessages :=
    List.filter (fun msg => negb (String.eqb (Msg.role msg) "system")) messages in
  (SYSTEM_PROMPT, List.map (fun msg => Msg.mk (chat_role msg) (Msg.content msg)) userMessages).

Definition newlines : string := String "010" (String "010" EmptyString).

(** Format messages for Hugging Face API: the [inputs] text. The
    [parameters] that the source sets beside it are overwritten by the one
    caller before they are used, and are set there. *)
Definition formatHuggingFaceMessages `{W : World} (messages : list Msg.t) : string :=
  let conversationText :=
    join newlines
         (List.map (fun msg =>
                      let prefix :=
                        if String.eqb (Msg.role msg) "user" then "Human: " else "Assistant: " in
                      prefix +:+ Msg.content msg)
                   messages) in
  SYSTEM_PROMPT +:+ newlines +:+ conversationText +:+ newlines +:+ "Assistant:".

(** ** The provider calls *)

(** The value of a parameter with a default. *)
Definition or_default (o : option number) (d : number) : number :=
  match o with Some x => x | None => d end.

Definition default_temperature : number := Fin (7 # 10).
Definition default_maxTokens : number := ofZ 1000.

(** [a + b] on numbers. *)
Definition num_add (a b : number) : number :=
  match a, b with
  | NaN, _ | _, NaN => NaN
  | PosInf, NegInf | NegInf, PosInf => NaN
  | PosInf, _ | _, PosInf => PosInf
  | NegInf, _ | _, NegInf => NegInf
  | Fin x, Fin y => Fin (x + y)
  end.

(** Call OpenAI API. *)
Definition callOpenAI `{W : World} (messages : list Msg.t) (model apiKey : string)
    (temperature maxTokens : option number) : M Reply.t :=
  let payload :=
    OpenAIPayload model (formatOpenAIMessages messages)
                  (or_default temperature default_temperature)
                  (or_default maxTokens default_maxTokens) false in
  response <- fetch (mkCall (LLM_CONFIGS.openai_baseUrl +:+ LLM_CONFIGS.openai_chatEndpoint)
                            (LLM_CONFIGS.openai_headers apiKey) payload) ;;
  if negb (llm_ok response) then
    error <- lift (llm_json response) ;;
    detail <- lift (llm_error error) ;;
    throw (JsError ("OpenAI API error: " +:+ or_else detail (llm_statusText response)))
  else
    data <- lift (llm_json response) ;;
    content <- lift (llm_content data) ;;
    ret (Reply.mk content (UsageAny (llm_usage data)) (llm_model data) "openai" None).

(** Call Anthropic API. *)
Definition callAnthropic `{W : World} (messages : list Msg.t) (model apiKey : string)
    (temperature maxTokens : option number) : M Reply.t :=
  let formatted := formatAnthropicMessages messages in
  let payload :=
    AnthropicPayload model (or_default maxTokens default_maxTokens)
                     (or_default temperature default_temperature)
                     (fst formatted) (snd formatted) in
  response <- fetch (mkCall (LLM_CONFIGS.anthropic_baseUrl
                               +:+ LLM_CONFIGS.anthropic_chatEndpoint)
                            (LLM_CONFIGS.anthropic_headers apiKey) payload) ;;
  if negb (llm_ok response) then
    error <- lift (llm_json response) ;;
    detail <- lift (llm_error error) ;;
    throw (JsError ("Anthropic API error: " +:+ or_else detail (llm_statusText response)))
  else
    data <- lift (llm_json response) ;;
    content <- lift (llm_content data) ;;
    tokens <- lift (llm_tokens data) ;;
    ret (Reply.mk content
                  (UsageTokens (fst tokens) (snd tokens) (num_add (fst tokens) (snd tokens)))
                  (llm_model data) "anthropic" None).

(** Call Hugging Face API. *)
Definition callHuggingFace `{W : World} (messages : list Msg.t) (model apiKey : string)
    (temperature maxTokens : option number) : M Reply.t :=
  let payload :=
    HuggingFacePayload (formatHuggingFaceMessages messages)
                       (or_default maxTokens default_maxTokens)
                       (or_default temperature default_temperature) false in
  response <- fetch (mkCall (LLM_CONFIGS.huggingface_baseUrl +:+ "/" +:+ model)
                            (LLM_CONFIGS.huggingface_headers apiKey) payload) ;;
  if negb (llm_ok response) then
    error <- lift (llm_json response) ;;
    detail <- lift (llm_error error) ;;
    throw (JsError ("Hugging Face API error: " +:+ or_else detail (llm_statusText response)))
  else
    data <- lift (llm_json response) ;;
    content <- lift (llm_content data) ;;
    ret (Reply.mk content
                  (* HF doesn't provide token counts *)
                  (UsageTokens (ofZ 0) (ofZ 0) (ofZ 0))
                  (Some model) "huggingface" None).

(** The [switch] on the provider. *)
Definition callProvider `{W : World} (provider : string) (messages : list Msg.t)
    (modelName apiKey : string) (temperature maxTokens : option number) : M Reply.t :=
  if String.eqb provider "openai" then
    callOpenAI messages modelName apiKey temperature maxTokens
  else if String.eqb provider "anthropic" then
    callAnthropic messages modelName apiKey temperature maxTokens
  else if String.eqb provider "huggingface" then
    callHuggingFace messages modelName apiKey temperature maxTokens
  else throw (JsError ("Unsupported provider: " +:+ provider)).

(** ** The handler *)

(** The [model] of a request body, as the handler tells it apart. *)
Inductive ModelField : Type :=
| NoModel                   (* absent, [null] or another falsy value that is no string *)
| ModelText (model : string)
| ModelOther.               (* truthy and not a string *)

Module Context.
Record t : Type := mk {
  apiKey : option string;
  test : bool;                (* whether [context.test] is truthy *)
  temperature : option number;
  maxTokens : option number
}.
End Context.

(** The body of a request: [messages] is [None] when it is absent, falsy
    or not an array; [companyProfile] is [None] when it is falsy. *)
Module Body.
Record t : Type := mk {
  model : ModelField;
  messages : option (list Msg.t);
  context : option Context.t;
  companyProfile : option string
}.
End Body.

Inductive json : Type :=
| JBool (b : bool)
| JNum (n : Z)
| JStr (s : string)
| JReply (r : Reply.t).

Record Response : Type := mkResponse {
  body : list (string * json);
  status : Z
}.

Definition quote : string := String "034" EmptyString.

Definition rate_limited : Response :=
  mkResponse [("error", JStr "Rate limit exceeded. Please try again later.")] 429.

Definition invalid_request : Response :=
  mkResponse [("error", JStr "Invalid request. Model and messages are required.")] 400.

Definition invalid_format : Response :=
  mkResponse [("error", JStr ("Invalid model format. Use " +:+ quote +:+ "provider:model"
                                +:+ quote +:+ " format."))] 400.

Definition invalid_provider : Response :=
  mkResponse
    [("error", JStr "Invalid provider. Supported providers: openai, anthropic, huggingface.")]
    400.

Definition key_required : Response :=
  mkResponse [("error", JStr "API key is required.")] 401.

Definition validated : Response :=
  mkResponse [("success", JBool true); ("message", JStr "API key validation successful")] 200.

Definition failure (error : exn) (now : Z) : Response :=
  mkResponse [("error", JStr (error_message error)); ("timestamp", JNum now)] 500.

(** [['openai', 'anthropic', 'huggingface'].includes(provider)] *)
Definition supported (provider : string) : bool :=
  existsb (String.eqb provider) ["openai"; "anthropic"; "huggingface"].

(** [a || b] on [string | undefined]. *)
Definition or_key (a b : option string) : option string :=
  match or_undefined a with Some k => Some k | None => b end.

(** Get API key from headers, context, or server environment. *)
Definition resolveApiKey `{W : World} (req : NextRequest) (context : option Context.t) :
    option string :=
  let apiKey :=
    or_key (option_map (replace_first "Bearer ") (headers_get req "authorization"))
           (context ≫= Context.apiKey) in
  (* If API key is "server-configured", use environment variable *)
  match apiKey with
  | Some k =>
      if String.eqb k "server-configured" then
        Some (or_else (or_key OPENAI_API_KEY (or_key ANTHROPIC_API_KEY HUGGINGFACE_API_KEY)) "")
      else apiKey
  | None => apiKey
  end.

(** The LLM function that the handler hands to [chatWithRAG]. *)
Definition llmFunction `{W : World} (provider modelName apiKey : string)
    (context : option Context.t) (systemPrompt userPrompt : string) : M json_any :=
  let ragMessages := [Msg.mk "system" systemPrompt; Msg.mk "user" userPrompt] in
  response <- callProvider provider ragMessages modelName apiKey
                (context ≫= Context.temperature) (context ≫= Context.maxTokens) ;;
  ret (Reply.content response).

(** Call appropriate LLM provider with RAG if company profile is provided. *)
Definition respond `{W : World} (provider modelName apiKey : string)
    (messages : list Msg.t) (context : option Context.t) (companyProfile : option string) :
    M Reply.t :=
  match companyProfile with
  | Some profile =>
      (* Get the last user message *)
      match last messages with
      | None => throw (JsError "Cannot read properties of undefined (reading 'content')")
      | Some message =>
          ragResult <- chatWithRAG (Msg.content message) profile
                         (llmFunction provider modelName apiKey context) ;;
          (* Create response with RAG context *)
          ret (Reply.mk (response ragResult) (UsageTokens (ofZ 0) (ofZ 0) (ofZ 0))
                        (Some modelName) provider
                        (Some (Reply.mk_rag (rag_opportunities ragResult) profile)))
      end
  | None =>
      (* Standard chat without RAG *)
      callProvider provider messages modelName apiKey
        (context ≫= Context.temperature) (context ≫= Context.maxTokens)
  end.

(** What [POST] does once model and messages are there. *)
Definition chat `{W : World} (req : NextRequest) (model : string) (messages : list Msg.t)
    (context : option Context.t) (companyProfile : option string) : M Response :=
  (* Parse provider and model *)
  let parts := split_on ":" model in
  let provider := nth 0 parts "" in
  let modelName := nth_error parts 1 in
  match or_undefined (Some provider), or_undefined modelName with
  | Some provider, Some modelName =>
      (* Validate provider *)
      if negb (supported provider) then ret invalid_provider
      else
        match or_undefined (resolveApiKey req context) with
        | None => ret key_required
        | Some apiKey =>
            (* Test mode for validation *)
            if match context with Some c => Context.test c | None => false end
            then ret validated
            else
              response <- respond provider modelName apiKey messages context companyProfile ;;
              (* Return response *)
              now <- Date_now ;;
              ret (mkResponse [("success", JBool true); ("data", JReply response);
                               ("timestamp", JNum now)] 200)
        end
  | _, _ => ret invalid_format
  end.

(** Main chat API handler; [json] is what [req.json()] gives. *)
Definition POST `{W : World} (req : NextRequest) (json : exn + Body.t) : M Response :=
  (* Check rate limit *)
  allowed <- checkRateLimit req ;;
  if negb allowed then ret rate_limited
  else
    try_catch
      (b <- lift json ;;
       (* Validate input *)
       match Body.model b, Body.messages b with
       | ModelText model, Some messages =>
           if str_truthy model then
             chat req model messages (Body.context b) (Body.companyProfile b)
           else ret invalid_request
       | ModelOther, Some _ => throw (JsError "model.split is not a function")
       | _, _ => ret invalid_request
       end)
      ((* Return appropriate error response *)
       fun error => now <- Date_now ;; ret (failure error now)).

End Chat.

(** * The application store

    The chat-session and favourites actions of the zustand store. An
    action is a function on the part of the state that these actions read
    and write (the other fields of the store are not touched by them),
    with the reads of the clock and the identifiers drawn so far counted
    in it. An object literal is evaluated in the order of its properties:
    [chatSessions] before [currentSession]. *)
Module Store.

Record LLMConfig : Type := mkConfig {
  provider : string;
  model : string;
  apiKey : string;
  temperature : number;
  maxTokens : number
}.

(** [ChatMessage]: its [id] and the rest of it. *)
Record ChatMessage : Type := mkMessage { message_id : string; message_rest : string }.

(** [ChatSession] *)
Record ChatSession : Type := mkSession {
  id : string;
  title : string;
  messages : list ChatMessage;
  createdAt : Z;
  updatedAt : Z;
  llmConfig : LLMConfig
}.

Record AppState : Type := mkApp {
  config : LLMConfig;                 (* [llmConfig] *)
  currentSession : option ChatSession;
  chatSessions : list ChatSession;
  favorites : list string;
  (* clock reads made and identifiers drawn so far *)
  ticks : nat;
  drawn : nat
}.

Class World : Type := {
  (* the value of the n-th clock read *)
  clock : nat -> Z;
  (* the n-th identifier of [generateUUID], imported from [@/lib/utils] *)
  generateUUID : nat -> string
}.

(** [sessions.map(session => session.id === sessionId ? f(session, Date.now()) : session)]:
    the clock is read once for each session that matches. *)
Fixpoint map_matching `{W : World} (sessionId : string)
    (f : ChatSession -> Z -> ChatSession) (sessions : list ChatSession) (ticks : nat) :
    list ChatSession * nat :=
  match sessions with
  | [] => ([], ticks)
  | session :: rest =>
      if String.eqb (id session) sessionId then
        let session' := f session (clock ticks) in
        let '(rest', ticks') := map_matching sessionId f rest (S ticks) in
        (session' :: rest', ticks')
      else
        let '(rest', ticks') := map_matching sessionId f rest ticks in
        (session :: rest', ticks')
  end.

Definition createChatSession `{W : World} (title : option string) (state : AppState) :
    ChatSession * AppState :=
  let session :=
    mkSession (generateUUID (drawn state)) (or_else title "New Chat") []
              (clock (ticks state)) (clock (S (ticks state))) (config state) in
  (session,
   mkApp (config state) (Some session) (chatSessions state ++ [session])%list
         (favorites state) (S (S (ticks state))) (S (drawn state))).

Definition setCurrentSession (session : option ChatSession) (state : AppState) : AppState :=
  mkApp (config state) session (chatSessions state) (favorites state) (ticks state)
        (drawn state).

(** [state.currentSession?.id === sessionId] *)
Definition is_current (sessionId : string) (state : AppState) : bool :=
  match currentSession state with
  | Some session => String.eqb (id session) sessionId
  | None => false
  end.

Definition deleteSession (sessionId : string) (state : AppState) : AppState :=
  mkApp (config state)
        (if is_current sessionId state then None else currentSession state)
        (List.filter (fun s => negb (String.eqb (id s) sessionId)) (chatSessions state))
        (favorites state) (ticks state) (drawn state).

(** [{ ...session, messages: [...session.messages, message], updatedAt: now }] *)
Definition with_message (message : ChatMessage) (session : ChatSession) (now : Z) :
    ChatSession :=
  mkSession (id session) (title session) (messages session ++ [message])%list
            (createdAt session) now (llmConfig session).

Definition addMessageToSession `{W : World} (sessionId : string) (message : ChatMessage)
    (state : AppState) : AppState :=
  let '(sessions, ticks) :=
    map_matching sessionId (with_message message) (chatSessions state) (ticks state) in
  match currentSession state with
  | Some session =>
      if String.eqb (id session) sessionId then
        mkApp (config state) (Some (with_message message session (clock ticks))) sessions
              (favorites state) (S ticks) (drawn state)
      else
        mkApp (config state) (Some session) sessions (favorites state) ticks (drawn state)
  | None => mkApp (config state) None sessions (favorites state) ticks (drawn state)
  end.

Definition clearAllSessions (state : AppState) : AppState :=
  mkApp (config state) None [] (favorites state) (ticks state) (drawn state).

Definition set_favorites (f : list string -> list string) (state : AppState) : AppState :=
  mkApp (config state) (currentSession state) (chatSessions state) (f (favorites state))
        (ticks state) (drawn state).

Definition addToFavorites (opportunityId : string) : AppState -> AppState :=
  set_favorites (fun favorites => (favorites ++ [opportunityId])%list).

Definition removeFromFavorites (opportunityId : string) : AppState -> AppState :=
  set_favorites (List.filter (fun id => negb (String.eqb id opportunityId))).

Definition toggleFavorite (opportunityId : string) : AppState -> AppState :=
  set_favorites (fun favorites =>
    if existsb (String.eqb opportunityId) favorites
    then List.filter (fun id => negb (String.eqb id opportunityId)) favorites
    else (favorites ++ [opportunityId])%list).

End Store.

(** * Vocabulary of the properties *)

(** ** The rate limiter *)

(** The verdicts that the requests of one client received, in order. *)
Definition verdicts (c : string) (reqs : list NextRequest) (rs : list bool) : list bool :=
  List.map snd (List.filter (fun p => String.eqb (clientIp (fst p)) c) (combine reqs rs)).

(** How many of the requests come from the client. *)
Definition requests_of (c : string) (reqs : list NextRequest) : nat :=
  length (List.filter (fun r => String.eqb (clientIp r) c) reqs).

(** The position of the client's first request. *)
Fixpoint first_index (c : string) (reqs : list NextRequest) : option nat :=
  match reqs with
  | [] => None
  | r :: rest => if String.eqb (clientIp r) c then Some 0%nat else S <$> first_index c rest
  end.

(** The client opens a window with its first request: it has no entry, or
    its entry is older than the window when that request arrives. *)
Definition opens_window `{E : Env} (c : string) (reqs : list NextRequest) (s : State) : Prop :=
  match samRateLimitMap s !! c with
  | None => True
  | Some e =>
      forall i0, first_index c reqs = Some i0 ->
                 (60000 < clock (ticks s + i0) - timestamp e)%Z
  end.

(** All requests of the client arrive within the window that its first
    request opens. *)
Definition within_window `{E : Env} (c : string) (reqs : list NextRequest) (s : State) : Prop :=
  forall i0 i r,
    first_index c reqs = Some i0 -> reqs !! i = Some r -> clientIp r = c ->
    (clock (ticks s + i) - clock (ticks s + i0) <= 60000)%Z.

(** ** The ranker *)

(** The order of numbers; [NaN] is not comparable. *)
Definition num_le (x y : number) : Prop :=
  match x, y with
  | NaN, _ | _, NaN => False
  | NegInf, _ | _, PosInf => True
  | Fin a, Fin b => (a <= b)%Q
  | _, _ => False
  end.

(** [a] may stand before [b] in a list that descends by
    [relevanceScore || 0]. *)
Definition desc (a b : Opp.t) : Prop := num_le (score_key b) (score_key a).

(** The two listings have the same score, as the comparator sees it. *)
Definition same_score (a b : Opp.t) : bool :=
  match by_relevance a b with Eq => true | _ => false end.

(** The same listing, whatever the scores. *)
Definition same_listing (a b : Opp.t) : Prop :=
  Opp.with_relevanceScore a (ofZ 0) = Opp.with_relevanceScore b (ofZ 0).

(** The embeddings that reranking asks for, in order: the query's, then
    that of each candidate. *)
Definition embeddings_needed `{E : Env}
    (opportunities : list Opp.t) (query provider apiKey : string) : M (list (list number)) :=
  mapM (fun text => generateEmbeddings text provider apiKey)
       (query :: List.map embedded_text opportunities).

(** The semantic search that a request asks for, if any: query, provider
    and the key of the embedding provider. *)
Definition semantic_call (req : NextRequest) : option (string * string * string) :=
  let sp := searchParams req in
  if is_true (params_get sp "semantic") && opt_truthy (params_get sp "q") then
    match or_undefined
            (option_map (replace_first "Bearer ") (headers_get req "authorization")) with
    | Some llmApiKey =>
        Some (or_else (params_get sp "q") "", or_else (params_get sp "provider") "openai",
              llmApiKey)
    | None => None
    end
  else None.

(** ** The handler *)

Definition has_field (name : string) (response : NextResponse) : bool :=
  existsb (String.eqb name) (List.map fst (body response)).

(** The filters of a request whose handling starts in state [s]: the
    limiter reads the clock first, [new Date()] second. *)
Definition filters_of `{E : Env} (req : NextRequest) (s : State) : Filters.t :=
  build_filters (searchParams req) (Date_ofMillis (clock (S (ticks s)))).

(** The results cache holds an entry for the filters that is live at [now]. *)
Definition results_hit `{E : Env} (s : State) (filters : Filters.t) (now : Z) : bool :=
  match searchResultsCache s !! JSON_stringify filters with
  | Some cachedResult => (now - cachedAt cachedResult <? CACHE_DURATION)%Z
  | None => false
  end.

(** The store behind [withCache] holds a page for the filters that is live
    at [now]. *)
Definition page_hit `{E : Env} (s : State) (filters : Filters.t) (now : Z) : bool :=
  match pageStore s !! generateCacheKey (JSON_stringify filters) "sam-search" with
  | Some entry => (now - storedAt entry <? 1800 * 1000)%Z
  | None => false
  end.

(** The clock read at which [withCache] looks into its store, for a request
    whose handling starts in [s] and misses the results cache: after the
    limiter's read, [new Date()] and, when the results cache holds a stale
    entry, the read that found it stale. *)
Definition page_tick `{E : Env} (s : State) (filters : Filters.t) : nat :=
  match searchResultsCache s !! JSON_stringify filters with
  | Some _ => 3 + ticks s
  | None => 2 + ticks s
  end.

(** The request reaches the registry: it is admitted, carries an API key
    and misses both caches. *)
Definition reaches_upstream `{E : Env}
    (req : NextRequest) (samApiKey : string) (s : State) : Prop :=
  fst (checkSAMRateLimit req s) = inr true
  /\ or_undefined (params_get (searchParams req) "samApiKey") = Some samApiKey
  /\ results_hit s (filters_of req s) (clock (2 + ticks s)) = false
  /\ page_hit s (filters_of req s) (clock (page_tick s (filters_of req s))) = false.

(** The message of the error thrown on a registry answer that is not ok. *)
Definition upstream_error `{E : Env} (response : SamResponse) : string :=
  ("SAM.gov API error: " +:+ pretty (sam_status response) +:+ " "
     +:+ sam_statusText response)
    +:+ " - "
    +:+ match JSON_errorMessage (sam_text response) with
        | Some m => m
        | None => sam_text response
        end.

(** Only the embedding cache and the count of embedding calls differ. *)
Definition only_embeddings (s s' : State) : Prop :=
  samRateLimitMap s' = samRateLimitMap s
  /\ searchResultsCache s' = searchResultsCache s
  /\ pageStore s' = pageStore s
  /\ indexed s' = indexed s
  /\ ticks s' = ticks s
  /\ samCalls s' = samCalls s.




(** ** The query builder *)

(** The parameter goes upstream. *)
Definition sent (k : string) (ps : list (string * string)) : bool :=
  existsb (fun p => String.eqb k (fst p)) ps.

Definition is_some {A} (o : option A) : bool :=
  match o with Some _ => true | None => false end.

Definition opt_num_truthy (o : option number) : bool :=
  match o with Some x => num_truthy x | None => false end.

(** The upstream parameters and, for each, when the builder appends it. *)
Definition slots (f : Filters.t) : list (string * bool) :=
  [("q", opt_truthy (Filters.keyword f));
   ("postedFrom", opt_truthy (Filters.startDate f));
   ("postedTo", opt_truthy (Filters.endDate f));
   ("naicsCode", opt_truthy (Filters.naicsCode f));
   ("state", opt_truthy (Filters.state f));
   ("agency", opt_truthy (Filters.agency f));
   ("noticeType", opt_truthy (Filters.type f));
   ("setAside", opt_truthy (Filters.setAside f));
   ("active", is_some (Filters.active f));
   ("entityName", opt_truthy (Filters.entityName f));
   ("contractVehicle", opt_truthy (Filters.contractVehicle f));
   ("classificationCode", opt_truthy (Filters.classificationCode f));
   ("fundingSource", opt_truthy (Filters.fundingSource f));
   ("responseDeadlineFrom", opt_truthy (Filters.responseDeadline f ≫= Filters.from));
   ("responseDeadlineTo", opt_truthy (Filters.responseDeadline f ≫= Filters.to));
   ("estimatedValueMin", opt_num_truthy (Filters.estimatedValue f ≫= Filters.min));
   ("estimatedValueMax", opt_num_truthy (Filters.estimatedValue f ≫= Filters.max));
   ("hasAttachments", match Filters.hasAttachments f with Some b => b | None => false end);
   ("limit", true); ("offset", true); ("includeCount", true); ("format", true)].

(** The parameters of a request that pass to the registry under the same
    meaning, with their upstream names, the dates and the pagination (which
    have defaults) and [active] apart. *)
Definition plain_fields : list (string * string) :=
  [("q", "q"); ("naicsCode", "naicsCode"); ("state", "state"); ("agency", "agency");
   ("type", "noticeType"); ("setAside", "setAside"); ("entityName", "entityName");
   ("contractVehicle", "contractVehicle"); ("classificationCode", "classificationCode");
   ("fundingSource", "fundingSource"); ("responseDeadlineFrom", "responseDeadlineFrom");
   ("responseDeadlineTo", "responseDeadlineTo"); ("estimatedValueMin", "estimatedValueMin");
   ("estimatedValueMax", "estimatedValueMax"); ("hasAttachments", "hasAttachments")].

(** ** Worlds, requests and states of the examples *)

Definition burst_env : Env :=
  demo_env (fun n => 1700000000000 + 500 * Z.of_nat n)%Z
           (fun _ _ _ => inr (sam_page None [])) (fun _ _ _ _ => inr embed_down).

Definition burst : list NextRequest :=
  repeat (demo_request []) 60
  ++ [mkRequest [("x-real-ip", "192.168.1.1")] []]
  ++ repeat (demo_request []) 45.

Definition memo_env : Env :=
  demo_env demo_clock (fun _ _ _ => inr sam_down)
           (fun _ _ _ _ => inr (embed_ok [Fin (3 # 5); Fin (4 # 5)])).


Definition two_listings : list Raw.t :=
  [raw_listing "n1" "Road works"; raw_listing "n2" "Bridge repair"].

(** A world whose embedding endpoints are down. *)
Definition fallback_env : Env :=
  demo_env demo_clock (fun _ _ _ => inr (sam_page (Some 2%Z) two_listings))
           (fun _ _ _ _ => inr embed_down).

Definition semantic_request : NextRequest :=
  mkRequest [("x-forwarded-for", "10.0.0.7"); ("authorization", "Bearer sk-1")]
            [("samApiKey", "SAM-KEY"); ("q", "road"); ("semantic", "true")].

Definition semantic_filters : Filters.t :=
  build_filters (E:=fallback_env) (searchParams semantic_request) (mkDate 2024 0 31).

(** A client that has used up its window. *)
Definition exhausted : State :=
  set_samRateLimitMap <["10.0.0.7" := mkRate 100 (demo_clock 0)]> init.

(** A world whose registry is down. *)
Definition down_env : Env :=
  demo_env demo_clock (fun _ _ _ => inr sam_down) (fun _ _ _ _ => inr embed_down).

(** A world whose embedding endpoint answers with unit vectors. *)
Definition ranking_embed (n : nat) (url key text : string) : exn + EmbedResponse :=
  inr (embed_ok (if String.eqb text "Road works  " then [Fin (3 # 5); Fin (4 # 5)]
                 else if String.eqb text "Road signs  " then [Fin (3 # 5); Fin (- 4 # 5)]
                 else [Fin 1; Fin 0])).

Definition three_listings : list Raw.t :=
  [raw_listing "n1" "Road works"; raw_listing "n2" "Bridge repair";
   raw_listing "n3" "Road signs"].

Definition ranking_env : Env :=
  demo_env demo_clock (fun _ _ _ => inr (sam_page (Some 3%Z) three_listings)) ranking_embed.

Definition three_scored : list Opp.t :=
  List.map (fun p => Opp.with_relevanceScore (transform (fst p)) (snd p))
           [(raw_listing "n1" "Road works", Fin (3 # 5));
            (raw_listing "n2" "Bridge repair", Fin 1);
            (raw_listing "n3" "Road signs", Fin (3 # 5))].

(** A registry page of 26 listings that reports 1000 records, and an
    embedding endpoint that answers every text with the same vector. *)
Definition many_listings : list Raw.t :=
  List.map (fun i => raw_listing (pretty i) "Road works") (seq 0 26).

Definition excess_env : Env :=
  demo_env demo_clock (fun _ _ _ => inr (sam_page (Some 1000%Z) many_listings))
           (fun _ _ _ _ => inr (embed_ok [Fin 1; Fin 0])).

(** ** The query builder, slot by slot *)

(** The names of the upstream parameters, in the order of the builder. *)
Definition upstream_names : list string :=
  ["q"; "postedFrom"; "postedTo"; "naicsCode"; "state"; "agency"; "noticeType"; "setAside";
   "active"; "entityName"; "contractVehicle"; "classificationCode"; "fundingSource";
   "responseDeadlineFrom"; "responseDeadlineTo"; "estimatedValueMin"; "estimatedValueMax";
   "hasAttachments"; "limit"; "offset"; "includeCount"; "format"].

(** The rendering of a number that the builder appends, if it appends one. *)
Definition num_slot `{E : Env} (o : option number) : option string :=
  match o with
  | Some x => if num_truthy x then Some (Number_toString x) else None
  | None => None
  end.

(** The value that the builder appends under each name, if any. *)
Definition upstream_slots `{E : Env} (f : Filters.t) : list (string * option string) :=
  [("q", or_undefined (Filters.keyword f));
   ("postedFrom", or_undefined (Filters.startDate f));
   ("postedTo", or_undefined (Filters.endDate f));
   ("naicsCode", or_undefined (Filters.naicsCode f));
   ("state", or_undefined (Filters.state f));
   ("agency", or_undefined (Filters.agency f));
   ("noticeType", or_undefined (Filters.type f));
   ("setAside", or_undefined (Filters.setAside f));
   ("active", option_map bool_toString (Filters.active f));
   ("entityName", or_undefined (Filters.entityName f));
   ("contractVehicle", or_undefined (Filters.contractVehicle f));
   ("classificationCode", or_undefined (Filters.classificationCode f));
   ("fundingSource", or_undefined (Filters.fundingSource f));
   ("responseDeadlineFrom", or_undefined (Filters.responseDeadline f ≫= Filters.from));
   ("responseDeadlineTo", or_undefined (Filters.responseDeadline f ≫= Filters.to));
   ("estimatedValueMin", num_slot (Filters.estimatedValue f ≫= Filters.min));
   ("estimatedValueMax", num_slot (Filters.estimatedValue f ≫= Filters.max));
   ("hasAttachments",
    if match Filters.hasAttachments f with Some b => b | None => false end
    then Some "true" else None);
   ("limit",
    Some (Number_toString (Math_min (opt_num_or (Filters.limit f) (ofZ 50)) (ofZ 100))));
   ("offset", Some (Number_toString (opt_num_or (Filters.offset f) (ofZ 0))));
   ("includeCount", Some "true");
   ("format", Some "json")].

Definition present (slot : string * option string) : list (string * string) :=
  match snd slot with
  | Some v => [(fst slot, v)]
  | None => []
  end.

(** The date of a request that [normalizeDate] cannot use: absent, empty,
    or in neither of the two formats and not a date for [new Date]. *)
Definition unusable_date `{E : Env} (o : option string) : Prop :=
  match or_undefined o with
  | None => True
  | Some d => is_sam_date d = false /\ is_iso_date d = false /\ Date_parse d = None
  end.

(** The character occurs in the string. *)
Fixpoint contains (c : ascii) (s : string) : bool :=
  match s with
  | String a s' => Ascii.eqb a c || contains c s'
  | EmptyString => false
  end.

(** ** The handler, path by path *)

(** The [catch] of [GET], applied to the outcome of its [try]. *)
Definition settle `{E : Env} (r : (exn + NextResponse) * State) : (exn + NextResponse) * State :=
  match r with
  | (inr response, s1) => (inr response, s1)
  | (inl error, s1) => (inr (failure error (clock (ticks s1))), set_ticks S s1)
  end.

(** A response of a fresh search: status 200 and no [cached] flag. *)
Definition fresh_success (response : NextResponse) : Prop :=
  status response = 200%Z /\ has_field "cached" response = false.

(** A registry with three listings, asked twice for the same thing. *)
Definition replay_request : NextRequest := demo_request [("q", "road")].

Definition replay_again : NextRequest :=
  mkRequest [("x-real-ip", "10.0.0.9"); ("authorization", "Bearer sk-2")]
            [("q", "road"); ("samApiKey", "OTHER-KEY"); ("semantic", "false")].

Definition replay_first : (exn + NextResponse) * State :=
  Eval vm_compute in GET (E:=ranking_env) replay_request init.

(** ** Semantic search *)


(** ** The cleanup *)





(** ** The chat route *)

(** The verdicts of the chat limiter on requests that arrive one after the
    other. *)
Fixpoint check_each `{W : Chat.World} (reqs : list NextRequest) : Chat.M (list bool) :=
  match reqs with
  | [] => Chat.ret []
  | req :: rest =>
      Chat.bind (Chat.checkRateLimit req) (fun verdict =>
      Chat.bind (check_each rest) (fun others => Chat.ret (verdict :: others)))
  end.

(** The body with another [model]. *)
Definition with_model (b : Chat.Body.t) (model : string) : Chat.Body.t :=
  Chat.Body.mk (Chat.ModelText model) (Chat.Body.messages b) (Chat.Body.context b)
               (Chat.Body.companyProfile b).

(** A world for the chat route: the clock of the examples, providers that
    answer every call, a server that holds an OpenAI key only, and a
    [chatWithRAG] that asks the LLM function once. *)
Definition chat_answer : Chat.LlmResponse :=
  Chat.mkLlmResponse true "OK"
    (inr (Chat.mkLlmBody (inr None) (inr (Some "hello")) None (inr (ofZ 1, ofZ 2))
                         (Some "served-model"))).

Definition chat_world : Chat.World :=
  {| Chat.clock := demo_clock;
     Chat.llm_fetch := fun _ _ => inr chat_answer;
     Chat.OPENAI_API_KEY := Some "sk-openai";
     Chat.ANTHROPIC_API_KEY := None;
     Chat.HUGGINGFACE_API_KEY := None;
     Chat.SYSTEM_PROMPT := "You are OpenSAM AI.";
     Chat.chatWithRAG := fun lastMessage profile llm =>
       Chat.bind (llm ("Profile: " +:+ profile) lastMessage)
                 (fun answer => Chat.ret (Chat.mkRag answer None)) |}.

Definition chat_init : Chat.State := Chat.mkState ∅ 0 [].

Definition chat_request (key : string) : NextRequest :=
  mkRequest [("x-forwarded-for", "10.0.0.7"); ("authorization", "Bearer " +:+ key)] [].

Definition chat_body (model : string) (test : bool) : Chat.Body.t :=
  Chat.Body.mk (Chat.ModelText model) (Some [Chat.Msg.mk "user" "test"])
               (Some (Chat.Context.mk None test None None)) None.

(** The URL and the headers of a call to a supported provider. *)
Definition provider_url (provider modelName : string) : string :=
  if String.eqb provider "openai" then
    Chat.LLM_CONFIGS.openai_baseUrl +:+ Chat.LLM_CONFIGS.openai_chatEndpoint
  else if String.eqb provider "anthropic" then
    Chat.LLM_CONFIGS.anthropic_baseUrl +:+ Chat.LLM_CONFIGS.anthropic_chatEndpoint
  else Chat.LLM_CONFIGS.huggingface_baseUrl +:+ "/" +:+ modelName.

Definition provider_headers (provider apiKey : string) : list (string * string) :=
  if String.eqb provider "openai" then Chat.LLM_CONFIGS.openai_headers apiKey
  else if String.eqb provider "anthropic" then Chat.LLM_CONFIGS.anthropic_headers apiKey
  else Chat.LLM_CONFIGS.huggingface_headers apiKey.

(** The temperature and the token ceiling that go to a provider. *)
Definition sent_temperature (context : option Chat.Context.t) : number :=
  Chat.or_default (context ≫= Chat.Context.temperature) Chat.default_temperature.

Definition sent_maxTokens (context : option Chat.Context.t) : number :=
  Chat.or_default (context ≫= Chat.Context.maxTokens) Chat.default_maxTokens.

(** The state after one more call to a provider. *)
Definition called (call : Chat.LlmCall) (s : Chat.State) : Chat.State :=
  Chat.mkState (Chat.rateLimitMap s) (Chat.ticks s) (call :: Chat.calls s).

(** ** The store *)

(** The current session, if any, has a copy in the list with the same
    identifier and the same messages. *)
Definition synced (state : Store.AppState) : Prop :=
  match Store.currentSession state with
  | Some current =>
      exists listed,
        In listed (Store.chatSessions state)
        /\ Store.id listed = Store.id current
        /\ Store.messages listed = Store.messages current
  | None => True
  end.

(** How many sessions of the list have the identifier. *)
Definition matching (sessionId : string) (sessions : list Store.ChatSession) : nat :=
  length (List.filter (fun s => String.eqb (Store.id s) sessionId) sessions).

(** The messages of a session after a message for [sessionId] was added. *)
Definition messages_after (sessionId : string) (message : Store.ChatMessage)
    (session : Store.ChatSession) : list Store.ChatMessage :=
  if String.eqb (Store.id session) sessionId
  then (Store.messages session ++ [message])%list
  else Store.messages session.

Definition store_world : Store.World :=
  {| Store.clock := demo_clock; Store.generateUUID := fun n => "uuid-" +:+ pretty n |}.

Definition store_init : Store.AppState :=
  Store.mkApp (Store.mkConfig "openai" "gpt-4o-mini" "" (Fin (7 # 10)) (ofZ 2000))
              None [] [] 0 0.

(** * Properties *)

(** ** The monad *)

Lemma bind_inr {A B} (m : M A) (k : A -> M B) s a s' :
  m s = (inr a, s') -> bind m k s = k a s'.
Proof. intros Hm. unfold bind. now rewrite Hm. Qed.

Lemma bind_inl {A B} (m : M A) (k : A -> M B) s e s' :
  m s = (inl e, s') -> bind m k s = (inl e, s').
Proof. intros Hm. unfold bind. now rewrite Hm. Qed.

Lemma mapM_cons {A B} (f : A -> M B) x r s :
  mapM f (x :: r) s =
    match f x s with
    | (inr y, s1) =>
        match mapM f r s1 with
        | (inr ys, s2) => (inr (y :: ys), s2)
        | (inl e, s2) => (inl e, s2)
        end
    | (inl e, s1) => (inl e, s1)
    end.
Proof.
  simpl. unfold bind. destruct (f x s) as [[e|y] s1]; [reflexivity|].
  destruct (mapM f r s1) as [[e|ys] s2]; reflexivity.
Qed.

(** ** The rate limiter *)

(** One check, written out: the clock is read once, and only the entry of
    the calling client changes. *)
Lemma checkSAMRateLimit_run `{E : Env} (req : NextRequest) (s : State) :
  checkSAMRateLimit req s =
    let c := clientIp req in
    let now := clock (ticks s) in
    let s1 := set_ticks S s in
    match samRateLimitMap s !! c with
    | None => (inr true, set_samRateLimitMap <[c := mkRate 1 now]> s1)
    | Some e =>
        if (SAM_RATE_LIMIT_WINDOW <? now - timestamp e)%Z
        then (inr true, set_samRateLimitMap <[c := mkRate 1 now]> s1)
        else if (SAM_RATE_LIMIT_MAX_REQUESTS <=? count e)%Z
             then (inr false, s1)
             else (inr true,
                   set_samRateLimitMap <[c := mkRate (count e + 1) (timestamp e)]> s1)
    end.
Proof.
  unfold checkSAMRateLimit, bind, Date_now, get. cbn.
  destruct (samRateLimitMap s !! clientIp req) as [e|]; [|reflexivity].
  destruct (SAM_RATE_LIMIT_WINDOW <? clock (ticks s) - timestamp e)%Z; [reflexivity|].
  destruct (SAM_RATE_LIMIT_MAX_REQUESTS <=? count e)%Z; reflexivity.
Qed.

(** A check never throws, reads the clock once and leaves the rest of the
    state alone. *)
Lemma checkSAMRateLimit_frame `{E : Env} (req : NextRequest) (s : State) :
  exists b m,
    checkSAMRateLimit req s =
      (inr b, mkState m (embeddingCache s) (searchResultsCache s) (pageStore s)
                      (indexed s) (S (ticks s)) (samCalls s) (embedCalls s))
    /\ forall c', c' <> clientIp req -> m !! c' = samRateLimitMap s !! c'.
Proof.
  rewrite checkSAMRateLimit_run. cbn zeta.
  destruct (samRateLimitMap s !! clientIp req) as [e|] eqn:He.
  - destruct (SAM_RATE_LIMIT_WINDOW <? clock (ticks s) - timestamp e)%Z;
      [|destruct (SAM_RATE_LIMIT_MAX_REQUESTS <=? count e)%Z];
      eexists; eexists; (split; [reflexivity|]); cbn;
      intros c' Hc'; try reflexivity; now rewrite lookup_insert_ne.
  - eexists; eexists; (split; [reflexivity|]); cbn.
    intros c' Hc'. now rewrite lookup_insert_ne.
Qed.

Lemma run_in_window `{E : Env} (c : string) (reqs : list NextRequest) :
  forall (s : State) (k t0 : Z),
    samRateLimitMap s !! c = Some (mkRate k t0) ->
    (0 <= k <= 100)%Z ->
    (forall i r, reqs !! i = Some r -> clientIp r = c ->
                 (clock (ticks s + i) - t0 <= SAM_RATE_LIMIT_WINDOW)%Z) ->
    exists rs s',
      mapM checkSAMRateLimit reqs s = (inr rs, s')
      /\ length rs = length reqs
      /\ verdicts c reqs rs =
           (repeat true (Nat.min (requests_of c reqs) (Z.to_nat (100 - k)))
            ++ repeat false (requests_of c reqs - Z.to_nat (100 - k)))%list.
Proof.
  induction reqs as [|r reqs IH]; intros s k t0 Hs Hk Hw.
  - exists [], s. repeat split.
  - rewrite mapM_cons, checkSAMRateLimit_run. cbn zeta.
    unfold verdicts, requests_of. cbn [combine List.filter List.map length fst snd].
    destruct (String.eqb_spec (clientIp r) c) as [Hc|Hc].
    + (* a request of the client, inside the window *)
      rewrite Hc, Hs. cbn [timestamp count].
      pose proof (Hw 0%nat r eq_refl Hc) as Hw0. rewrite Nat.add_0_r in Hw0.
      destruct (Z.ltb_spec SAM_RATE_LIMIT_WINDOW (clock (ticks s) - t0)) as [Hlt|_]; [lia|].
      unfold SAM_RATE_LIMIT_MAX_REQUESTS.
      destruct (Z.leb_spec 100 k) as [Hfull|Hroom].
      * (* the ceiling is reached *)
        destruct (IH (set_ticks S s) k t0) as (rs & s' & Hrun & Hlen & Hv); [exact Hs|lia| |].
        { intros i r' Hi Hr'. cbn. rewrite <- Nat.add_succ_r. now apply (Hw (S i) r'). }
        rewrite Hrun. exists (false :: rs), s'. split; [reflexivity|]. split; [cbn; lia|].
        cbn [combine List.filter fst snd]. rewrite Hc, String.eqb_refl. cbn [List.map snd length].
        unfold verdicts in Hv. rewrite Hv. unfold requests_of.
        replace (Z.to_nat (100 - k)) with 0%nat by lia.
        rewrite !Nat.min_0_r, !Nat.sub_0_r. reflexivity.
      * (* the request is admitted and counted *)
        destruct (IH (set_samRateLimitMap <[c := mkRate (k + 1) t0]> (set_ticks S s)) (k + 1)%Z t0)
          as (rs & s' & Hrun & Hlen & Hv); [cbn; apply lookup_insert_eq|lia| |].
        { intros i r' Hi Hr'. cbn. rewrite <- Nat.add_succ_r. now apply (Hw (S i) r'). }
        rewrite Hrun. exists (true :: rs), s'. split; [reflexivity|]. split; [cbn; lia|].
        cbn [combine List.filter fst snd]. rewrite Hc, String.eqb_refl. cbn [List.map snd length].
        unfold verdicts in Hv. rewrite Hv. unfold requests_of.
        replace (Z.to_nat (100 - k)) with (S (Z.to_nat (100 - (k + 1)))) by lia.
        cbn [Nat.min Nat.sub repeat app]. reflexivity.
    + (* a request of another client *)
      destruct (checkSAMRateLimit_frame r s) as (b & m & Hrun1 & Hm).
      rewrite checkSAMRateLimit_run in Hrun1. cbn zeta in Hrun1. rewrite Hrun1.
      destruct (IH (mkState m (embeddingCache s) (searchResultsCache s) (pageStore s)
                            (indexed s) (S (ticks s)) (samCalls s) (embedCalls s)) k t0)
        as (rs & s' & Hrun & Hlen & Hv); [cbn; rewrite Hm; [exact Hs|congruence]|lia| |].
      { intros i r' Hi Hr'. cbn. rewrite <- Nat.add_succ_r. now apply (Hw (S i) r'). }
      rewrite Hrun. exists (b :: rs), s'. split; [reflexivity|]. split; [cbn; lia|].
      cbn [combine List.filter fst snd].
      destruct (String.eqb_spec (clientIp r) c); [contradiction|]. exact Hv.
Qed.

Lemma run_one_window `{E : Env} (c : string) (reqs : list NextRequest) :
  forall s : State,
    opens_window c reqs s ->
    within_window c reqs s ->
    exists rs s',
      mapM checkSAMRateLimit reqs s = (inr rs, s')
      /\ length rs = length reqs
      /\ verdicts c reqs rs =
           (repeat true (Nat.min (requests_of c reqs) 100)
            ++ repeat false (requests_of c reqs - 100))%list.
Proof.
  induction reqs as [|r reqs IH]; intros s Hopen Hin.
  - exists [], s. repeat split.
  - rewrite mapM_cons.
    unfold verdicts, requests_of. cbn [combine List.filter List.map length fst snd].
    unfold opens_window, within_window in Hopen, Hin. cbn [first_index] in Hopen, Hin.
    destruct (String.eqb_spec (clientIp r) c) as [Hc|Hc].
    + (* the first request of the client: the window opens with count 1 *)
      assert (checkSAMRateLimit r s =
                (inr true,
                 set_samRateLimitMap <[c := mkRate 1 (clock (ticks s))]> (set_ticks S s)))
        as Hrun1.
      { rewrite checkSAMRateLimit_run. cbn zeta. rewrite Hc.
        destruct (samRateLimitMap s !! c) as [e|]; [|reflexivity].
        specialize (Hopen 0%nat eq_refl). rewrite Nat.add_0_r in Hopen.
        unfold SAM_RATE_LIMIT_WINDOW.
        destruct (Z.ltb_spec 60000 (clock (ticks s) - timestamp e)); [reflexivity|lia]. }
      rewrite Hrun1.
      destruct (run_in_window c reqs
                  (set_samRateLimitMap <[c := mkRate 1 (clock (ticks s))]> (set_ticks S s))
                  1%Z (clock (ticks s)))
        as (rs & s' & Hrun & Hlen & Hv); [cbn; apply lookup_insert_eq|lia| |].
      { intros i r' Hi Hr'. cbn. rewrite <- Nat.add_succ_r.
        specialize (Hin 0%nat (S i) r' eq_refl Hi Hr'). rewrite Nat.add_0_r in Hin.
        exact Hin. }
      rewrite Hrun. exists (true :: rs), s'. split; [reflexivity|]. split; [cbn; lia|].
      cbn [combine List.filter fst snd]. rewrite Hc, String.eqb_refl. cbn [List.map snd length].
      unfold verdicts in Hv. rewrite Hv. unfold requests_of.
      change (Z.to_nat (100 - 1)) with 99%nat. reflexivity.
    + (* a request of another client: nothing changes for this one *)
      destruct (checkSAMRateLimit_frame r s) as (b & m & Hrun1 & Hm). rewrite Hrun1.
      destruct (IH (mkState m (embeddingCache s) (searchResultsCache s) (pageStore s)
                            (indexed s) (S (ticks s)) (samCalls s) (embedCalls s)))
        as (rs & s' & Hrun & Hlen & Hv).
      { unfold opens_window. cbn. rewrite Hm by congruence.
        destruct (samRateLimitMap s !! c) as [e|]; [|exact I].
        intros i0 Hi0. rewrite <- Nat.add_succ_r. apply Hopen. now rewrite Hi0. }
      { unfold within_window. cbn. intros i0 i r' Hi0 Hi Hr'.
        rewrite <- !Nat.add_succ_r.
        apply (Hin (S i0) (S i) r'); [now rewrite Hi0|exact Hi|exact Hr']. }
      rewrite Hrun. exists (b :: rs), s'. split; [reflexivity|]. split; [cbn; lia|].
      cbn [combine List.filter fst snd].
      destruct (String.eqb_spec (clientIp r) c); [contradiction|]. exact Hv.
Qed.

(** C1. Rate limiter. One check: the first call of a client is admitted
    with count 1; a call that arrives no more than 60 s after [windowStart]
    is admitted exactly when the stored count is below 100, and then
    increments it; a call that arrives later resets the window to count 1
    and is admitted; the entries of other clients are untouched. One
    window: of the calls a client makes within 60 s of the call that opens
    its window, whatever other clients do in between, exactly the first 100
    are admitted and every later one is rejected. *)
Theorem rate_limit_window `{E : Env} :
  (forall (req : NextRequest) (s : State),
     let c := clientIp req in
     let now := clock (ticks s) in
     let out := checkSAMRateLimit req s in
     let m' := samRateLimitMap (snd out) in
     (forall c', c' <> c -> m' !! c' = samRateLimitMap s !! c')
     /\ match samRateLimitMap s !! c with
        | None => fst out = inr true /\ m' !! c = Some (mkRate 1 now)
        | Some e =>
            if (now - timestamp e <=? 60000)%Z then
              if (count e <? 100)%Z
              then fst out = inr true
                   /\ m' !! c = Some (mkRate (count e + 1) (timestamp e))
              else fst out = inr false /\ m' = samRateLimitMap s
            else fst out = inr true /\ m' !! c = Some (mkRate 1 now)
        end)
  /\ (forall (c : string) (reqs : list NextRequest) (s : State),
        opens_window c reqs s ->
        within_window c reqs s ->
        exists rs s',
          mapM checkSAMRateLimit reqs s = (inr rs, s')
          /\ length rs = length reqs
          /\ verdicts c reqs rs =
               (repeat true (Nat.min (requests_of c reqs) 100)
                ++ repeat false (requests_of c reqs - 100))%list).
Proof.
  split; [|intros c reqs s; apply run_one_window].
  intros req s c now out m'. split.
  - destruct (checkSAMRateLimit_frame req s) as (b & m & Hrun & Hm).
    subst m' out. rewrite Hrun. exact Hm.
  - subst m' out. rewrite checkSAMRateLimit_run. cbn zeta. fold c now.
    destruct (samRateLimitMap s !! c) as [e|].
    + unfold SAM_RATE_LIMIT_WINDOW, SAM_RATE_LIMIT_MAX_REQUESTS.
      destruct (Z.ltb_spec 60000 (now - timestamp e)), (Z.leb_spec (now - timestamp e) 60000);
        try lia.
      * cbn. split; [reflexivity|apply lookup_insert_eq].
      * destruct (Z.leb_spec 100 (count e)), (Z.ltb_spec (count e) 100); try lia; cbn.
        -- split; reflexivity.
        -- split; [reflexivity|apply lookup_insert_eq].
    + cbn. split; [reflexivity|apply lookup_insert_eq].
Qed.

Lemma rate_limit_window_witness :
  opens_window (E:=burst_env) "10.0.0.7" burst init
  /\ within_window (E:=burst_env) "10.0.0.7" burst init
  /\ verdicts "10.0.0.7" burst
       (match fst (mapM (checkSAMRateLimit (E:=burst_env)) burst init) with
        | inr rs => rs
        | inl _ => []
        end)
     = (repeat true 100 ++ repeat false 5)%list.
Proof.
  assert (opens_window (E:=burst_env) "10.0.0.7" burst init) as Hopen by exact I.
  assert (within_window (E:=burst_env) "10.0.0.7" burst init) as Hin.
  { unfold within_window. intros i0 i r Hi0 Hi _.
    injection Hi0 as <-. apply lookup_lt_Some in Hi.
    change (length burst) with 106%nat in Hi. cbn. lia. }
  split; [exact Hopen|]. split; [exact Hin|].
  destruct (proj2 (rate_limit_window (E:=burst_env)) "10.0.0.7" burst init Hopen Hin)
    as (rs & s' & Hrun & _ & Hv).
  rewrite Hrun. cbn. exact Hv.
Defined.

(** ** The embedding generator *)

Lemma generateOpenAIEmbeddings_state `{E : Env} (text apiKey : string) (s : State) :
  snd (generateOpenAIEmbeddings text apiKey s) = set_embedCalls S s.
Proof.
  unfold generateOpenAIEmbeddings, bind, fetch_embed, lift, throw.
  destruct (embed_fetch (embedCalls s) OPENAI_EMBEDDINGS_URL apiKey text) as [e|response];
    [reflexivity|].
  destruct (emb_ok response); cbn.
  - destruct (emb_json response) as [e|d]; reflexivity.
  - destruct (emb_json response) as [e|d]; [reflexivity|].
    destruct (error_detail d); reflexivity.
Qed.

Lemma generateHuggingFaceEmbeddings_state `{E : Env} (text apiKey : string) (s : State) :
  snd (generateHuggingFaceEmbeddings text apiKey s) = set_embedCalls S s.
Proof.
  unfold generateHuggingFaceEmbeddings, bind, fetch_embed, lift, throw.
  destruct (embed_fetch (embedCalls s) HUGGINGFACE_EMBEDDINGS_URL apiKey text) as [e|response];
    [reflexivity|].
  destruct (emb_ok response); cbn.
  - destruct (emb_json response) as [e|d]; reflexivity.
  - destruct (emb_json response) as [e|d]; [reflexivity|].
    destruct (error_detail d); reflexivity.
Qed.

(** A call is answered from the cache, or it dispatches once: to the
    provider when the name is known, to nobody otherwise. *)
Lemma generateEmbeddings_run `{E : Env} (text provider apiKey : string) (s : State) :
  let cacheKey := provider +:+ ":" +:+ text in
  match embeddingCache s !! cacheKey with
  | Some v => generateEmbeddings text provider apiKey s = (inr v, s)
  | None =>
      (exists v, generateEmbeddings text provider apiKey s =
                   (inr v, set_embeddingCache <[cacheKey := v]> (set_embedCalls S s)))
      \/ (exists e, generateEmbeddings text provider apiKey s = (inl e, set_embedCalls S s))
      \/ (exists e, generateEmbeddings text provider apiKey s = (inl e, s))
  end.
Proof.
  cbn zeta. unfold generateEmbeddings, bind, get.
  destruct (embeddingCache s !! (provider +:+ ":" +:+ text)) as [v|]; [reflexivity|].
  destruct (String.eqb provider "openai").
  - pose proof (generateOpenAIEmbeddings_state text apiKey s) as Hs.
    destruct (generateOpenAIEmbeddings text apiKey s) as [[e|v] s1]; cbn in Hs; subst s1.
    + right. left. now exists e.
    + left. now exists v.
  - destruct (String.eqb provider "huggingface").
    + pose proof (generateHuggingFaceEmbeddings_state text apiKey s) as Hs.
      destruct (generateHuggingFaceEmbeddings text apiKey s) as [[e|v] s1]; cbn in Hs; subst s1.
      * right. left. now exists e.
      * left. now exists v.
    + right. right. eexists. reflexivity.
Qed.



(** ** The ranker *)

Lemma score_key_not_NaN (o : Opp.t) : score_key o <> NaN.
Proof.
  unfold score_key, num_or. destruct (Opp.relevanceScore o); cbn; try discriminate.
  destruct (negb (Qeq_bool q 0)); discriminate.
Qed.

Lemma sub_sign_le (x y : number) :
  x <> NaN -> y <> NaN -> (sub_sign x y <> Gt <-> num_le x y).
Proof.
  intros Hx Hy.
  destruct x as [| |a|], y as [| |b|]; try contradiction; cbn [sub_sign num_le];
    try (split; [intros _; exact I|discriminate]);
    try (split; [intros Hn; exfalso; now apply Hn|intros []]).
  split; apply Qle_alt.
Qed.

Lemma sub_sign_antisym (x y : number) : sub_sign y x = CompOpp (sub_sign x y).
Proof.
  destruct x, y; cbn [sub_sign CompOpp]; try reflexivity. symmetry. apply Qcompare_antisym.
Qed.

Lemma num_le_trans (x y z : number) : num_le x y -> num_le y z -> num_le x z.
Proof.
  destruct x, y, z; cbn [num_le]; try tauto. apply Qle_trans.
Qed.

Lemma sub_sign_Eq_trans (x y z : number) :
  y <> NaN -> sub_sign y x = Eq -> sub_sign y z = Eq -> sub_sign z x = Eq.
Proof.
  intros Hy.
  destruct x, y, z; cbn [sub_sign]; try contradiction; try discriminate; try reflexivity.
  rewrite <- !Qeq_alt. intros H1 H2. now rewrite <- H2, H1.
Qed.

#[local] Instance desc_trans : Transitive desc.
Proof. intros a b c Hab Hbc. unfold desc in *. eapply num_le_trans; eassumption. Qed.

Lemma by_relevance_not_Gt (a b : Opp.t) : by_relevance a b <> Gt <-> desc a b.
Proof. unfold by_relevance, desc. apply sub_sign_le; apply score_key_not_NaN. Qed.

Lemma by_relevance_Gt (a b : Opp.t) : by_relevance a b = Gt -> desc b a.
Proof.
  intros Hgt. apply by_relevance_not_Gt. unfold by_relevance in *.
  rewrite sub_sign_antisym, Hgt. discriminate.
Qed.

Lemma sort_insert_HdRel (x a : Opp.t) (l : list Opp.t) :
  desc a x -> HdRel desc a l -> HdRel desc a (sort_insert by_relevance x l).
Proof.
  intros Hax Hl. destruct l as [|y r]; cbn; [now constructor|].
  inversion Hl; subst. destruct (by_relevance x y); now constructor.
Qed.

Lemma sort_insert_Sorted (x : Opp.t) (l : list Opp.t) :
  Sorted desc l -> Sorted desc (sort_insert by_relevance x l).
Proof.
  induction l as [|y r IH]; intros Hs; cbn; [repeat constructor|].
  inversion Hs; subst.
  destruct (by_relevance x y) eqn:Hc.
  - constructor; [exact Hs|]. constructor. apply by_relevance_not_Gt. rewrite Hc. discriminate.
  - constructor; [exact Hs|]. constructor. apply by_relevance_not_Gt. rewrite Hc. discriminate.
  - constructor; [now apply IH|]. apply sort_insert_HdRel; [now apply by_relevance_Gt|assumption].
Qed.

Lemma Array_sort_Sorted (l : list Opp.t) : StronglySorted desc (Array_sort by_relevance l).
Proof.
  apply Sorted_StronglySorted; [exact desc_trans|].
  induction l as [|x r IH]; cbn; [constructor|now apply sort_insert_Sorted].
Qed.

Lemma sort_insert_Permutation {A} (cmp : A -> A -> comparison) (x : A) (l : list A) :
  Permutation (sort_insert cmp x l) (x :: l).
Proof.
  induction l as [|y r IH]; cbn; [reflexivity|].
  destruct (cmp x y); try reflexivity.
  rewrite IH. apply perm_swap.
Qed.

Lemma Array_sort_Permutation {A} (cmp : A -> A -> comparison) (l : list A) :
  Permutation (Array_sort cmp l) l.
Proof.
  induction l as [|x r IH]; cbn; [reflexivity|].
  rewrite sort_insert_Permutation. now constructor.
Qed.

(** Insertion keeps an element in front of the listings it ties with. *)
Lemma sort_insert_filter (k x : Opp.t) (l : list Opp.t) :
  List.filter (same_score k) (sort_insert by_relevance x l)
  = List.filter (same_score k) (x :: l).
Proof.
  induction l as [|y r IH]; [reflexivity|].
  cbn [sort_insert]. destruct (by_relevance x y) eqn:Hc; try reflexivity.
  cbn [List.filter] in *. rewrite IH.
  destruct (same_score k x) eqn:Hx, (same_score k y) eqn:Hy; try reflexivity.
  exfalso. unfold same_score, by_relevance in *.
  destruct (sub_sign (score_key x) (score_key k)) eqn:H1; try discriminate.
  destruct (sub_sign (score_key y) (score_key k)) eqn:H2; try discriminate.
  rewrite sub_sign_antisym in H1, H2.
  destruct (sub_sign (score_key k) (score_key x)) eqn:H1'; try discriminate.
  destruct (sub_sign (score_key k) (score_key y)) eqn:H2'; try discriminate.
  rewrite (sub_sign_Eq_trans _ _ _ (score_key_not_NaN k) H1' H2') in Hc. discriminate.
Qed.

Lemma Array_sort_stable (k : Opp.t) (l : list Opp.t) :
  List.filter (same_score k) (Array_sort by_relevance l) = List.filter (same_score k) l.
Proof.
  induction l as [|x r IH]; [reflexivity|].
  cbn [Array_sort]. rewrite sort_insert_filter. cbn [List.filter]. now rewrite IH.
Qed.

Lemma StronglySorted_firstn {A} (R : A -> A -> Prop) (n : nat) (l : list A) :
  StronglySorted R l -> StronglySorted R (firstn n l).
Proof.
  intros Hs. revert n. induction Hs as [|a l Hs IH Ha]; intros [|n]; cbn; try constructor.
  - apply IH.
  - rewrite List.Forall_forall in *. intros x Hx. apply Ha.
    rewrite <- (firstn_skipn n l). apply in_or_app. now left.
Qed.

Lemma filter_firstn_prefix {A} (p : A -> bool) (n : nat) (l : list A) :
  List.filter p (firstn n l) `prefix_of` List.filter p l.
Proof.
  exists (List.filter p (skipn n l)).
  rewrite <- List.filter_app. now rewrite firstn_skipn.
Qed.

Lemma mapM_Forall2 {A B} (R : A -> B -> Prop) (f : A -> M B) :
  (forall x s y s', f x s = (inr y, s') -> R x y) ->
  forall l s ys s', mapM f l s = (inr ys, s') -> Forall2 R l ys.
Proof.
  intros Hf. induction l as [|x r IH]; intros s ys s' Hrun.
  - injection Hrun as <- <-. constructor.
  - rewrite mapM_cons in Hrun.
    destruct (f x s) as [[e|y] s1] eqn:Hx; [discriminate|].
    destruct (mapM f r s1) as [[e|ys'] s2] eqn:Hr; [discriminate|].
    injection Hrun as <- <-. constructor; [eapply Hf, Hx|eapply IH, Hr].
Qed.

(** The ranker, written out. *)
Lemma performSemanticSearch_run `{E : Env} (opps : list Opp.t) (query provider apiKey : string)
    (s : State) :
  performSemanticSearch opps query provider apiKey s =
    if trim_is_empty query then (inr opps, s)
    else match opportunitiesWithScores opps query provider apiKey s with
         | (inr scored, s') => (inr (firstn 25 (Array_sort by_relevance scored)), s')
         | (inl _, s') => (inr opps, s')
         end.
Proof.
  unfold performSemanticSearch. destruct (trim_is_empty query); [reflexivity|].
  unfold try_catch, bind.
  destruct (opportunitiesWithScores opps query provider apiKey s) as [[e|scored] s'];
    reflexivity.
Qed.

(** Scoring keeps the candidates and their order. *)
Lemma opportunitiesWithScores_same `{E : Env} (opps : list Opp.t) (query provider apiKey : string)
    (s s' : State) (scored : list Opp.t) :
  opportunitiesWithScores opps query provider apiKey s = (inr scored, s') ->
  Forall2 same_listing opps scored.
Proof.
  unfold opportunitiesWithScores, bind. intros Hrun.
  destruct (generateEmbeddings query provider apiKey s) as [[e|qe] s1]; [discriminate|].
  eapply mapM_Forall2, Hrun.
  intros x s0 y s0' Hx. unfold bind, lift, ret in Hx.
  destruct (generateEmbeddings (embedded_text x) provider apiKey s0) as [[e|v] s2]; [discriminate|].
  destruct (cosineSimilarity qe v) as [e|sim]; [discriminate|].
  injection Hx as <- _. reflexivity.
Qed.

(** When an embedding that reranking needs cannot be computed, scoring
    throws (then, or before on a similarity that throws). *)
Lemma scoring_fails `{E : Env} (qe : list number) (provider apiKey : string) (opps : list Opp.t) :
  forall s e s',
    mapM (fun text => generateEmbeddings text provider apiKey) (List.map embedded_text opps) s
      = (inl e, s') ->
    exists e' s'',
      mapM (fun opportunity =>
              opportunityEmbeddings <-
                generateEmbeddings (embedded_text opportunity) provider apiKey ;;
              similarity <- lift (cosineSimilarity qe opportunityEmbeddings) ;;
              ret (Opp.with_relevanceScore opportunity similarity)) opps s
      = (inl e', s'').
Proof.
  set (score := fun opportunity =>
                  opportunityEmbeddings <-
                    generateEmbeddings (embedded_text opportunity) provider apiKey ;;
                  similarity <- lift (cosineSimilarity qe opportunityEmbeddings) ;;
                  ret (Opp.with_relevanceScore opportunity similarity)).
  induction opps as [|o r IH]; intros s e s' Hfail; [discriminate|].
  cbn [List.map] in Hfail. rewrite mapM_cons in Hfail. rewrite mapM_cons.
  destruct (generateEmbeddings (embedded_text o) provider apiKey s) as [[e0|v] s1] eqn:Hgen.
  - assert (score o s = (inl e0, s1)) as -> by (unfold score, bind; now rewrite Hgen).
    eauto.
  - destruct (cosineSimilarity qe v) as [e0|sim] eqn:Hcos.
    + assert (score o s = (inl e0, s1)) as ->
        by (unfold score, bind, lift; now rewrite Hgen, Hcos).
      eauto.
    + assert (score o s = (inr (Opp.with_relevanceScore o sim), s1)) as ->
        by (unfold score, bind, lift, ret; now rewrite Hgen, Hcos).
      destruct (mapM (fun text => generateEmbeddings text provider apiKey)
                     (List.map embedded_text r) s1) as [[e1|vs] s2] eqn:Hrest; [|discriminate].
      destruct (IH _ _ _ Hrest) as (e' & s'' & Hr). rewrite Hr. eauto.
Qed.

Lemma opportunitiesWithScores_fails `{E : Env} (opps : list Opp.t) (query provider apiKey : string)
    (s s' : State) (e : exn) :
  embeddings_needed opps query provider apiKey s = (inl e, s') ->
  exists e' s'', opportunitiesWithScores opps query provider apiKey s = (inl e', s'').
Proof.
  unfold embeddings_needed, opportunitiesWithScores. rewrite mapM_cons. intros Hfail.
  unfold bind at 1.
  destruct (generateEmbeddings query provider apiKey s) as [[e0|qe] s1];
    [eexists; eexists; reflexivity|].
  destruct (mapM (fun text => generateEmbeddings text provider apiKey)
                 (List.map embedded_text opps) s1) as [[e1|vs] s2] eqn:Hrest; [|discriminate].
  eapply scoring_fails, Hrest.
Qed.

Lemma performSemanticSearch_total `{E : Env} (opps : list Opp.t) (query provider apiKey : string)
    (s : State) :
  exists l s', performSemanticSearch opps query provider apiKey s = (inr l, s').
Proof.
  rewrite performSemanticSearch_run. destruct (trim_is_empty query); [eauto|].
  destruct (opportunitiesWithScores opps query provider apiKey s) as [[e|scored] s']; eauto.
Qed.

Lemma finalOpportunities_total `{E : Env} (req : NextRequest) (opps : list Opp.t) (s : State) :
  exists l s', finalOpportunities req opps s = (inr l, s').
Proof.
  unfold finalOpportunities.
  destruct (is_true (params_get (searchParams req) "semantic")
            && opt_truthy (params_get (searchParams req) "q")); [|unfold ret; eauto].
  destruct (or_undefined (option_map (replace_first "Bearer ") (headers_get req "authorization")));
    [apply performSemanticSearch_total|unfold ret; eauto].
Qed.

(** The fresh search, written out: it fails only when the search of the
    registry fails. *)
Lemma search_fresh_run `{E : Env} (req : NextRequest) (filters : Filters.t) (samApiKey : string)
    (s : State) :
  match searchSAMOpportunities filters samApiKey s with
  | (inl e, s1) => search_fresh req filters samApiKey s = (inl e, s1)
  | (inr opps, s1) =>
      exists final s2,
        finalOpportunities req opps
          (set_indexed (fun l => (rev (firstn 10 opps) ++ l)%list) s1) = (inr final, s2)
        /\ search_fresh req filters samApiKey s =
             (inr (mkResponse (success_body (build_response filters opps final)
                                            (clock (S (ticks s2)))) 200),
              set_ticks S
                (set_searchResultsCache
                   <[JSON_stringify filters :=
                       mkCacheEntry (build_response filters opps final) (clock (ticks s2))]>
                   (set_ticks S s2)))
  end.
Proof.
  destruct (searchSAMOpportunities filters samApiKey s) as [[e|opps] s1] eqn:Hsearch;
    unfold search_fresh.
  - now rewrite (bind_inl _ _ _ _ _ Hsearch).
  - rewrite (bind_inr _ _ _ _ _ Hsearch).
    destruct (finalOpportunities_total req opps
                (set_indexed (fun l => (rev (firstn 10 opps) ++ l)%list) s1))
      as (final & s2 & Hfinal).
    exists final, s2. split; [exact Hfinal|].
    unfold bind at 1. unfold modify at 1. cbv beta iota.
    now rewrite (bind_inr _ _ _ _ _ Hfinal).
Qed.

Lemma finalOpportunities_call `{E : Env} (req : NextRequest) (opps : list Opp.t) :
  finalOpportunities req opps =
    match semantic_call req with
    | Some (query, provider, llmApiKey) =>
        performSemanticSearch opps query provider llmApiKey
    | None => ret opps
    end.
Proof.
  unfold finalOpportunities, semantic_call.
  destruct (is_true _ && opt_truthy _); [|reflexivity].
  destruct (or_undefined (option_map _ _)); reflexivity.
Qed.

(** C4. Best-effort reranking. The semantic-search step never throws.
    When the embedding of the query or of any candidate cannot be computed
    (the provider answers with an error, the provider name is not
    supported, the answer cannot be decoded), it returns the candidate list
    it was given, unchanged and in the same order. A fresh search whose
    registry search succeeded therefore answers with status 200 whatever
    the embeddings do, and when the semantic search it asked for fails on
    an embedding, the response carries the listings as the registry search
    returned them. *)
Theorem semantic_search_fallback `{E : Env} :
  (forall opps query provider apiKey s,
     exists l s', performSemanticSearch opps query provider apiKey s = (inr l, s'))
  /\ (forall opps query provider apiKey s e s',
        embeddings_needed opps query provider apiKey s = (inl e, s') ->
        exists s'', performSemanticSearch opps query provider apiKey s = (inr opps, s''))
  /\ (forall req filters samApiKey s opps s1,
        searchSAMOpportunities filters samApiKey s = (inr opps, s1) ->
        exists final now s2,
          search_fresh req filters samApiKey s =
            (inr (mkResponse [("success", JBool true);
                              ("data", JData (build_response filters opps final));
                              ("timestamp", JNum now)] 200), s2)
          /\ match semantic_call req with
             | Some (query, provider, llmApiKey) =>
                 forall e s',
                   embeddings_needed opps query provider llmApiKey
                     (set_indexed (fun l => (rev (firstn 10 opps) ++ l)%list) s1) = (inl e, s') ->
                   final = opps
             | None => final = opps
             end).
Proof.
  assert (forall opps query provider apiKey s e s',
            embeddings_needed opps query provider apiKey s = (inl e, s') ->
            exists s'', performSemanticSearch opps query provider apiKey s = (inr opps, s''))
    as Hfallback.
  { intros opps query provider apiKey s e s' Hfail.
    rewrite performSemanticSearch_run. destruct (trim_is_empty query); [eauto|].
    destruct (opportunitiesWithScores_fails _ _ _ _ _ _ _ Hfail) as (e' & s'' & Hs).
    rewrite Hs. eauto. }
  split; [intros; apply performSemanticSearch_total|]. split; [exact Hfallback|].
  intros req filters samApiKey s opps s1 Hsearch.
  pose proof (search_fresh_run req filters samApiKey s) as Hrun. rewrite Hsearch in Hrun.
  destruct Hrun as (final & s2 & Hfinal & Hrun). rewrite Hrun.
  eexists final, _, _. split; [reflexivity|].
  rewrite finalOpportunities_call in Hfinal.
  destruct (semantic_call req) as [[[query provider] llmApiKey]|].
  - intros e s' Hfail. destruct (Hfallback _ _ _ _ _ _ _ Hfail) as (s'' & Hsem).
    rewrite Hsem in Hfinal. now injection Hfinal as <- _.
  - now injection Hfinal as <- _.
Qed.

Lemma semantic_search_fallback_witness :
  (embeddings_needed (E:=fallback_env) (List.map transform two_listings)
                     "road" "openai" "sk-1" init
     = (inl (JsError "OpenAI Embeddings API error: model overloaded"), set_embedCalls S init)
   /\ exists s'',
        performSemanticSearch (E:=fallback_env) (List.map transform two_listings)
                              "road" "openai" "sk-1" init
          = (inr (List.map transform two_listings), s''))
  /\ (fst (searchSAMOpportunities (E:=fallback_env) semantic_filters "SAM-KEY" init)
        = inr (List.map transform two_listings)
      /\ semantic_call semantic_request = Some ("road", "openai", "sk-1")
      /\ exists now s2,
           search_fresh (E:=fallback_env) semantic_request semantic_filters "SAM-KEY" init
             = (inr (mkResponse
                       [("success", JBool true);
                        ("data",
                         JData (build_response semantic_filters
                                  (List.map transform two_listings)
                                  (List.map transform two_listings)));
                        ("timestamp", JNum now)] 200), s2)).
Proof.
  pose proof (semantic_search_fallback (E:=fallback_env)) as (_ & Hfallback & Hfresh).
  split.
  - assert (embeddings_needed (E:=fallback_env) (List.map transform two_listings)
                              "road" "openai" "sk-1" init
            = (inl (JsError "OpenAI Embeddings API error: model overloaded"),
               set_embedCalls S init)) as Hfail by reflexivity.
    split; [exact Hfail|]. exact (Hfallback _ _ _ _ _ _ _ Hfail).
  - assert (fst (searchSAMOpportunities (E:=fallback_env) semantic_filters "SAM-KEY" init)
            = inr (List.map transform two_listings)) as Hfst by reflexivity.
    split; [exact Hfst|]. split; [reflexivity|].
    destruct (searchSAMOpportunities (E:=fallback_env) semantic_filters "SAM-KEY" init)
      as [r s1] eqn:Hsearch.
    cbn [fst] in Hfst. subst r.
    destruct (Hfresh semantic_request _ _ _ _ _ Hsearch) as (final & now & s2 & Hrun & Hsame).
    change (semantic_call semantic_request) with (Some ("road", "openai", "sk-1")) in Hsame.
    assert (final = List.map transform two_listings) as ->.
    { apply (Hsame (JsError "OpenAI Embeddings API error: model overloaded")
                   (set_embedCalls S
                      (set_indexed
                         (fun l => (rev (firstn 10 (List.map transform two_listings)) ++ l)%list)
                         s1))).
      apply (f_equal snd) in Hsearch. cbn [snd] in Hsearch. subst s1. reflexivity. }
    exists now, s2. exact Hrun.
Defined.

(** C6. Ranking. When reranking runs to completion (every embedding and
    every similarity is computed), the step returns the first 25 elements
    of the scored candidates sorted by [relevanceScore || 0]: the output
    descends by that key, which orders as the score itself wherever no
    score is [NaN]; candidates with equal scores stand in the order of the
    input, both in the sorted list and in what is kept of it; the scored
    candidates are the input candidates in the input order; and the output
    never has more than 25 elements. *)
Theorem ranking_sorted_stable_truncated `{E : Env}
    (opps : list Opp.t) (query provider apiKey : string) (s s' : State) (scored : list Opp.t) :
  trim_is_empty query = false ->
  opportunitiesWithScores opps query provider apiKey s = (inr scored, s') ->
  let sorted := Array_sort by_relevance scored in
  let ranked := firstn 25 sorted in
  performSemanticSearch opps query provider apiKey s = (inr ranked, s')
  /\ Forall2 same_listing opps scored
  /\ Permutation sorted scored
  /\ StronglySorted desc ranked
  /\ (forall a b, Opp.relevanceScore a <> NaN -> Opp.relevanceScore b <> NaN ->
                  (desc a b <-> num_le (Opp.relevanceScore b) (Opp.relevanceScore a)))
  /\ (forall k, List.filter (same_score k) sorted = List.filter (same_score k) scored)
  /\ (forall k, List.filter (same_score k) ranked `prefix_of` List.filter (same_score k) scored)
  /\ (length ranked <= 25)%nat.
Proof.
  intros Hquery Hscored sorted ranked.
  split; [rewrite performSemanticSearch_run, Hquery, Hscored; reflexivity|].
  split; [eapply opportunitiesWithScores_same, Hscored|].
  split; [apply Array_sort_Permutation|].
  split; [apply StronglySorted_firstn, Array_sort_Sorted|].
  split; [|split; [intros k; apply Array_sort_stable|split]].
  - intros a b Ha Hb. unfold desc, score_key, num_or.
    destruct (Opp.relevanceScore a) as [| |qa|], (Opp.relevanceScore b) as [| |qb|];
      try contradiction; cbn [num_truthy num_le]; try tauto;
      repeat match goal with
             | |- context [negb (Qeq_bool ?q 0)] =>
                 let Hq := fresh "Hq" in
                 destruct (Qeq_bool q 0) eqn:Hq;
                 [apply Qeq_bool_iff in Hq|]; cbn [negb num_le ofZ]
             end; try tauto;
      try (change (inject_Z 0) with 0%Q); try rewrite Hq; try rewrite Hq0; tauto.
  - intros k. rewrite <- (Array_sort_stable k scored). apply filter_firstn_prefix.
  - subst ranked. rewrite length_firstn. lia.
Qed.

Lemma ranking_sorted_stable_truncated_witness :
  trim_is_empty "road" = false
  /\ fst (opportunitiesWithScores (E:=ranking_env) (List.map transform three_listings)
                                  "road" "openai" "sk-1" init) = inr three_scored
  /\ fst (performSemanticSearch (E:=ranking_env) (List.map transform three_listings)
                                "road" "openai" "sk-1" init)
     = inr (firstn 25 (Array_sort by_relevance three_scored))
  /\ List.map Opp.noticeId (firstn 25 (Array_sort by_relevance three_scored))
     = [Some "n2"; Some "n1"; Some "n3"]
  /\ StronglySorted desc (firstn 25 (Array_sort by_relevance three_scored)).
Proof.
  assert (fst (opportunitiesWithScores (E:=ranking_env) (List.map transform three_listings)
                                       "road" "openai" "sk-1" init) = inr three_scored)
    as Hfst by (vm_compute; reflexivity).
  split; [reflexivity|]. split; [exact Hfst|].
  destruct (opportunitiesWithScores (E:=ranking_env) (List.map transform three_listings)
                                    "road" "openai" "sk-1" init) as [r s'] eqn:Hscored.
  cbn [fst] in Hfst. subst r.
  destruct (ranking_sorted_stable_truncated (E:=ranking_env) _ "road" _ _ _ _ _ eq_refl Hscored)
    as (Hrun & _ & _ & Hsorted & _).
  split; [now rewrite Hrun|]. split; [reflexivity|exact Hsorted].
Defined.

(** ** The handler *)

(** The search inside the [try], written out: a live entry of the results
    cache answers at once, anything else leads to a fresh search. *)
Lemma search_run `{E : Env} (req : NextRequest) (samApiKey : string) (s : State) :
  let filters := build_filters (searchParams req) (Date_ofMillis (clock (ticks s))) in
  search req samApiKey s =
    match searchResultsCache s !! JSON_stringify filters with
    | Some cachedResult =>
        if (clock (S (ticks s)) - cachedAt cachedResult <? CACHE_DURATION)%Z
        then (inr (mkResponse (cached_body (data cachedResult) (clock (S (S (ticks s))))) 200),
              set_ticks S (set_ticks S (set_ticks S s)))
        else search_fresh req filters samApiKey (set_ticks S (set_ticks S s))
    | None => search_fresh req filters samApiKey (set_ticks S s)
    end.
Proof.
  cbn zeta. unfold search, bind, Date_now, get. cbn [searchResultsCache set_ticks ticks].
  destruct (searchResultsCache s !! _) as [c|]; [|reflexivity].
  destruct (_ <? CACHE_DURATION)%Z; reflexivity.
Qed.

(** The handler, written out. *)
Lemma GET_run `{E : Env} (req : NextRequest) (s : State) :
  exists b s0,
    checkSAMRateLimit req s = (inr b, s0)
    /\ ticks s0 = S (ticks s)
    /\ embeddingCache s0 = embeddingCache s
    /\ searchResultsCache s0 = searchResultsCache s
    /\ pageStore s0 = pageStore s
    /\ samCalls s0 = samCalls s
    /\ GET req s =
         if b then
           match or_undefined (params_get (searchParams req) "samApiKey") with
           | None => (inr key_required, s0)
           | Some samApiKey =>
               match search req samApiKey s0 with
               | (inr response, s1) => (inr response, s1)
               | (inl error, s1) => (inr (failure error (clock (ticks s1))), set_ticks S s1)
               end
           end
         else (inr rate_limited, s0).
Proof.
  destruct (checkSAMRateLimit_frame req s) as (b & m & Hcheck & _).
  eexists b, _. split; [exact Hcheck|]. repeat (split; [reflexivity|]).
  unfold GET. rewrite (bind_inr _ _ _ _ _ Hcheck).
  destruct b; [|reflexivity]. cbn [negb]. unfold try_catch.
  destruct (or_undefined (params_get (searchParams req) "samApiKey")) as [k|]; [|reflexivity].
  destruct (search req k _) as [[e|r] s1]; reflexivity.
Qed.

(** C7 (amended). Response shapes. The handler always answers. A request
    that the rate limiter rejects gets status 429 and a body with only
    [error]; an admitted request without API key gets status 400 and a body
    with only [error]; any other request gets one of: status 200 with
    [success], [data], [cached: true] and [timestamp], exactly when a live
    entry of the results cache answers it; status 200 with [success],
    [data] and [timestamp]; status 500 with [error] and [timestamp]. *)
Theorem response_shapes `{E : Env} (req : NextRequest) (s : State) :
  exists response s',
    GET req s = (inr response, s')
    /\ match fst (checkSAMRateLimit req s) with
       | inr false =>
           response = mkResponse
                        [("error", JStr "Rate limit exceeded. Please try again later.")] 429
       | _ =>
           match or_undefined (params_get (searchParams req) "samApiKey") with
           | None => response = mkResponse [("error", JStr "SAM API key is required")] 400
           | Some samApiKey =>
               let filters :=
                 build_filters (searchParams req) (Date_ofMillis (clock (S (ticks s)))) in
               let live :=
                 match searchResultsCache s !! JSON_stringify filters with
                 | Some cachedResult =>
                     if (clock (S (S (ticks s))) - cachedAt cachedResult <? CACHE_DURATION)%Z
                     then Some (data cachedResult) else None
                 | None => None
                 end in
               match live with
               | Some d =>
                   exists now,
                     response = mkResponse
                                  [("success", JBool true); ("data", JData d);
                                   ("cached", JBool true); ("timestamp", JNum now)] 200
               | None =>
                   (exists d now,
                      response = mkResponse
                                   [("success", JBool true); ("data", JData d);
                                    ("timestamp", JNum now)] 200)
                   \/ (exists message now,
                         response = mkResponse
                                      [("error", JStr message); ("timestamp", JNum now)] 500)
               end
           end
       end.
Proof.
  destruct (GET_run req s) as (b & s0 & Hcheck & Hticks & _ & Hcache & _ & _ & HGET).
  rewrite Hcheck. cbn [fst]. rewrite HGET. clear HGET.
  destruct b; [|eauto].
  destruct (or_undefined (params_get (searchParams req) "samApiKey")) as [k|]; [|eauto].
  rewrite search_run. cbn zeta. rewrite Hticks, Hcache.
  destruct (searchResultsCache s !! _) as [c|].
  - destruct (_ <? CACHE_DURATION)%Z; [eauto|].
    pose proof (search_fresh_run req
                  (build_filters (searchParams req) (Date_ofMillis (clock (S (ticks s)))))
                  k (set_ticks S (set_ticks S s0))) as Hfresh.
    destruct (searchSAMOpportunities _ k _) as [[e|opps] s1].
    + rewrite Hfresh. unfold failure. eauto 8.
    + destruct Hfresh as (final & s2 & _ & ->). unfold success_body. eauto 8.
  - pose proof (search_fresh_run req
                  (build_filters (searchParams req) (Date_ofMillis (clock (S (ticks s)))))
                  k (set_ticks S s0)) as Hfresh.
    destruct (searchSAMOpportunities _ k _) as [[e|opps] s1].
    + rewrite Hfresh. unfold failure. eauto 8.
    + destruct Hfresh as (final & s2 & _ & ->). unfold success_body. eauto 8.
Qed.

Lemma response_shapes_counterexample :
  (exists response s',
     GET (E:=fallback_env) (demo_request []) init = (inr response, s')
     /\ status response = 200%Z
     /\ has_field "success" response = true
     /\ has_field "cached" response = false)
  /\ (exists response s',
        GET (E:=fallback_env) (mkRequest [] []) init = (inr response, s')
        /\ status response = 400%Z
        /\ has_field "timestamp" response = false)
  /\ (exists response s',
        GET (E:=fallback_env) (demo_request []) exhausted = (inr response, s')
        /\ status response = 429%Z
        /\ has_field "timestamp" response = false).
Proof.
  repeat split; eexists; eexists; (split; [vm_compute; reflexivity|]); repeat split.
Qed.

(** ** The registry search and its caches *)

Lemma fetchOpportunities_state `{E : Env} (filters : Filters.t) (samApiKey : string) (s : State) :
  snd (fetchOpportunities filters samApiKey s) = set_samCalls S s.
Proof.
  unfold fetchOpportunities, bind, fetch_sam, lift, throw, ret.
  destruct (sam_fetch (samCalls s) (query_params filters) samApiKey) as [e|response];
    [reflexivity|].
  destruct (sam_ok response); cbn [negb]; [|destruct (JSON_errorMessage _); reflexivity].
  destruct (sam_json response) as [e|[|total [l|]]]; reflexivity.
Qed.

Lemma fetchOpportunities_down `{E : Env} (filters : Filters.t) (samApiKey : string) (s : State)
    (response : SamResponse) :
  sam_fetch (samCalls s) (query_params filters) samApiKey = inr response ->
  sam_ok response = false ->
  fetchOpportunities filters samApiKey s
  = (inl (JsError (upstream_error response)), set_samCalls S s).
Proof.
  intros Hfetch Hok. unfold fetchOpportunities, bind, fetch_sam, throw, upstream_error.
  rewrite Hfetch, Hok. cbn [negb].
  destruct (JSON_errorMessage (sam_text response)); reflexivity.
Qed.

(** [withCache], written out: a live entry answers; otherwise [compute]
    runs, and only its result is stored. *)
Lemma withCache_run `{E : Env} (key : string) (compute : M (list Opp.t)) (ttl : Z) (s : State) :
  withCache key compute ttl s =
    let miss :=
      match compute (set_ticks S s) with
      | (inl e, s1) => (inl e, s1)
      | (inr result, s1) =>
          (inr result,
           set_pageStore <[key := mkStored result (clock (ticks s1))]> (set_ticks S s1))
      end in
    match pageStore s !! key with
    | Some entry =>
        if (clock (ticks s) - storedAt entry <? ttl * 1000)%Z
        then (inr (payload entry), set_ticks S s)
        else miss
    | None => miss
    end.
Proof.
  cbn zeta. unfold withCache, bind, Date_now, get, modify, ret.
  cbn [pageStore set_ticks ticks].
  destruct (pageStore s !! key) as [entry|];
    [destruct (_ <? _)%Z; [reflexivity|]|];
    destruct (compute (set_ticks S s)) as [[e|result] s1]; reflexivity.
Qed.

(** The cached search, written out. *)
Lemma searchSAMOpportunities_run `{E : Env} (filters : Filters.t) (samApiKey : string) (s : State) :
  searchSAMOpportunities filters samApiKey s =
    let key := generateCacheKey (JSON_stringify filters) "sam-search" in
    let miss :=
      match fetchOpportunities filters samApiKey (set_ticks S s) with
      | (inl e, s1) => (inl e, s1)
      | (inr result, s1) =>
          (inr result,
           set_pageStore <[key := mkStored result (clock (ticks s1))]> (set_ticks S s1))
      end in
    match pageStore s !! key with
    | Some entry =>
        if (clock (ticks s) - storedAt entry <? 1800 * 1000)%Z
        then (inr (payload entry), set_ticks S s)
        else miss
    | None => miss
    end.
Proof. unfold searchSAMOpportunities. apply withCache_run. Qed.

Lemma only_embeddings_refl (s : State) : only_embeddings s s.
Proof. repeat split. Qed.

Lemma only_embeddings_trans (s1 s2 s3 : State) :
  only_embeddings s1 s2 -> only_embeddings s2 s3 -> only_embeddings s1 s3.
Proof.
  unfold only_embeddings. intros (?&?&?&?&?&?) (?&?&?&?&?&?). repeat split; congruence.
Qed.

Lemma generateEmbeddings_frame `{E : Env} (text provider apiKey : string) (s : State) :
  only_embeddings s (snd (generateEmbeddings text provider apiKey s)).
Proof.
  pose proof (generateEmbeddings_run text provider apiKey s) as Hrun. cbn zeta in Hrun.
  destruct (embeddingCache s !! _) as [v|].
  - rewrite Hrun. apply only_embeddings_refl.
  - destruct Hrun as [(v & ->) | [(e & ->) | (e & ->)]]; repeat split.
Qed.

Lemma mapM_frame {A B} (P : State -> State -> Prop) (f : A -> M B) :
  (forall s, P s s) -> (forall s1 s2 s3, P s1 s2 -> P s2 s3 -> P s1 s3) ->
  (forall x s, P s (snd (f x s))) ->
  forall l s, P s (snd (mapM f l s)).
Proof.
  intros Hrefl Htrans Hf. induction l as [|x r IH]; intros s; [apply Hrefl|].
  rewrite mapM_cons. pose proof (Hf x s) as Hx.
  destruct (f x s) as [[e|y] s1]; [exact Hx|]. cbn [snd] in Hx.
  pose proof (IH s1) as Hr. destruct (mapM f r s1) as [[e|ys] s2]; cbn [snd] in *;
    eapply Htrans; eassumption.
Qed.

Lemma opportunitiesWithScores_frame `{E : Env} (opps : list Opp.t) (query provider apiKey : string)
    (s : State) :
  only_embeddings s (snd (opportunitiesWithScores opps query provider apiKey s)).
Proof.
  unfold opportunitiesWithScores, bind at 1.
  pose proof (generateEmbeddings_frame query provider apiKey s) as Hq.
  destruct (generateEmbeddings query provider apiKey s) as [[e|qe] s1]; [exact Hq|].
  cbn [snd] in Hq. eapply only_embeddings_trans; [exact Hq|].
  apply mapM_frame; [apply only_embeddings_refl|apply only_embeddings_trans|].
  intros x s0. unfold bind, lift, ret.
  pose proof (generateEmbeddings_frame (embedded_text x) provider apiKey s0) as Hx.
  destruct (generateEmbeddings (embedded_text x) provider apiKey s0) as [[e|v] s2]; [exact Hx|].
  destruct (cosineSimilarity qe v); exact Hx.
Qed.

Lemma performSemanticSearch_frame `{E : Env} (opps : list Opp.t) (query provider apiKey : string)
    (s : State) :
  only_embeddings s (snd (performSemanticSearch opps query provider apiKey s)).
Proof.
  rewrite performSemanticSearch_run.
  destruct (trim_is_empty query); [apply only_embeddings_refl|].
  pose proof (opportunitiesWithScores_frame opps query provider apiKey s) as Hs.
  destruct (opportunitiesWithScores opps query provider apiKey s) as [[e|scored] s']; exact Hs.
Qed.

Lemma finalOpportunities_frame `{E : Env} (req : NextRequest) (opps : list Opp.t) (s : State) :
  only_embeddings s (snd (finalOpportunities req opps s)).
Proof.
  unfold finalOpportunities.
  destruct (is_true _ && opt_truthy _); [|apply only_embeddings_refl].
  destruct (or_undefined _);
    [apply performSemanticSearch_frame|apply only_embeddings_refl].
Qed.

(** A fresh search that misses the page store calls the registry once. *)
Lemma search_fresh_calls `{E : Env} (req : NextRequest) (filters : Filters.t) (samApiKey : string)
    (s : State) :
  page_hit s filters (clock (ticks s)) = false ->
  samCalls (snd (search_fresh req filters samApiKey s)) = S (samCalls s).
Proof.
  intros Hmiss. pose proof (search_fresh_run req filters samApiKey s) as Hrun.
  pose proof (searchSAMOpportunities_run filters samApiKey s) as Hsearch. cbn zeta in Hsearch.
  unfold page_hit in Hmiss.
  pose proof (fetchOpportunities_state filters samApiKey (set_ticks S s)) as Hfetch.
  assert (samCalls (snd (searchSAMOpportunities filters samApiKey s)) = S (samCalls s)) as Hcalls.
  { rewrite Hsearch.
    destruct (pageStore s !! _) as [entry|]; [rewrite Hmiss|];
      destruct (fetchOpportunities filters samApiKey (set_ticks S s)) as [[e|l] s1];
      cbn [snd] in *; subst s1; reflexivity. }
  destruct (searchSAMOpportunities filters samApiKey s) as [[e|opps] s1].
  - rewrite Hrun. exact Hcalls.
  - destruct Hrun as (final & s2 & Hfinal & ->). cbn [snd] in *.
    pose proof (finalOpportunities_frame req opps
                  (set_indexed (fun l => (rev (firstn 10 opps) ++ l)%list) s1)) as Hframe.
    rewrite Hfinal in Hframe. cbn [snd] in Hframe.
    destruct Hframe as (_ & _ & _ & _ & _ & Hsam).
    cbn. rewrite Hsam. exact Hcalls.
Qed.

(** A fresh search that misses the page store while the registry is down
    throws the registry's error and stores nothing. *)
Lemma search_fresh_down `{E : Env} (req : NextRequest) (filters : Filters.t) (samApiKey : string)
    (s : State) (response : SamResponse) :
  page_hit s filters (clock (ticks s)) = false ->
  sam_fetch (samCalls s) (query_params filters) samApiKey = inr response ->
  sam_ok response = false ->
  search_fresh req filters samApiKey s
  = (inl (JsError (upstream_error response)), set_samCalls S (set_ticks S s)).
Proof.
  intros Hmiss Hfetch Hok. pose proof (search_fresh_run req filters samApiKey s) as Hrun.
  assert (searchSAMOpportunities filters samApiKey s
          = (inl (JsError (upstream_error response)), set_samCalls S (set_ticks S s)))
    as Hsearch.
  { rewrite searchSAMOpportunities_run. cbn zeta. unfold page_hit in Hmiss.
    rewrite (fetchOpportunities_down filters samApiKey (set_ticks S s) response Hfetch Hok).
    destruct (pageStore s !! _) as [entry|]; [rewrite Hmiss|]; reflexivity. }
  rewrite Hsearch in Hrun. exact Hrun.
Qed.

(** A request that reaches the registry is answered by a fresh search. *)
Lemma GET_reaches_upstream `{E : Env} (req : NextRequest) (samApiKey : string) (s : State) :
  reaches_upstream req samApiKey s ->
  exists sx,
    GET req s =
      match search_fresh req (filters_of req s) samApiKey sx with
      | (inr response, s1) => (inr response, s1)
      | (inl error, s1) => (inr (failure error (clock (ticks s1))), set_ticks S s1)
      end
    /\ ticks sx = page_tick s (filters_of req s)
    /\ embeddingCache sx = embeddingCache s
    /\ searchResultsCache sx = searchResultsCache s
    /\ pageStore sx = pageStore s
    /\ samCalls sx = samCalls s.
Proof.
  intros (Hadm & Hkey & Hres & _).
  destruct (GET_run req s) as (b & s0 & Hcheck & Hticks & Hemb & Hcache & Hpage & Hcalls & HGET).
  rewrite Hcheck in Hadm. cbn [fst] in Hadm. injection Hadm as ->.
  rewrite Hkey, search_run in HGET. cbn zeta in HGET.
  rewrite Hticks, Hcache in HGET. fold (filters_of req s) in HGET.
  unfold results_hit in Hres. unfold page_tick. cbn [Nat.add] in Hres.
  destruct (searchResultsCache s !! JSON_stringify (filters_of req s)) as [c|].
  - rewrite Hres in HGET. exists (set_ticks S (set_ticks S s0)).
    split; [exact HGET|]. cbn. rewrite Hticks. auto.
  - exists (set_ticks S s0). split; [exact HGET|]. cbn. rewrite Hticks. auto.
Qed.

Lemma page_hit_ext `{E : Env} (s s' : State) (filters : Filters.t) (now : Z) :
  pageStore s' = pageStore s -> page_hit s' filters now = page_hit s filters now.
Proof. intros Heq. unfold page_hit. now rewrite Heq. Qed.

(** A request that reaches the registry calls it once. *)
Lemma GET_upstream_calls `{E : Env} (req : NextRequest) (samApiKey : string) (s : State) :
  reaches_upstream req samApiKey s ->
  samCalls (snd (GET req s)) = S (samCalls s).
Proof.
  intros Hreach.
  destruct (GET_reaches_upstream req samApiKey s Hreach)
    as (sx & -> & Hticks & _ & _ & Hpage & Hcalls).
  destruct Hreach as (_ & _ & _ & Hmiss).
  pose proof (search_fresh_calls req (filters_of req s) samApiKey sx) as Hfresh.
  rewrite (page_hit_ext s sx), Hticks, Hcalls in Hfresh by exact Hpage.
  specialize (Hfresh Hmiss).
  destruct (search_fresh req (filters_of req s) samApiKey sx) as [[e|r] s1]; exact Hfresh.
Qed.

(** C3. Upstream failure. When a request reaches the registry (it is
    admitted, carries an API key and misses both caches) and the registry
    answers with a status that is not ok, the handler answers with status
    500 and the error message built from the registry's status, status
    text and body; the results cache and the store behind [withCache] are
    left as they were, so no entry is stored for the fingerprint; and
    exactly one call went upstream. A subsequent request that again
    reaches the registry (as an identical request does while no entry for
    its fingerprint is live) calls the registry once more instead of
    replaying the failure. *)
Theorem upstream_failure_not_cached `{E : Env}
    (req : NextRequest) (samApiKey : string) (s : State) (answer : SamResponse) :
  reaches_upstream req samApiKey s ->
  sam_fetch (samCalls s) (query_params (filters_of req s)) samApiKey = inr answer ->
  sam_ok answer = false ->
  exists now s',
    GET req s =
      (inr (mkResponse [("error", JStr (upstream_error answer)); ("timestamp", JNum now)] 500),
       s')
    /\ searchResultsCache s' = searchResultsCache s
    /\ pageStore s' = pageStore s
    /\ samCalls s' = S (samCalls s)
    /\ (forall req', reaches_upstream req' samApiKey s' ->
                     samCalls (snd (GET req' s')) = S (S (samCalls s)))
    /\ (fst (checkSAMRateLimit req s') = inr true ->
        searchResultsCache s !! JSON_stringify (filters_of req s') = None ->
        pageStore s !! generateCacheKey (JSON_stringify (filters_of req s')) "sam-search" = None ->
        samCalls (snd (GET req s')) = S (S (samCalls s))).
Proof.
  intros Hreach Hfetch Hok.
  destruct (GET_reaches_upstream req samApiKey s Hreach)
    as (sx & HGET & Hticks & _ & Hcache & Hpage & Hcalls).
  destruct Hreach as (_ & Hkey & _ & Hmiss).
  rewrite (search_fresh_down req (filters_of req s) samApiKey sx answer) in HGET.
  - eexists; eexists. split; [exact HGET|]. cbn.
    repeat (split; [congruence|]).
    assert (forall req', reaches_upstream req' samApiKey
                           (set_ticks S (set_samCalls S (set_ticks S sx))) ->
                         samCalls (snd (GET req' (set_ticks S (set_samCalls S (set_ticks S sx)))))
                         = S (S (samCalls s))) as Hagain.
    { intros req' Hreach'. rewrite (GET_upstream_calls req' samApiKey _ Hreach'). cbn.
      congruence. }
    split; [exact Hagain|].
    intros Hadm Hcold Hcold'. apply Hagain. split; [exact Hadm|]. split; [exact Hkey|].
    unfold results_hit, page_hit. cbn [searchResultsCache pageStore set_ticks set_samCalls].
    now rewrite Hcache, Hpage, Hcold, Hcold'.
  - now rewrite (page_hit_ext s sx), Hticks by exact Hpage.
  - now rewrite Hcalls.
  - exact Hok.
Qed.

Lemma upstream_failure_not_cached_witness :
  reaches_upstream (E:=down_env) (demo_request []) "SAM-KEY" init
  /\ sam_fetch (Env:=down_env) (samCalls init)
       (query_params (E:=down_env) (filters_of (E:=down_env) (demo_request []) init)) "SAM-KEY"
     = inr sam_down
  /\ sam_ok sam_down = false
  /\ exists now s',
       GET (E:=down_env) (demo_request []) init =
         (inr (mkResponse
                 [("error",
                   JStr "SAM.gov API error: 500 Internal Server Error - upstream exploded");
                  ("timestamp", JNum now)] 500), s')
       /\ searchResultsCache s' = ∅
       /\ pageStore s' = ∅
       /\ samCalls s' = 1%nat.
Proof.
  assert (reaches_upstream (E:=down_env) (demo_request []) "SAM-KEY" init) as Hreach
    by (repeat split).
  split; [exact Hreach|]. split; [reflexivity|]. split; [reflexivity|].
  destruct (upstream_failure_not_cached (E:=down_env) (demo_request []) "SAM-KEY" init sam_down
              Hreach eq_refl eq_refl)
    as (now & s' & HGET & Hcache & Hpage & Hcalls & _).
  exists now, s'. repeat split; assumption.
Defined.

Lemma searchSAMOpportunities_cache `{E : Env} (filters : Filters.t) (samApiKey : string)
    (s : State) :
  searchResultsCache (snd (searchSAMOpportunities filters samApiKey s)) = searchResultsCache s.
Proof.
  rewrite searchSAMOpportunities_run. cbn zeta.
  pose proof (fetchOpportunities_state filters samApiKey (set_ticks S s)) as Hfetch.
  destruct (pageStore s !! _) as [entry|]; [destruct (_ <? _)%Z; [reflexivity|]|];
    destruct (fetchOpportunities filters samApiKey (set_ticks S s)) as [[e|l] s1];
    cbn [snd] in *; subst s1; reflexivity.
Qed.









(** ** The query builder *)

Lemma In_append (x : string * string) (k v : string) (ps : list (string * string)) :
  In x ps -> In x (append k v ps).
Proof. intros Hin. unfold append. apply in_or_app. now left. Qed.

Lemma In_append_new (k v : string) (ps : list (string * string)) : In (k, v) (append k v ps).
Proof. unfold append. apply in_or_app. right. now left. Qed.

Lemma In_append_if (x : string * string) (c : bool) (k v : string) (ps : list (string * string)) :
  In x ps -> In x (append_if c k v ps).
Proof. intros Hin. unfold append_if. destruct c; [now apply In_append|exact Hin]. Qed.

Lemma In_append_str (x : string * string) (k : string) (o : option string)
    (ps : list (string * string)) :
  In x ps -> In x (append_str k o ps).
Proof. intros Hin. unfold append_str. destruct o; [now apply In_append_if|exact Hin]. Qed.

Lemma In_append_num `{E : Env} (x : string * string) (k : string) (o : option number)
    (ps : list (string * string)) :
  In x ps -> In x (append_num k o ps).
Proof. intros Hin. unfold append_num. destruct o; [now apply In_append_if|exact Hin]. Qed.

Create HintDb params.

#[local] Hint Resolve In_append In_append_if In_append_str In_append_num In_append_new : params.

(** The limit that goes upstream, and the flag when the filters carry one. *)
Lemma query_params_limit `{E : Env} (filters : Filters.t) :
  In ("limit",
      Number_toString (Math_min (opt_num_or (Filters.limit filters) (ofZ 50)) (ofZ 100)))
     (query_params filters).
Proof. unfold query_params. cbn zeta. auto 10 with params. Qed.

Lemma query_params_active `{E : Env} (filters : Filters.t) (b : bool) :
  Filters.active filters = Some b ->
  In ("active", bool_toString b) (query_params filters).
Proof. intros Hb. unfold query_params. cbn zeta. rewrite Hb. auto 20 with params. Qed.

(** C2 (the code at the failing input). A request with [limit=200]: the
    registry is asked for 100 listings, and the response echoes 200. The
    clamp is applied where the upstream parameters are built and is missing
    where the response is built. *)
Theorem limit_echo_unclamped `{E : Env} (today : JSDate) :
  let filters := build_filters [("samApiKey", "SAM-KEY"); ("limit", "200")] today in
  In ("limit", "100") (query_params filters)
  /\ (forall opps final, Resp.limit (build_response filters opps final) = ofZ 200)
  /\ exists response s' d now,
       GET (E:=fallback_env) (demo_request [("limit", "200")]) init = (inr response, s')
       /\ response = mkResponse [("success", JBool true); ("data", JData d);
                                 ("timestamp", JNum now)] 200
       /\ Resp.limit d = ofZ 200.
Proof.
  cbn zeta. split; [|split].
  - exact (query_params_limit
             (build_filters [("samApiKey", "SAM-KEY"); ("limit", "200")] today)).
  - intros opps final. reflexivity.
  - eexists; eexists; eexists; eexists. split; [vm_compute; reflexivity|]. split; reflexivity.
Qed.

Lemma sent_append (k k' v : string) (ps : list (string * string)) :
  sent k (append k' v ps) = sent k ps || String.eqb k k'.
Proof. unfold sent, append. rewrite existsb_app. cbn. now rewrite orb_false_r. Qed.

Lemma sent_append_if (k : string) (c : bool) (k' v : string) (ps : list (string * string)) :
  sent k (append_if c k' v ps) = sent k ps || (String.eqb k k' && c).
Proof.
  unfold append_if. destruct c; [now rewrite sent_append, andb_true_r|].
  now rewrite andb_false_r, orb_false_r.
Qed.

Lemma sent_append_str (k k' : string) (o : option string) (ps : list (string * string)) :
  sent k (append_str k' o ps) = sent k ps || (String.eqb k k' && opt_truthy o).
Proof.
  unfold append_str. destruct o as [v|]; [apply sent_append_if|].
  cbn. now rewrite andb_false_r, orb_false_r.
Qed.

Lemma sent_append_num `{E : Env} (k k' : string) (o : option number) (ps : list (string * string)) :
  sent k (append_num k' o ps) = sent k ps || (String.eqb k k' && opt_num_truthy o).
Proof.
  unfold append_num. destruct o as [x|]; [apply sent_append_if|].
  cbn. now rewrite andb_false_r, orb_false_r.
Qed.

(** Field mapping of the builder: a parameter goes upstream exactly when
    its slot says so. *)
Lemma sent_query_params `{E : Env} (filters : Filters.t) (k : string) :
  sent k (query_params filters)
  = existsb (fun slot => String.eqb k (fst slot) && snd slot) (slots filters).
Proof.
  unfold query_params, slots. cbn zeta.
  destruct (Filters.active filters) as [b|]; cbn [is_some];
    repeat first [rewrite sent_append | rewrite sent_append_if
                 | rewrite sent_append_str | rewrite sent_append_num];
    cbn [sent existsb fst snd];
    rewrite ?andb_true_r, ?andb_false_r, ?orb_false_r, ?orb_false_l, <- ?orb_assoc;
    reflexivity.
Qed.

Lemma or_undefined_None : or_undefined None = None.
Proof. reflexivity. Qed.

Lemma normalizeDate_None `{E : Env} : normalizeDate None = None.
Proof. reflexivity. Qed.

(** End to end, the plain fields follow the rule of the field mapping: a
    parameter that the request lacks does not go upstream. *)
Lemma absent_plain_field_omitted `{E : Env} (sp : list (string * string)) (today : JSDate)
    (name upstream : string) :
  In (name, upstream) plain_fields ->
  params_get sp name = None ->
  sent upstream (query_params (build_filters sp today)) = false.
Proof.
  intros Hin Habsent. rewrite sent_query_params. unfold plain_fields in Hin.
  repeat (destruct Hin as [[= <- <-]|Hin]; [
    unfold slots, build_filters;
    cbn [Filters.keyword Filters.startDate Filters.endDate Filters.naicsCode Filters.state
         Filters.agency Filters.type Filters.setAside Filters.active Filters.limit
         Filters.offset Filters.entityName Filters.contractVehicle
         Filters.classificationCode Filters.fundingSource Filters.responseDeadline
         Filters.estimatedValue Filters.hasAttachments Filters.from Filters.to
         Filters.min Filters.max mbind option_bind];
    rewrite Habsent, ?normalizeDate_None, ?or_undefined_None;
    cbn [existsb fst snd opt_truthy opt_num_truthy is_true andb orb String.eqb Ascii.eqb
         Bool.eqb or_undefined];
    rewrite ?andb_false_r; reflexivity |]).
  destruct Hin.
Qed.

(** C5 (the code at the failing input). The builder follows the field
    mapping: a parameter goes upstream exactly when its slot says so, and
    the slot of [active] says so when the filters define it. The handler
    defines it always: for a request without [active] it builds filters
    with [active: false], and [active=false] goes upstream. *)
Theorem active_sent_when_absent `{E : Env} (today : JSDate) :
  (forall filters k,
     sent k (query_params filters)
     = existsb (fun slot => String.eqb k (fst slot) && snd slot) (slots filters))
  /\ params_get [("samApiKey", "SAM-KEY")] "active" = None
  /\ Filters.active (build_filters [("samApiKey", "SAM-KEY")] today) = Some false
  /\ In ("active", "false") (query_params (build_filters [("samApiKey", "SAM-KEY")] today))
  /\ query_params (E:=fallback_env)
       (build_filters (E:=fallback_env) [("samApiKey", "SAM-KEY")] (mkDate 2024 0 31))
     = [("postedFrom", "01/01/2024"); ("postedTo", "01/31/2024"); ("active", "false");
        ("limit", "50"); ("offset", "0"); ("includeCount", "true"); ("format", "json")].
Proof.
  split; [intros; apply sent_query_params|].
  split; [reflexivity|]. split; [reflexivity|]. split; [|reflexivity].
  exact (query_params_active (build_filters [("samApiKey", "SAM-KEY")] today) false eq_refl).
Qed.

(** ** Cosine similarity *)

Section CosineFacts.

Local Open Scope R_scope.

Local Abbreviation dot := Cosine.dot.
Local Abbreviation magnitude := Cosine.magnitude.

Lemma dot_comm (a b : list R) : dot a b = dot b a.
Proof.
  revert b. induction a as [|x a IH]; intros [|y b]; cbn; try reflexivity.
  rewrite IH. ring.
Qed.

Lemma dot_self_nonneg (a : list R) : 0 <= dot a a.
Proof. induction a as [|x a IH]; cbn; [lra|nra]. Qed.

Lemma quadratic_nonneg (t : R) (a b : list R) :
  length a = length b ->
  0 <= t * t * dot a a + 2 * t * dot a b + dot b b.
Proof.
  revert b. induction a as [|x a IH]; intros [|y b] Hlen; try discriminate; cbn.
  - lra.
  - injection Hlen as Hlen. specialize (IH b Hlen).
    pose proof (Rle_0_sqr (t * x + y)) as Hsq. unfold Rsqr in Hsq. nra.
Qed.

Lemma cauchy_schwarz (a b : list R) :
  length a = length b -> dot a b * dot a b <= dot a a * dot b b.
Proof.
  intros Hlen.
  pose proof (dot_self_nonneg a) as Ha. pose proof (dot_self_nonneg b) as Hb.
  destruct (Req_dec_T (dot a a) 0) as [Hz|Hnz].
  - (* a has no weight: the product vanishes *)
    destruct (Req_dec_T (dot a b) 0) as [Hd|Hd]; [rewrite Hd, Hz; lra|].
    exfalso.
    pose proof (quadratic_nonneg (- (dot b b + 1) / (2 * dot a b)) a b Hlen) as Hq.
    rewrite Hz in Hq.
    replace (2 * (- (dot b b + 1) / (2 * dot a b)) * dot a b) with (- (dot b b + 1)) in Hq
      by (field; exact Hd).
    lra.
  - pose proof (quadratic_nonneg (- dot a b / dot a a) a b Hlen) as Hq.
    replace (- dot a b / dot a a * (- dot a b / dot a a) * dot a a
             + 2 * (- dot a b / dot a a) * dot a b + dot b b)
      with ((dot a a * dot b b - dot a b * dot a b) / dot a a) in Hq
      by (field; exact Hnz).
    assert (0 < dot a a) as Hpos by lra.
    assert (0 <= dot a a * dot b b - dot a b * dot a b); [|lra].
    replace (dot a a * dot b b - dot a b * dot a b)
      with ((dot a a * dot b b - dot a b * dot a b) / dot a a * dot a a)
      by (field; exact Hnz).
    apply Rmult_le_pos; lra.
Qed.

Lemma dot_le_magnitudes (a b : list R) :
  length a = length b -> Rabs (dot a b) <= magnitude a * magnitude b.
Proof.
  intros Hlen. unfold Cosine.magnitude.
  rewrite <- sqrt_mult by apply dot_self_nonneg.
  rewrite <- sqrt_Rsqr_abs. apply sqrt_le_1_alt. unfold Rsqr. now apply cauchy_schwarz.
Qed.

Lemma magnitude_nonneg (a : list R) : 0 <= magnitude a.
Proof. apply sqrt_pos. Qed.

Lemma magnitude_zero (a : list R) : (forall x, In x a -> x = 0) -> magnitude a = 0.
Proof.
  intros Hall. unfold Cosine.magnitude. replace (dot a a) with 0; [apply sqrt_0|].
  induction a as [|x a IH]; cbn; [reflexivity|].
  rewrite (Hall x) by now left. rewrite <- IH; [ring|]. intros y Hy. apply Hall. now right.
Qed.

Lemma magnitude_nonzero (a : list R) : (exists x, In x a /\ x <> 0) -> magnitude a <> 0.
Proof.
  intros (x & Hin & Hx). unfold Cosine.magnitude. intros Hz.
  apply sqrt_eq_0 in Hz; [|apply dot_self_nonneg].
  induction a as [|y a IH]; [contradiction|]. cbn in Hz.
  pose proof (dot_self_nonneg a) as Ha.
  destruct Hin as [->|Hin]; [nra|]. apply IH; [exact Hin|nra].
Qed.

(** C9. Cosine similarity. For vectors of equal dimension the similarity is
    symmetric and lies between -1 and 1; the similarity of a vector with a
    non-zero component to itself is exactly 1; and the similarity is 0
    when either vector has zero magnitude, in particular when either is
    all-zero. *)
Theorem cosine_properties (a b : list R) :
  length a = length b ->
  Cosine.cosineSimilarity a b = Cosine.cosineSimilarity b a
  /\ -1 <= Cosine.cosineSimilarity a b <= 1
  /\ ((exists x, In x a /\ x <> 0) -> Cosine.cosineSimilarity a a = 1)
  /\ (Cosine.magnitude a = 0 \/ Cosine.magnitude b = 0 -> Cosine.cosineSimilarity a b = 0)
  /\ ((forall x, In x a -> x = 0) \/ (forall x, In x b -> x = 0) ->
      Cosine.cosineSimilarity a b = 0).
Proof.
  intros Hlen.
  assert (magnitude a = 0 \/ magnitude b = 0 -> Cosine.cosineSimilarity a b = 0) as Hzero.
  { unfold Cosine.cosineSimilarity. intros [Hz|Hz].
    - destruct (Req_dec_T (magnitude a) 0); [reflexivity|contradiction].
    - destruct (Req_dec_T (magnitude a) 0); [reflexivity|].
      destruct (Req_dec_T (magnitude b) 0); [reflexivity|contradiction]. }
  split; [|split; [|split; [|split; [exact Hzero|]]]].
  - unfold Cosine.cosineSimilarity.
    destruct (Req_dec_T (magnitude a) 0), (Req_dec_T (magnitude b) 0); try reflexivity.
    rewrite (dot_comm a b), (Rmult_comm (magnitude a)). reflexivity.
  - unfold Cosine.cosineSimilarity.
    destruct (Req_dec_T (magnitude a) 0) as [|Ha]; [lra|].
    destruct (Req_dec_T (magnitude b) 0) as [|Hb]; [lra|].
    pose proof (magnitude_nonneg a). pose proof (magnitude_nonneg b).
    assert (0 < magnitude a * magnitude b) as Hpos by (apply Rmult_lt_0_compat; lra).
    pose proof (dot_le_magnitudes a b Hlen) as Hle.
    pose proof (Rle_abs (dot a b)) as Hup.
    pose proof (Rle_abs (- dot a b)) as Hlow. rewrite Rabs_Ropp in Hlow.
    split.
    + apply Rmult_le_reg_r with (magnitude a * magnitude b); [exact Hpos|].
      unfold Rdiv. rewrite Rmult_assoc, Rinv_l by lra. lra.
    + apply Rmult_le_reg_r with (magnitude a * magnitude b); [exact Hpos|].
      unfold Rdiv. rewrite Rmult_assoc, Rinv_l by lra. lra.
  - intros Hnz. apply magnitude_nonzero in Hnz. unfold Cosine.cosineSimilarity.
    destruct (Req_dec_T (magnitude a) 0) as [|Ha]; [contradiction|].
    unfold Cosine.magnitude in *. rewrite sqrt_sqrt by apply dot_self_nonneg.
    assert (dot a a <> 0) by (intros Hz; apply Ha; rewrite Hz; apply sqrt_0).
    now field.
  - intros [Hall|Hall]; apply Hzero; [left|right]; now apply magnitude_zero.
Qed.

Lemma cosine_properties_witness :
  length [3; 4] = length [4; 3]
  /\ Cosine.cosineSimilarity [3; 4] [4; 3] = Cosine.cosineSimilarity [4; 3] [3; 4]
  /\ -1 <= Cosine.cosineSimilarity [3; 4] [4; 3] <= 1
  /\ Cosine.cosineSimilarity [3; 4] [3; 4] = 1.
Proof.
  destruct (cosine_properties [3; 4] [4; 3] eq_refl) as (Hsym & Hbound & Hself & _).
  split; [reflexivity|]. split; [exact Hsym|]. split; [exact Hbound|].
  apply Hself. exists 3. split; [now left|lra].
Defined.

End CosineFacts.
(** * Further properties of the search route *)

(** ** The query builder *)

Lemma append_str_present (k : string) (o : option string) (ps : list (string * string)) :
  append_str k o ps = (ps ++ present (k, or_undefined o))%list.
Proof.
  unfold append_str, append_if, append, present, or_undefined.
  destruct o as [v|]; cbn; [|now rewrite app_nil_r].
  destruct (str_truthy v); cbn; [reflexivity|now rewrite app_nil_r].
Qed.

Lemma append_num_present `{E : Env} (k : string) (o : option number)
    (ps : list (string * string)) :
  append_num k o ps = (ps ++ present (k, num_slot o))%list.
Proof.
  unfold append_num, append_if, append, present, num_slot.
  destruct o as [x|]; cbn; [|now rewrite app_nil_r].
  destruct (num_truthy x); cbn; [reflexivity|now rewrite app_nil_r].
Qed.

(** The builder appends the slots that hold a value, in order. *)
Lemma query_params_slots `{E : Env} (filters : Filters.t) :
  query_params filters = flat_map present (upstream_slots filters).
Proof.
  unfold query_params, upstream_slots.
  rewrite !append_str_present, !append_num_present.
  unfold append_if, append. cbn [flat_map].
  destruct (Filters.active filters) as [b|];
    destruct (match Filters.hasAttachments filters with Some b => b | None => false end);
    cbn [present snd fst option_map app]; rewrite <- ?app_assoc; cbn [app];
    rewrite ?app_nil_r; reflexivity.
Qed.

Lemma In_flat_map_present (k v : string) (slots : list (string * option string)) :
  In (k, v) (flat_map present slots) <-> In (k, Some v) slots.
Proof.
  rewrite in_flat_map. split.
  - intros ([k' [v'|]] & Hin & Hp); cbn in Hp; [|contradiction].
    destruct Hp as [[= <- <-]|[]]. exact Hin.
  - intros Hin. exists (k, Some v). split; [exact Hin|now left].
Qed.

Lemma present_names (slots : list (string * option string)) :
  List.map fst (flat_map present slots) `sublist_of` List.map fst slots.
Proof.
  induction slots as [|[k [v|]] r IH]; cbn.
  - constructor.
  - now apply sublist_skip.
  - now apply sublist_cons.
Qed.

(** X1. The upstream query names each parameter at most once, and the
    parameters it names come in one fixed order, whatever the filters. *)
Theorem upstream_params_ordered `{E : Env} (filters : Filters.t) :
  List.map fst (query_params filters) `sublist_of` upstream_names
  /\ NoDup (List.map fst (query_params filters)).
Proof.
  assert (List.map fst (query_params filters) `sublist_of` upstream_names) as Hsub.
  { rewrite query_params_slots. apply (present_names (upstream_slots filters)). }
  split; [exact Hsub|].
  eapply sublist_NoDup; [|exact Hsub].
  apply (bool_decide_unpack _). vm_compute. exact I.
Qed.

Lemma append_nonempty (a : string) (c : ascii) (b : string) : a +:+ String c b <> "".
Proof. destruct a; discriminate. Qed.

Lemma pretty_N_go_length (x : N) :
  forall s, (String.length s <= String.length (pretty_N_go x s))%nat.
Proof.
  induction (N.lt_wf_0 x) as [x _ IH]. intros s.
  assert (x = 0 \/ 0 < x)%N as [->|Hpos] by lia; [now rewrite pretty_N_go_0|].
  rewrite pretty_N_go_step by exact Hpos.
  etransitivity; [|apply IH, N.div_lt; [exact Hpos|reflexivity]]. cbn. lia.
Qed.

Lemma pretty_N_nonempty (x : N) : pretty x <> "".
Proof.
  unfold pretty, pretty_N. destruct (decide (x = 0%N)) as [|Hx]; [discriminate|].
  rewrite pretty_N_go_step by lia.
  pose proof (pretty_N_go_length (x `div` 10)%N
                (String (pretty_N_char (x `mod` 10)%N) "")) as Hlen.
  intros Heq. rewrite Heq in Hlen. cbn in Hlen. lia.
Qed.

Lemma pretty_Z_nonempty (z : Z) : pretty z <> "".
Proof.
  destruct z as [|p|p]; unfold pretty, pretty_Z; [discriminate| |discriminate].
  apply pretty_N_nonempty.
Qed.



Lemma Number_toString_nonempty `{E : Env} (x : number) :
  (forall q, frac_toString q <> "") -> Number_toString x <> "".
Proof.
  intros Hfrac. destruct x as [| |q|]; unfold Number_toString; try discriminate.
  destruct (Pos.eqb (Qden (Qred q)) 1); [apply pretty_Z_nonempty|apply Hfrac].
Qed.

Lemma or_undefined_Some (o : option string) (v : string) :
  or_undefined o = Some v -> o = Some v /\ v <> "".
Proof.
  unfold or_undefined. destruct o as [w|]; cbn; [|discriminate].
  destruct w; cbn; [discriminate|]. intros [= <-]. split; [reflexivity|discriminate].
Qed.

Lemma demo_frac_toString_nonempty (q : Q) : demo_frac_toString q <> "".
Proof. unfold demo_frac_toString. apply append_nonempty. Qed.

(** X2. The upstream query never carries an empty value: every parameter
    that goes to the registry has a text, provided the runtime prints no
    number as the empty string. *)
Theorem upstream_values_nonempty `{E : Env} (filters : Filters.t) (k v : string) :
  (forall q, frac_toString q <> "") ->
  In (k, v) (query_params filters) -> v <> "".
Proof.
  intros Hfrac. rewrite query_params_slots, In_flat_map_present.
  assert (forall o, num_slot o = Some v -> v <> "") as Hnum.
  { intros [x|]; cbn; [|discriminate]. destruct (num_truthy x); [|discriminate].
    intros [= <-]. now apply Number_toString_nonempty. }
  unfold upstream_slots. cbn [In].
  intros Hin.
  repeat match goal with
         | H : _ \/ _ |- _ => destruct H as [H|H]
         | H : False |- _ => destruct H
         end;
    injection Hin as _ Hv;
    try (apply or_undefined_Some in Hv; tauto);
    try (apply Hnum in Hv; exact Hv).
  - destruct (Filters.active filters) as [[]|]; cbn in Hv; [| |discriminate];
      injection Hv as <-; discriminate.
  - destruct (match Filters.hasAttachments filters with Some b => b | None => false end);
      [|discriminate]. injection Hv as <-. discriminate.
  - subst v. now apply Number_toString_nonempty.
  - subst v. now apply Number_toString_nonempty.
  - subst v. discriminate.
  - subst v. discriminate.
Qed.

Lemma upstream_values_nonempty_witness :
  In ("limit", "50")
     (query_params (E:=burst_env) (build_filters (E:=burst_env) [] (mkDate 2024 0 31)))
  /\ "50" <> "".
Proof.
  assert (In ("limit", "50")
             (query_params (E:=burst_env) (build_filters (E:=burst_env) [] (mkDate 2024 0 31))))
    as Hin by (vm_compute; tauto).
  split; [exact Hin|].
  exact (upstream_values_nonempty (E:=burst_env) _ "limit" "50" demo_frac_toString_nonempty Hin).
Defined.





(** ** Dates *)

Lemma contains_append (c : ascii) (a b : string) :
  contains c (a +:+ b) = contains c a || contains c b.
Proof.
  induction a as [|x a IH]; [reflexivity|]. simpl. now rewrite IH, orb_assoc.
Qed.

Lemma all_digits_contains (c : ascii) (s : string) :
  is_digit c = false -> all_digits s = true -> contains c s = false.
Proof.
  intros Hc. induction s as [|x s IH]; [reflexivity|]. cbn.
  intros [Hx Hs]%andb_prop. rewrite (IH Hs), orb_false_r.
  destruct (Ascii.eqb_spec x c) as [->|]; [congruence|reflexivity].
Qed.

Lemma split_on_nonempty (sep : ascii) (s : string) : split_on sep s <> [].
Proof.
  destruct s as [|c s]; cbn; [discriminate|].
  destruct (Ascii.eqb c sep); [discriminate|]. destruct (split_on sep s); discriminate.
Qed.

Lemma split_on_plain (sep : ascii) (s : string) :
  contains sep s = false -> split_on sep s = [s].
Proof.
  induction s as [|c s IH]; [reflexivity|]. cbn.
  intros [Hc Hs]%orb_false_elim. now rewrite Hc, (IH Hs).
Qed.

Lemma split_on_append (sep : ascii) (a b : string) :
  contains sep a = false -> split_on sep (a +:+ String sep b) = a :: split_on sep b.
Proof.
  induction a as [|c a IH]; simpl.
  - intros _. now rewrite Ascii.eqb_refl.
  - intros [Hc Ha]%orb_false_elim. now rewrite Hc, (IH Ha).
Qed.

Lemma split_on_three (sep : ascii) (a b c : string) :
  contains sep a = false -> contains sep b = false -> contains sep c = false ->
  split_on sep (a +:+ String sep "" +:+ b +:+ String sep "" +:+ c) = [a; b; c].
Proof.
  intros Ha Hb Hc.
  change (String sep "" +:+ b +:+ String sep "" +:+ c)
    with (String sep (b +:+ String sep c)).
  now rewrite (split_on_append _ _ _ Ha), (split_on_append _ _ _ Hb), (split_on_plain _ _ Hc).
Qed.

Lemma len_between_eq (n : nat) (s : string) :
  len_between n n s = true <-> String.length s = n.
Proof.
  unfold len_between. rewrite andb_true_iff, !Nat.leb_le. lia.
Qed.

Lemma is_sam_date_swapped (y m d : string) :
  all_digits y = true -> String.length y = 4%nat ->
  all_digits m = true -> String.length m = 2%nat ->
  all_digits d = true -> String.length d = 2%nat ->
  is_sam_date (m +:+ "/" +:+ d +:+ "/" +:+ y) = true.
Proof.
  intros Hy Ly Hm Lm Hd Ld. unfold is_sam_date.
  rewrite (split_on_three "/" m d y) by (now apply all_digits_contains).
  unfold len_between. now rewrite Hy, Hm, Hd, Ly, Lm, Ld.
Qed.

Lemma normalizeDate_sam `{E : Env} (s : string) :
  is_sam_date s = true -> normalizeDate (Some s) = Some s.
Proof.
  intros Hs. unfold normalizeDate. destruct s as [|c s]; [discriminate|].
  cbn [or_undefined opt_truthy str_truthy]. now rewrite Hs.
Qed.

(** X4. Dates in [YYYY-MM-DD] are converted. A date of four, two and two
    digits joined by hyphens is handed to the registry as month, day and
    year joined by slashes, digits unchanged (no range check: month 13
    passes); and the converted date is one that the conversion leaves
    alone. *)
Theorem normalizeDate_iso `{E : Env} (y m d : string) :
  all_digits y = true -> String.length y = 4%nat ->
  all_digits m = true -> String.length m = 2%nat ->
  all_digits d = true -> String.length d = 2%nat ->
  normalizeDate (Some (y +:+ "-" +:+ m +:+ "-" +:+ d)) = Some (m +:+ "/" +:+ d +:+ "/" +:+ y)
  /\ normalizeDate (Some (m +:+ "/" +:+ d +:+ "/" +:+ y)) = Some (m +:+ "/" +:+ d +:+ "/" +:+ y).
Proof.
  intros Hy Ly Hm Lm Hd Ld.
  split; [|now apply normalizeDate_sam, is_sam_date_swapped].
  unfold normalizeDate.
  assert (or_undefined (Some (y +:+ "-" +:+ m +:+ "-" +:+ d))
          = Some (y +:+ "-" +:+ m +:+ "-" +:+ d)) as ->.
  { destruct y; [discriminate|reflexivity]. }
  assert (is_sam_date (y +:+ "-" +:+ m +:+ "-" +:+ d) = false) as ->.
  { unfold is_sam_date. rewrite split_on_plain; [reflexivity|].
    rewrite !contains_append, (all_digits_contains "/" y), (all_digits_contains "/" m),
      (all_digits_contains "/" d) by (assumption || reflexivity).
    reflexivity. }
  assert (split_on "-" (y +:+ "-" +:+ m +:+ "-" +:+ d) = [y; m; d]) as Hsplit
      by (apply (split_on_three "-"); now apply all_digits_contains).
  unfold is_iso_date. rewrite Hsplit. unfold len_between.
  now rewrite Hy, Hm, Hd, Ly, Lm, Ld.
Qed.

Lemma normalizeDate_iso_witness :
  normalizeDate (E:=burst_env) (Some "2024-03-07") = Some "03/07/2024"
  /\ normalizeDate (E:=burst_env) (Some "03/07/2024") = Some "03/07/2024".
Proof.
  apply (normalizeDate_iso (E:=burst_env) "2024" "03" "07"); reflexivity.
Defined.

(** X5. The two date formats that the handler recognises end in the format
    of the registry. A date that matches either pattern is turned into one
    that matches the registry's pattern, and normalising that again changes
    nothing. *)
Theorem normalizeDate_idempotent `{E : Env} (s : string) :
  is_sam_date s || is_iso_date s = true ->
  exists r,
    normalizeDate (Some s) = Some r
    /\ is_sam_date r = true
    /\ normalizeDate (Some r) = Some r.
Proof.
  destruct (is_sam_date s) eqn:Hsam; cbn [orb].
  - intros _. exists s. now rewrite !normalizeDate_sam.
  - intros Hiso. pose proof Hiso as Hparts. unfold is_iso_date in Hparts.
    destruct (split_on "-" s) as [|y [|m [|d [|]]]] eqn:Hsplit; try discriminate.
    repeat (apply andb_prop in Hparts as [Hparts ?]).
    repeat match goal with
           | H : len_between _ _ _ = true |- _ => apply len_between_eq in H
           end.
    exists (m +:+ "/" +:+ d +:+ "/" +:+ y).
    assert (is_sam_date (m +:+ "/" +:+ d +:+ "/" +:+ y) = true) as Hr
        by (now apply is_sam_date_swapped).
    split; [|split; [exact Hr|now apply normalizeDate_sam]].
    unfold normalizeDate. destruct s as [|c s]; [discriminate|].
    cbn [or_undefined opt_truthy str_truthy]. now rewrite Hsam, Hiso, Hsplit.
Qed.

Lemma normalizeDate_idempotent_witness :
  exists r,
    normalizeDate (E:=burst_env) (Some "2024-12-01") = Some r
    /\ is_sam_date r = true
    /\ normalizeDate (E:=burst_env) (Some r) = Some r.
Proof. apply (normalizeDate_idempotent (E:=burst_env) "2024-12-01"). reflexivity. Defined.

Lemma formatDateForSAM_nonempty (date : JSDate) : formatDateForSAM date <> "".
Proof. unfold formatDateForSAM. apply append_nonempty. Qed.

Lemma or_else_nonempty (o : option string) (d : string) : d <> "" -> or_else o d <> "".
Proof.
  intros Hd. unfold or_else. destruct (or_undefined o) as [v|] eqn:Ho; [|exact Hd].
  now apply or_undefined_Some in Ho.
Qed.

Lemma unusable_date_None `{E : Env} (o : option string) :
  unusable_date o -> normalizeDate o = None.
Proof.
  unfold unusable_date, normalizeDate. destruct (or_undefined o) as [d|]; [|reflexivity].
  intros (-> & -> & ->). reflexivity.
Qed.

(** X6. The posting window always goes upstream. Every query to the
    registry carries a [postedFrom] and a [postedTo], each with a single
    value that is not empty; a start or end date that the request lacks,
    or that is in neither format and not a date for the runtime, is
    replaced without an error by the default: thirty days before today,
    and today. *)
Theorem posted_window_always_sent `{E : Env} (sp : list (string * string)) (today : JSDate) :
  exists from to,
    (forall v, In ("postedFrom", v) (query_params (build_filters sp today)) <-> v = from)
    /\ (forall v, In ("postedTo", v) (query_params (build_filters sp today)) <-> v = to)
    /\ from <> "" /\ to <> ""
    /\ (unusable_date (params_get sp "startDate") ->
        from = formatDateForSAM (Date_setDate today (getDate today - 30)))
    /\ (unusable_date (params_get sp "endDate") -> to = formatDateForSAM today).
Proof.
  set (from := or_else (normalizeDate (params_get sp "startDate"))
                 (formatDateForSAM (Date_setDate today (getDate today - 30)))).
  set (to := or_else (normalizeDate (params_get sp "endDate")) (formatDateForSAM today)).
  assert (from <> "") as Hfrom by apply or_else_nonempty, formatDateForSAM_nonempty.
  assert (to <> "") as Hto by apply or_else_nonempty, formatDateForSAM_nonempty.
  assert (forall v, v <> "" -> or_undefined (Some v) = Some v) as Hsome
      by (intros [|c v] Hv; [congruence|reflexivity]).
  exists from, to. repeat split; try assumption.
  - rewrite query_params_slots, In_flat_map_present. unfold upstream_slots.
    cbn [build_filters Filters.startDate In]. fold from. rewrite (Hsome from Hfrom).
    intros Hin.
    repeat match goal with
           | H : _ \/ _ |- _ => destruct H as [H|H]
           | H : False |- _ => destruct H
           end; try discriminate.
    now injection Hin as <-.
  - intros ->. rewrite query_params_slots, In_flat_map_present. unfold upstream_slots.
    cbn [build_filters Filters.startDate In]. fold from. rewrite (Hsome from Hfrom).
    right. now left.
  - rewrite query_params_slots, In_flat_map_present. unfold upstream_slots.
    cbn [build_filters Filters.endDate In]. fold to. rewrite (Hsome to Hto).
    intros Hin.
    repeat match goal with
           | H : _ \/ _ |- _ => destruct H as [H|H]
           | H : False |- _ => destruct H
           end; try discriminate.
    now injection Hin as <-.
  - intros ->. rewrite query_params_slots, In_flat_map_present. unfold upstream_slots.
    cbn [build_filters Filters.endDate In]. fold to. rewrite (Hsome to Hto).
    do 2 right. now left.
  - intros Hun. subst from. now rewrite (unusable_date_None _ Hun).
  - intros Hun. subst to. now rewrite (unusable_date_None _ Hun).
Qed.

(** ** The handler: what a request leaves behind *)

(** The cached search of the registry touches the page store, the clock and
    the count of registry calls, nothing else. *)
Lemma searchSAMOpportunities_keeps `{E : Env} (filters : Filters.t) (samApiKey : string)
    (s : State) :
  indexed (snd (searchSAMOpportunities filters samApiKey s)) = indexed s
  /\ embeddingCache (snd (searchSAMOpportunities filters samApiKey s)) = embeddingCache s
  /\ embedCalls (snd (searchSAMOpportunities filters samApiKey s)) = embedCalls s
  /\ samRateLimitMap (snd (searchSAMOpportunities filters samApiKey s)) = samRateLimitMap s
  /\ (ticks s <= ticks (snd (searchSAMOpportunities filters samApiKey s)))%nat.
Proof.
  rewrite searchSAMOpportunities_run. cbn zeta.
  pose proof (fetchOpportunities_state filters samApiKey (set_ticks S s)) as Hfetch.
  destruct (pageStore s !! _) as [entry|]; [destruct (_ <? _)%Z; [cbn; auto 10|]|];
    destruct (fetchOpportunities filters samApiKey (set_ticks S s)) as [[e|l] s1];
    cbn [snd] in *; subst s1; cbn; auto 10.
Qed.

(** What a fresh search leaves behind. *)
Lemma search_fresh_effect `{E : Env} (req : NextRequest) (filters : Filters.t)
    (samApiKey : string) (sx : State) :
  match search_fresh req filters samApiKey sx with
  | (inl e, s1) =>
      indexed s1 = indexed sx /\ searchResultsCache s1 = searchResultsCache sx
      /\ embeddingCache s1 = embeddingCache sx /\ embedCalls s1 = embedCalls sx
      /\ samRateLimitMap s1 = samRateLimitMap sx
  | (inr r, s1) =>
      exists opps final n,
        r = mkResponse (success_body (build_response filters opps final) (clock (S n))) 200
        /\ indexed s1 = (rev (firstn 10 opps) ++ indexed sx)%list
        /\ searchResultsCache s1 =
             <[JSON_stringify filters :=
                 mkCacheEntry (build_response filters opps final) (clock n)]>
               (searchResultsCache sx)
        /\ samRateLimitMap s1 = samRateLimitMap sx
        /\ (ticks sx <= n)%nat /\ ticks s1 = S (S n)
  end.
Proof.
  pose proof (search_fresh_run req filters samApiKey sx) as Hrun.
  pose proof (searchSAMOpportunities_keeps filters samApiKey sx)
    as (Hidx & Hemb & Hcalls & Hrate & Hticks).
  pose proof (searchSAMOpportunities_cache filters samApiKey sx) as Hcache.
  destruct (searchSAMOpportunities filters samApiKey sx) as [[e|opps] s1]; cbn [snd] in *.
  - rewrite Hrun. auto.
  - destruct Hrun as (final & s2 & Hfinal & ->).
    pose proof (finalOpportunities_frame req opps
                  (set_indexed (fun l => (rev (firstn 10 opps) ++ l)%list) s1)) as Hframe.
    rewrite Hfinal in Hframe. cbn [snd] in Hframe.
    destruct Hframe as (Hr2 & Hc2 & _ & Hi2 & Ht2 & _). cbn in Hr2, Hc2, Hi2, Ht2.
    exists opps, final, (ticks s2). cbn.
    rewrite Hc2, Hcache, Hi2, Hidx, Hr2, Hrate, Ht2. repeat split; try reflexivity. exact Hticks.
Qed.

(** X7. A rejected request leaves no trace. When the client's window is
    still open and its count has reached the ceiling, the handler answers
    429 and changes nothing but the clock reading: the count and the start
    of the window stay as they were (rejections do not prolong the block),
    no cache is touched and no network call is made. *)
Theorem rejected_request_inert `{E : Env} (req : NextRequest) (s : State) (entry : RateEntry) :
  samRateLimitMap s !! clientIp req = Some entry ->
  (clock (ticks s) - timestamp entry <= SAM_RATE_LIMIT_WINDOW)%Z ->
  (SAM_RATE_LIMIT_MAX_REQUESTS <= count entry)%Z ->
  GET req s = (inr rate_limited, set_ticks S s).
Proof.
  intros Hentry Hwindow Hcount.
  destruct (GET_run req s) as (b & s0 & Hcheck & _ & _ & _ & _ & _ & ->).
  rewrite checkSAMRateLimit_run in Hcheck. cbn zeta in Hcheck. rewrite Hentry in Hcheck.
  replace (SAM_RATE_LIMIT_WINDOW <? clock (ticks s) - timestamp entry)%Z with false in Hcheck
    by (symmetry; apply Z.ltb_ge; exact Hwindow).
  replace (SAM_RATE_LIMIT_MAX_REQUESTS <=? count entry)%Z with true in Hcheck
    by (symmetry; apply Z.leb_le; exact Hcount).
  injection Hcheck as <- <-. reflexivity.
Qed.

Lemma rejected_request_inert_witness :
  GET (E:=down_env) (demo_request []) exhausted = (inr rate_limited, set_ticks S exhausted).
Proof.
  apply (rejected_request_inert (E:=down_env) (demo_request []) exhausted
           (mkRate 100 (demo_clock 0)));
    [reflexivity|vm_compute; discriminate|vm_compute; discriminate].
Defined.

(** X8. Validation comes after the limiter. A request without an API key
    (absent or empty) is answered by the limiter alone: 429 when the
    limiter rejects it, 400 otherwise, and the state it leaves is the one
    the limiter leaves, so the request counts against the client's window
    although nothing was searched. *)
Theorem keyless_request_counts `{E : Env} (req : NextRequest) (s : State) :
  or_undefined (params_get (searchParams req) "samApiKey") = None ->
  exists allowed s0,
    checkSAMRateLimit req s = (inr allowed, s0)
    /\ GET req s = (inr (if allowed : bool then key_required else rate_limited), s0).
Proof.
  intros Hkey.
  destruct (GET_run req s) as (b & s0 & Hcheck & _ & _ & _ & _ & _ & ->).
  exists b, s0. split; [exact Hcheck|]. rewrite Hkey. now destruct b.
Qed.

Lemma keyless_request_counts_witness :
  exists allowed s0,
    checkSAMRateLimit (E:=down_env) (mkRequest [] [("q", "road")]) init = (inr allowed, s0)
    /\ GET (E:=down_env) (mkRequest [] [("q", "road")]) init
       = (inr (if allowed : bool then key_required else rate_limited), s0).
Proof.
  apply (keyless_request_counts (E:=down_env) (mkRequest [] [("q", "road")]) init).
  reflexivity.
Defined.

(** The handler, path by path: the limiter, the key, the results cache,
    the fresh search. *)
Lemma GET_paths `{E : Env} (req : NextRequest) (s : State) :
  exists allowed m,
    let s0 := mkState m (embeddingCache s) (searchResultsCache s) (pageStore s)
                      (indexed s) (S (ticks s)) (samCalls s) (embedCalls s) in
    checkSAMRateLimit req s = (inr allowed, s0)
    /\ GET req s =
         if allowed : bool then
           match or_undefined (params_get (searchParams req) "samApiKey") with
           | None => (inr key_required, s0)
           | Some samApiKey =>
               match searchResultsCache s !! JSON_stringify (filters_of req s) with
               | Some c =>
                   if (clock (2 + ticks s) - cachedAt c <? CACHE_DURATION)%Z
                   then (inr (mkResponse (cached_body (data c) (clock (3 + ticks s))) 200),
                         set_ticks S (set_ticks S (set_ticks S s0)))
                   else settle (search_fresh req (filters_of req s) samApiKey
                                  (set_ticks S (set_ticks S s0)))
               | None =>
                   settle (search_fresh req (filters_of req s) samApiKey (set_ticks S s0))
               end
           end
         else (inr rate_limited, s0).
Proof.
  destruct (checkSAMRateLimit_frame req s) as (b & m & Hcheck & _).
  exists b, m. cbn zeta. split; [exact Hcheck|].
  destruct (GET_run req s) as (b' & s0 & Hcheck' & _ & _ & _ & _ & _ & ->).
  rewrite Hcheck in Hcheck'. injection Hcheck' as <- <-.
  destruct b; [|reflexivity].
  destruct (or_undefined (params_get (searchParams req) "samApiKey")) as [k|]; [|reflexivity].
  rewrite search_run. cbn zeta. cbn [ticks searchResultsCache]. fold (filters_of req s).
  destruct (searchResultsCache s !! JSON_stringify (filters_of req s)) as [c|];
    [destruct (_ <? CACHE_DURATION)%Z|]; reflexivity.
Qed.


(** X10. A fresh answer is replayed. After a request was answered by a
    fresh search, a request with the same filters (whatever its client,
    its API key, its [semantic] flag and its embedding key) whose cache
    check comes less than five minutes after the first request arrived is
    answered from the results cache: status 200, [cached: true] and the
    data of the first answer, without a call to the registry or to an
    embedding endpoint and without a change to any cache. The clock is
    assumed not to run backwards. *)
Theorem fresh_answer_replayed `{E : Env} (req req' : NextRequest) (s s1 : State)
    (first : NextResponse) :
  (forall i j, (i <= j)%nat -> (clock i <= clock j)%Z) ->
  GET req s = (inr first, s1) ->
  fresh_success first ->
  fst (checkSAMRateLimit req' s1) = inr true ->
  opt_truthy (params_get (searchParams req') "samApiKey") = true ->
  JSON_stringify (filters_of req' s1) = JSON_stringify (filters_of req s) ->
  (clock (2 + ticks s1) - clock (ticks s) < CACHE_DURATION)%Z ->
  exists d t1 s2,
    body first = success_body d t1
    /\ GET req' s1 = (inr (mkResponse (cached_body d (clock (3 + ticks s1))) 200), s2)
    /\ samCalls s2 = samCalls s1 /\ embedCalls s2 = embedCalls s1
    /\ searchResultsCache s2 = searchResultsCache s1 /\ pageStore s2 = pageStore s1
    /\ embeddingCache s2 = embeddingCache s1 /\ indexed s2 = indexed s1.
Proof.
  intros Hmono Hfirst [Hstatus Hfresh] Hadmitted Hkey Hsame Hage.
  (* the first request stored its answer *)
  assert (exists d t1 n,
            body first = success_body d t1
            /\ searchResultsCache s1 !! JSON_stringify (filters_of req s)
               = Some (mkCacheEntry d (clock n))
            /\ (ticks s <= n)%nat) as (d & t1 & n & Hbody & Hentry & Hn).
  { destruct (GET_paths req s) as (b & m & _ & HGET). rewrite HGET in Hfirst. clear HGET.
    assert (forall k sx,
              (ticks s <= ticks sx)%nat ->
              settle (search_fresh req (filters_of req s) k sx) = (inr first, s1) ->
              exists d t1 n,
                body first = success_body d t1
                /\ searchResultsCache s1 !! JSON_stringify (filters_of req s)
                   = Some (mkCacheEntry d (clock n))
                /\ (ticks s <= n)%nat) as Hfrom.
    { intros k sx Hsx Hrun.
      pose proof (search_fresh_effect req (filters_of req s) k sx) as Heff.
      destruct (search_fresh req (filters_of req s) k sx) as [[e|r] sy]; unfold settle in Hrun.
      - injection Hrun as <- _. discriminate.
      - injection Hrun as -> ->. destruct Heff as (opps & final & n & -> & _ & Hc & _ & Hle & _).
        eexists; eexists; exists n. split; [reflexivity|].
        split; [rewrite Hc; apply lookup_insert_eq|lia]. }
    destruct b; [|injection Hfirst as <- _; discriminate].
    destruct (or_undefined (params_get (searchParams req) "samApiKey")) as [k|];
      [|injection Hfirst as <- _; discriminate].
    destruct (searchResultsCache s !! JSON_stringify (filters_of req s)) as [c|];
      [destruct (_ <? CACHE_DURATION)%Z|].
    - injection Hfirst as <- _. discriminate.
    - eapply Hfrom; [|exact Hfirst]. cbn. lia.
    - eapply Hfrom; [|exact Hfirst]. cbn. lia. }
  exists d, t1.
  (* the second request finds it *)
  destruct (GET_paths req' s1) as (b & m & Hcheck & HGET). cbn zeta in Hcheck.
  rewrite Hcheck in Hadmitted. cbn [fst] in Hadmitted. injection Hadmitted as ->.
  assert (exists k, or_undefined (params_get (searchParams req') "samApiKey") = Some k)
    as (k & Hk).
  { unfold or_undefined. rewrite Hkey. destruct (params_get _ _) as [k|]; [eauto|discriminate]. }
  rewrite Hk, Hsame, Hentry in HGET. cbn [cachedAt data] in HGET.
  replace (clock (2 + ticks s1) - clock n <? CACHE_DURATION)%Z with true in HGET.
  - eexists. split; [exact Hbody|]. split; [exact HGET|]. cbn. repeat split.
  - symmetry. apply Z.ltb_lt. pose proof (Hmono _ _ Hn). lia.
Qed.

Lemma fresh_answer_replayed_witness :
  exists d t1 s2,
    replay_first = (inr (mkResponse (success_body d t1) 200), snd replay_first)
    /\ GET (E:=ranking_env) replay_again (snd replay_first)
       = (inr (mkResponse (cached_body d (@clock ranking_env (3 + ticks (snd replay_first))))
                          200), s2)
    /\ Resp.totalRecords d = ofZ 3.
Proof.
  assert (forall i j, (i <= j)%nat ->
                      (@clock ranking_env i <= @clock ranking_env j)%Z) as Hmono
      by (intros i j Hij; cbn; unfold demo_clock; lia).
  destruct (fresh_answer_replayed (E:=ranking_env) replay_request replay_again init
              (snd replay_first)
              (match fst replay_first with inr r => r | inl _ => rate_limited end)
              Hmono eq_refl (conj eq_refl eq_refl) eq_refl eq_refl eq_refl eq_refl)
    as (d & t1 & s2 & Hbody & HGET & _).
  exists d, t1, s2. cbn in Hbody. injection Hbody as <- <-.
  split; [reflexivity|]. split; [exact HGET|reflexivity].
Defined.

(** ** Semantic search *)



Lemma StronglySorted_split {A} (R : A -> A -> Prop) (n : nat) (l : list A) :
  StronglySorted R l -> forall a b, In a (firstn n l) -> In b (skipn n l) -> R a b.
Proof.
  intros Hsorted. revert n. induction Hsorted as [|x l Hl IH Hx]; intros n a b.
  - rewrite firstn_nil. intros [].
  - destruct n as [|n]; cbn [firstn skipn]; [intros []|].
    intros [<-|Ha] Hb.
    + rewrite List.Forall_forall in Hx. apply Hx.
      rewrite <- (firstn_skipn n l). apply in_or_app. now right.
    + now apply (IH n).
Qed.

(** X12. The cut keeps the best. When reranking runs to completion, the
    listings it returns together with the ones it drops are a rearrangement
    of the scored candidates (none invented, none doubled); every dropped
    listing scores no higher than every returned one; and with at most 25
    candidates none is dropped. *)
Theorem rerank_keeps_best `{E : Env}
    (opps : list Opp.t) (query provider apiKey : string) (s s' : State) (scored : list Opp.t) :
  trim_is_empty query = false ->
  opportunitiesWithScores opps query provider apiKey s = (inr scored, s') ->
  exists ranked dropped,
    performSemanticSearch opps query provider apiKey s = (inr ranked, s')
    /\ Permutation (ranked ++ dropped) scored
    /\ (forall a b, In a ranked -> In b dropped -> desc a b)
    /\ ((length opps <= 25)%nat -> dropped = []).
Proof.
  intros Hquery Hscored.
  exists (firstn 25 (Array_sort by_relevance scored)), (skipn 25 (Array_sort by_relevance scored)).
  split; [rewrite performSemanticSearch_run, Hquery, Hscored; reflexivity|].
  split; [rewrite firstn_skipn; apply Array_sort_Permutation|].
  split; [apply StronglySorted_split, Array_sort_Sorted|].
  intros Hlen. apply skipn_all2.
  rewrite (Permutation_length (Array_sort_Permutation by_relevance scored)).
  apply opportunitiesWithScores_same, Forall2_length in Hscored. lia.
Qed.

Lemma rerank_keeps_best_witness :
  exists ranked dropped : list Opp.t,
    performSemanticSearch (E:=excess_env) (List.map transform many_listings) "road" "openai" "sk-1"
      init
    = (inr ranked, snd (opportunitiesWithScores (E:=excess_env)
                          (List.map transform many_listings) "road" "openai" "sk-1" init))
    /\ length ranked = 25%nat /\ length dropped = 1%nat.
Proof.
  destruct (rerank_keeps_best (E:=excess_env) (List.map transform many_listings)
              "road" "openai" "sk-1" init
              (snd (opportunitiesWithScores (E:=excess_env)
                      (List.map transform many_listings) "road" "openai" "sk-1" init))
              (match fst (opportunitiesWithScores (E:=excess_env)
                            (List.map transform many_listings) "road" "openai" "sk-1" init) with
               | inr l => l
               | inl _ => []
               end)
              eq_refl)
    as (ranked & dropped & Hrun & Hperm & _).
  { vm_compute. reflexivity. }
  exists ranked, dropped. split; [exact Hrun|].
  apply Permutation_length in Hperm. rewrite length_app in Hperm.
  assert (length ranked = 25%nat) as Hranked.
  { rewrite performSemanticSearch_run in Hrun. vm_compute in Hrun.
    injection Hrun as <-. reflexivity. }
  split; [exact Hranked|]. rewrite Hranked in Hperm.
  match type of Hperm with
  | _ = length ?l => assert (length l = 26%nat) as Hall by (vm_compute; reflexivity)
  end.
  rewrite Hall in Hperm. lia.
Defined.

(** ** The embedding cache *)

(** X13. A failure caches nothing. When the embedding generator throws,
    the pair was not cached and the cache is as it was, so the next call
    tries again; the endpoint was called at most once. A provider other
    than [openai] and [huggingface] is refused with its name in the
    message and without any network call. *)
Theorem failed_embedding_not_cached `{E : Env}
    (text provider apiKey : string) (s s' : State) (e : exn) :
  generateEmbeddings text provider apiKey s = (inl e, s') ->
  embeddingCache s' = embeddingCache s
  /\ embeddingCache s !! (provider +:+ ":" +:+ text) = None
  /\ (embedCalls s' <= S (embedCalls s))%nat
  /\ (provider <> "openai" -> provider <> "huggingface" ->
      e = JsError ("Embedding provider " +:+ provider +:+ " not supported") /\ s' = s).
Proof.
  intros Hrun. unfold generateEmbeddings, bind, get in Hrun.
  destruct (embeddingCache s !! (provider +:+ ":" +:+ text)) as [v|] eqn:Hlook; [discriminate|].
  destruct (String.eqb_spec provider "openai") as [->|Hopenai].
  - pose proof (generateOpenAIEmbeddings_state text apiKey s) as Hs.
    destruct (generateOpenAIEmbeddings text apiKey s) as [[e0|v] s1]; cbn in Hs; subst s1;
      [|discriminate].
    injection Hrun as <- <-.
    split; [reflexivity|split; [reflexivity|split; [cbn; lia|intros Hn; congruence]]].
  - destruct (String.eqb_spec provider "huggingface") as [->|Hhf].
    + pose proof (generateHuggingFaceEmbeddings_state text apiKey s) as Hs.
      destruct (generateHuggingFaceEmbeddings text apiKey s) as [[e0|v] s1]; cbn in Hs; subst s1;
        [|discriminate].
      injection Hrun as <- <-.
      split; [reflexivity|split; [reflexivity|split; [cbn; lia|intros _ Hn; congruence]]].
    + unfold throw in Hrun. injection Hrun as <- <-.
      split; [reflexivity|split; [reflexivity|split; [lia|intros _ _; split; reflexivity]]].
Qed.

Lemma failed_embedding_not_cached_witness :
  embeddingCache (snd (generateEmbeddings (E:=down_env) "road" "cohere" "sk-1" init))
  = embeddingCache init
  /\ generateEmbeddings (E:=down_env) "road" "cohere" "sk-1" init
     = (inl (JsError "Embedding provider cohere not supported"), init).
Proof.
  destruct (failed_embedding_not_cached (E:=down_env) "road" "cohere" "sk-1" init init
              (JsError "Embedding provider cohere not supported") eq_refl)
    as (Hcache & _ & _ & _).
  split; [exact Hcache|reflexivity].
Defined.

(** X14. The key of the embedding cache is the text [provider:text], and
    the cache is consulted before the provider is looked at. After a call
    has returned a vector, any call whose provider and text spell the same
    key gets that vector from the cache with no network call, whatever its
    API key, also when the two pairs differ and when its provider is not a
    supported one. *)
Theorem embedding_key_collision `{E : Env}
    (text provider apiKey text' provider' apiKey' : string) (s s1 : State) (v : list number) :
  generateEmbeddings text provider apiKey s = (inr v, s1) ->
  provider' +:+ ":" +:+ text' = provider +:+ ":" +:+ text ->
  generateEmbeddings text' provider' apiKey' s1 = (inr v, s1).
Proof.
  intros Hfirst Hkey.
  assert (embeddingCache s1 !! (provider +:+ ":" +:+ text) = Some v) as Hcached.
  { pose proof (generateEmbeddings_run text provider apiKey s) as Hrun. cbn zeta in Hrun.
    destruct (embeddingCache s !! (provider +:+ ":" +:+ text)) as [v0|] eqn:Hlook.
    - rewrite Hrun in Hfirst. injection Hfirst as <- <-. exact Hlook.
    - destruct Hrun as [(v0 & Hrun) | [(e & Hrun) | (e & Hrun)]];
        rewrite Hrun in Hfirst; try discriminate.
      injection Hfirst as <- <-. cbn. apply lookup_insert_eq. }
  pose proof (generateEmbeddings_run text' provider' apiKey' s1) as Hrun. cbn zeta in Hrun.
  rewrite Hkey, Hcached in Hrun. exact Hrun.
Qed.

Lemma embedding_key_collision_witness :
  generateEmbeddings (E:=memo_env) "works" "openai:road" "none"
    (snd (generateEmbeddings (E:=memo_env) "road:works" "openai" "sk-1" init))
  = (inr [Fin (3 # 5); Fin (4 # 5)],
     snd (generateEmbeddings (E:=memo_env) "road:works" "openai" "sk-1" init)).
Proof.
  apply (embedding_key_collision (E:=memo_env) "road:works" "openai" "sk-1"
           "works" "openai:road" "none" init); reflexivity.
Defined.

(** ** The cleanup *)

Lemma cleanup_run `{E : Env} (entries : list (string * list number)) (s : State) :
  cleanup entries s =
    (inr tt,
     set_searchResultsCache
       (filter (fun entry => ~ (CACHE_DURATION < clock (ticks s) - cachedAt (snd entry))%Z))
       (if (1000 <? Z.of_nat (size (embeddingCache s)))%Z
        then set_embeddingCache (fun _ =>
               foldl (fun cache entry => <[fst entry := snd entry]> cache) ∅
                     (skipn (length entries - 500) entries)) (set_ticks S s)
        else set_ticks S s)).
Proof.
  unfold cleanup, bind, Date_now, get, modify, ret. cbn [embeddingCache set_ticks].
  destruct (1000 <? Z.of_nat (size (embeddingCache s)))%Z; reflexivity.
Qed.

(** X15. The sweep of the results cache is invisible to requests. After the
    cleanup every remaining answer is at most five minutes old, and for
    every later moment an answer is live after the cleanup exactly when it
    was live before: the sweep removes only what no request would be served
    from any more. It calls nothing and leaves the limiter, the page store
    and the vector store alone. *)
Theorem cleanup_results_sweep `{E : Env} (entries : list (string * list number)) (s : State) :
  exists s',
    cleanup entries s = (inr tt, s')
    /\ (forall key c, searchResultsCache s' !! key = Some c ->
                      searchResultsCache s !! key = Some c
                      /\ (clock (ticks s) - cachedAt c <= CACHE_DURATION)%Z)
    /\ (forall filters later, (clock (ticks s) <= later)%Z ->
                              results_hit s' filters later = results_hit s filters later)
    /\ samRateLimitMap s' = samRateLimitMap s /\ pageStore s' = pageStore s
    /\ indexed s' = indexed s /\ samCalls s' = samCalls s /\ embedCalls s' = embedCalls s.
Proof.
  eexists. split; [apply cleanup_run|].
  set (now := clock (ticks s)).
  assert (forall key,
            searchResultsCache
              (set_searchResultsCache
                 (filter (fun entry => ~ (CACHE_DURATION < now - cachedAt (snd entry))%Z))
                 (if (1000 <? Z.of_nat (size (embeddingCache s)))%Z
                  then set_embeddingCache (fun _ =>
                         foldl (fun cache entry => <[fst entry := snd entry]> cache) ∅
                               (skipn (length entries - 500) entries)) (set_ticks S s)
                  else set_ticks S s)) !! key
            = match searchResultsCache s !! key with
              | Some c => if decide (CACHE_DURATION < now - cachedAt c)%Z then None else Some c
              | None => None
              end) as Hlook.
  { intros key.
    assert (forall sx, searchResultsCache sx = searchResultsCache s ->
              searchResultsCache
                (set_searchResultsCache
                   (filter (fun entry => ~ (CACHE_DURATION < now - cachedAt (snd entry))%Z)) sx)
              !! key
              = match searchResultsCache s !! key with
                | Some c => if decide (CACHE_DURATION < now - cachedAt c)%Z then None else Some c
                | None => None
                end) as Hany.
    { intros sx Hsx. cbn [searchResultsCache set_searchResultsCache]. rewrite Hsx.
      rewrite map_lookup_filter.
      destruct (searchResultsCache s !! key) as [c|]; [|reflexivity].
      cbn. unfold guard. cbn.
      destruct (decide (CACHE_DURATION < now - cachedAt c)%Z) as [Hold|Hnew];
        destruct (decide (~ (CACHE_DURATION < now - cachedAt c)%Z)) as [Hkeep|Hdrop];
        cbn; try reflexivity; exfalso; tauto. }
    destruct (1000 <? Z.of_nat (size (embeddingCache s)))%Z; apply Hany; reflexivity. }
  split; [|split].
  - intros key c. rewrite Hlook.
    destruct (searchResultsCache s !! key) as [c0|]; [|discriminate].
    destruct (decide (CACHE_DURATION < now - cachedAt c0)%Z); [discriminate|].
    intros [= <-]. split; [reflexivity|lia].
  - intros filters later Hlater. unfold results_hit. rewrite Hlook.
    destruct (searchResultsCache s !! JSON_stringify filters) as [c|]; [|reflexivity].
    destruct (decide (CACHE_DURATION < now - cachedAt c)%Z); [|reflexivity].
    symmetry. apply Z.ltb_ge. lia.
  - destruct (1000 <? Z.of_nat (size (embeddingCache s)))%Z; cbn; repeat split.
Qed.





(** * Properties of the chat route *)

Lemma chat_bind_inr {A B} (m : Chat.M A) (k : A -> Chat.M B) s a s' :
  m s = (inr a, s') -> Chat.bind m k s = k a s'.
Proof. intros H. unfold Chat.bind. now rewrite H. Qed.

Lemma chat_bind_inl {A B} (m : Chat.M A) (k : A -> Chat.M B) s e s' :
  m s = (inl e, s') -> Chat.bind m k s = (inl e, s').
Proof. intros H. unfold Chat.bind. now rewrite H. Qed.

(** The chat limiter, written out. *)
Lemma chat_checkRateLimit_run `{W : Chat.World} (req : NextRequest) (s : Chat.State) :
  Chat.checkRateLimit req s =
    let c := clientIp req in
    let now := Chat.clock (Chat.ticks s) in
    let s1 := Chat.mkState (Chat.rateLimitMap s) (S (Chat.ticks s)) (Chat.calls s) in
    match Chat.rateLimitMap s !! c with
    | None => (inr true, Chat.set_rateLimitMap <[c := mkRate 1 now]> s1)
    | Some e =>
        if (Chat.RATE_LIMIT_WINDOW <? now - timestamp e)%Z
        then (inr true, Chat.set_rateLimitMap <[c := mkRate 1 now]> s1)
        else if (Chat.RATE_LIMIT_MAX_REQUESTS <=? count e)%Z
             then (inr false, s1)
             else (inr true,
                   Chat.set_rateLimitMap <[c := mkRate (count e + 1) (timestamp e)]> s1)
    end.
Proof.
  cbn zeta. unfold Chat.checkRateLimit, Chat.bind, Chat.Date_now, Chat.get.
  cbn [Chat.rateLimitMap].
  destruct (Chat.rateLimitMap s !! clientIp req) as [e|]; [|reflexivity].
  destruct (_ <? _)%Z; [reflexivity|]. destruct (_ <=? _)%Z; reflexivity.
Qed.

Lemma check_each_cons `{W : Chat.World} (req : NextRequest) (rest : list NextRequest)
    (s : Chat.State) :
  check_each (req :: rest) s =
    match Chat.checkRateLimit req s with
    | (inr verdict, s1) =>
        match check_each rest s1 with
        | (inr others, s2) => (inr (verdict :: others), s2)
        | (inl e, s2) => (inl e, s2)
        end
    | (inl e, s1) => (inl e, s1)
    end.
Proof.
  cbn [check_each]. unfold Chat.bind at 1.
  destruct (Chat.checkRateLimit req s) as [[e|v] s1]; [reflexivity|].
  unfold Chat.bind, Chat.ret. destruct (check_each rest s1) as [[e|o] s2]; reflexivity.
Qed.

(** Inside an open window the limiter admits until the count is 20. *)
Lemma check_each_in_window `{W : Chat.World} (req : NextRequest) (n : nat) :
  forall (s : Chat.State) (k t0 : Z),
    Chat.rateLimitMap s !! clientIp req = Some (mkRate k t0) ->
    (0 <= k <= 20)%Z ->
    (forall i, (i < n)%nat ->
               (Chat.clock (Chat.ticks s + i) - t0 <= Chat.RATE_LIMIT_WINDOW)%Z) ->
    exists s',
      check_each (repeat req n) s
      = (inr (repeat true (Nat.min n (Z.to_nat (20 - k)))
                ++ repeat false (n - Z.to_nat (20 - k)))%list, s').
Proof.
  induction n as [|n IH]; intros s k t0 Hentry Hk Hwin.
  - eexists. reflexivity.
  - cbn [repeat]. rewrite check_each_cons, chat_checkRateLimit_run. cbn zeta.
    rewrite Hentry. cbn [timestamp count].
    pose proof (Hwin 0%nat ltac:(lia)) as H0. rewrite Nat.add_0_r in H0.
    replace (Chat.RATE_LIMIT_WINDOW <? Chat.clock (Chat.ticks s) - t0)%Z with false
      by (symmetry; apply Z.ltb_ge; exact H0).
    unfold Chat.RATE_LIMIT_MAX_REQUESTS.
    destruct (20 <=? k)%Z eqn:Hfull.
    + apply Z.leb_le in Hfull. assert (k = 20%Z) as -> by lia.
      destruct (IH (Chat.mkState (Chat.rateLimitMap s) (S (Chat.ticks s)) (Chat.calls s))
                   20%Z t0) as (s' & ->).
      * exact Hentry.
      * lia.
      * intros i Hi. cbn [Chat.ticks].
        replace (S (Chat.ticks s) + i)%nat with (Chat.ticks s + S i)%nat by lia.
        apply Hwin. lia.
      * exists s'. replace (Z.to_nat (20 - 20)) with 0%nat by lia.
        rewrite !Nat.min_0_r, !Nat.sub_0_r. reflexivity.
    + apply Z.leb_gt in Hfull.
      destruct (IH (Chat.set_rateLimitMap <[clientIp req := mkRate (k + 1) t0]>
                      (Chat.mkState (Chat.rateLimitMap s) (S (Chat.ticks s)) (Chat.calls s)))
                   (k + 1)%Z t0) as (s' & ->).
      * cbn. apply lookup_insert_eq.
      * lia.
      * intros i Hi. cbn [Chat.ticks Chat.set_rateLimitMap].
        replace (S (Chat.ticks s) + i)%nat with (Chat.ticks s + S i)%nat by lia.
        apply Hwin. lia.
      * exists s'. replace (Z.to_nat (20 - k)) with (S (Z.to_nat (20 - (k + 1)))) by lia.
        cbn [Nat.min Nat.sub repeat app]. reflexivity.
Qed.

(** X17. The chat limiter admits 20 requests a minute. Of the requests of
    a client without an entry that all arrive within 60 seconds of the
    first, exactly the first 20 are admitted and every later one is
    rejected: the ceiling of the chat route is 20, not the 100 of the
    search route. *)
Theorem chat_rate_limit_ceiling `{W : Chat.World} (req : NextRequest) (n : nat)
    (s : Chat.State) :
  Chat.rateLimitMap s !! clientIp req = None ->
  (forall i, (i < n)%nat ->
             (Chat.clock (Chat.ticks s + i) - Chat.clock (Chat.ticks s) <= 60000)%Z) ->
  exists s',
    check_each (repeat req n) s
    = (inr (repeat true (Nat.min n 20) ++ repeat false (n - 20))%list, s').
Proof.
  intros Hnew Hwin. destruct n as [|n]; [eexists; reflexivity|].
  cbn [repeat]. rewrite check_each_cons, chat_checkRateLimit_run. cbn zeta. rewrite Hnew.
  destruct (check_each_in_window req n
              (Chat.set_rateLimitMap
                 <[clientIp req := mkRate 1 (Chat.clock (Chat.ticks s))]>
                 (Chat.mkState (Chat.rateLimitMap s) (S (Chat.ticks s)) (Chat.calls s)))
              1%Z (Chat.clock (Chat.ticks s))) as (s' & ->).
  - cbn. apply lookup_insert_eq.
  - lia.
  - intros i Hi. cbn [Chat.ticks Chat.set_rateLimitMap].
    replace (S (Chat.ticks s) + i)%nat with (Chat.ticks s + S i)%nat by lia.
    apply Hwin. lia.
  - exists s'. replace (Z.to_nat (20 - 1)) with 19%nat by lia.
    change (Nat.min (S n) 20) with (S (Nat.min n 19)).
    change (S n - 20)%nat with (n - 19)%nat. reflexivity.
Qed.

Lemma chat_rate_limit_ceiling_witness :
  exists s',
    check_each (W:=chat_world) (repeat (chat_request "sk-1") 23) chat_init
    = (inr (repeat true 20 ++ repeat false 3)%list, s').
Proof.
  apply (chat_rate_limit_ceiling (W:=chat_world) (chat_request "sk-1") 23 chat_init).
  - reflexivity.
  - intros i Hi. cbn. unfold demo_clock. lia.
Defined.

(** ** Message formats *)

(** X18. A system message of the client never reaches a provider as one.
    For OpenAI it is sent as a user message, for Anthropic it is dropped,
    for Hugging Face it is printed as a turn of the assistant: each format
    gives the same result as the conversation in which that message has
    the role [user], is absent, and has the role [assistant]. *)
Theorem client_system_message `{W : Chat.World} (text : string) (before after : list Chat.Msg.t) :
  Chat.formatOpenAIMessages (before ++ Chat.Msg.mk "system" text :: after)%list
  = Chat.formatOpenAIMessages (before ++ Chat.Msg.mk "user" text :: after)%list
  /\ Chat.formatAnthropicMessages (before ++ Chat.Msg.mk "system" text :: after)%list
     = Chat.formatAnthropicMessages (before ++ after)%list
  /\ Chat.formatHuggingFaceMessages (before ++ Chat.Msg.mk "system" text :: after)%list
     = Chat.formatHuggingFaceMessages (before ++ Chat.Msg.mk "assistant" text :: after)%list.
Proof.
  split; [|split].
  - unfold Chat.formatOpenAIMessages. now rewrite !List.map_app.
  - unfold Chat.formatAnthropicMessages. now rewrite !List.filter_app.
  - unfold Chat.formatHuggingFaceMessages. now rewrite !List.map_app.
Qed.


(** ** The chat handler *)

(** The handler once model and messages are there, written out. *)
Lemma chat_run `{W : Chat.World} (req : NextRequest) (model : string)
    (messages : list Chat.Msg.t) (context : option Chat.Context.t)
    (companyProfile : option string) (s : Chat.State) :
  Chat.chat req model messages context companyProfile s =
    match or_undefined (Some (nth 0 (split_on ":" model) "")),
          or_undefined (nth_error (split_on ":" model) 1) with
    | Some provider, Some modelName =>
        if negb (Chat.supported provider) then (inr Chat.invalid_provider, s)
        else
          match or_undefined (Chat.resolveApiKey req context) with
          | None => (inr Chat.key_required, s)
          | Some apiKey =>
              if match context with Some c => Chat.Context.test c | None => false end
              then (inr Chat.validated, s)
              else
                match Chat.respond provider modelName apiKey messages context companyProfile s
                with
                | (inr response, s1) =>
                    (inr (Chat.mkResponse
                            [("success", Chat.JBool true); ("data", Chat.JReply response);
                             ("timestamp", Chat.JNum (Chat.clock (Chat.ticks s1)))] 200),
                     Chat.mkState (Chat.rateLimitMap s1) (S (Chat.ticks s1)) (Chat.calls s1))
                | (inl e, s1) => (inl e, s1)
                end
          end
    | _, _ => (inr Chat.invalid_format, s)
    end.
Proof.
  unfold Chat.chat.
  destruct (or_undefined (Some (nth 0 (split_on ":" model) ""))) as [provider|];
    [|reflexivity].
  destruct (or_undefined (nth_error (split_on ":" model) 1)) as [modelName|]; [|reflexivity].
  destruct (negb (Chat.supported provider)); [reflexivity|].
  destruct (or_undefined (Chat.resolveApiKey req context)) as [apiKey|]; [|reflexivity].
  destruct (match context with Some c => Chat.Context.test c | None => false end);
    [reflexivity|].
  unfold Chat.bind.
  destruct (Chat.respond provider modelName apiKey messages context companyProfile s)
    as [[e|r] s1]; reflexivity.
Qed.

(** The chat handler, written out. *)
Lemma chat_POST_run `{W : Chat.World} (req : NextRequest) (json : exn + Chat.Body.t)
    (s : Chat.State) :
  exists allowed s0,
    Chat.checkRateLimit req s = (inr allowed, s0)
    /\ Chat.calls s0 = Chat.calls s
    /\ Chat.POST req json s =
         if allowed : bool then
           match
             match json with
             | inl e => (inl e, s0)
             | inr b =>
                 match Chat.Body.model b, Chat.Body.messages b with
                 | Chat.ModelText model, Some messages =>
                     if str_truthy model then
                       Chat.chat req model messages (Chat.Body.context b)
                                 (Chat.Body.companyProfile b) s0
                     else (inr Chat.invalid_request, s0)
                 | Chat.ModelOther, Some _ =>
                     (inl (JsError "model.split is not a function"), s0)
                 | _, _ => (inr Chat.invalid_request, s0)
                 end
             end
           with
           | (inr response, s1) => (inr response, s1)
           | (inl error, s1) =>
               (inr (Chat.failure error (Chat.clock (Chat.ticks s1))),
                Chat.mkState (Chat.rateLimitMap s1) (S (Chat.ticks s1)) (Chat.calls s1))
           end
         else (inr Chat.rate_limited, s0).
Proof.
  assert (exists allowed s0,
            Chat.checkRateLimit req s = (inr allowed, s0) /\ Chat.calls s0 = Chat.calls s)
    as (allowed & s0 & Hcheck & Hcalls).
  { rewrite chat_checkRateLimit_run. cbn zeta.
    destruct (Chat.rateLimitMap s !! clientIp req) as [e|]; [|eauto].
    destruct (_ <? _)%Z; [eauto|]. destruct (_ <=? _)%Z; eauto. }
  exists allowed, s0. split; [exact Hcheck|]. split; [exact Hcalls|].
  unfold Chat.POST. rewrite (chat_bind_inr _ _ _ _ _ Hcheck).
  destruct allowed; [|reflexivity]. cbn [negb]. unfold Chat.try_catch, Chat.bind, Chat.lift.
  destruct json as [e|b]; [reflexivity|].
  destruct (Chat.Body.model b) as [|model|], (Chat.Body.messages b) as [messages|];
    try reflexivity.
  destruct (str_truthy model); [|reflexivity].
  destruct (Chat.chat req model messages _ _ s0) as [[e|r] s1]; reflexivity.
Qed.

(** X20. A refused chat request does nothing but count. When the handler
    answers 429, 400 or 401, the state it leaves is the one that its rate
    limiter leaves: no provider was called and the clock was not read
    again; the refusals for a bad body or a missing key come after the
    limiter and use up the client's quota. *)
Theorem chat_refusal_only_counts `{W : Chat.World} (req : NextRequest)
    (json : exn + Chat.Body.t) (s s' : Chat.State) (response : Chat.Response) :
  Chat.POST req json s = (inr response, s') ->
  Chat.status response = 429%Z \/ Chat.status response = 400%Z
  \/ Chat.status response = 401%Z ->
  exists allowed,
    Chat.checkRateLimit req s = (inr allowed, s') /\ Chat.calls s' = Chat.calls s.
Proof.
  intros Hrun Hstatus.
  destruct (chat_POST_run req json s) as (allowed & s0 & Hcheck & Hcalls & HPOST).
  rewrite HPOST in Hrun. clear HPOST. exists allowed.
  assert (forall r : Chat.Response,
            (@inr exn Chat.Response r, s0) = (inr response, s') ->
            Chat.checkRateLimit req s = (inr allowed, s') /\ Chat.calls s' = Chat.calls s)
    as Hearly.
  { intros r [= <- <-]. auto. }
  assert (forall e s1,
            (@inr exn Chat.Response (Chat.failure e (Chat.clock (Chat.ticks s1))),
             Chat.mkState (Chat.rateLimitMap s1) (S (Chat.ticks s1)) (Chat.calls s1))
            = (inr response, s') ->
            Chat.checkRateLimit req s = (inr allowed, s') /\ Chat.calls s' = Chat.calls s)
    as Hfail.
  { intros e s1 [= <- _]. cbn in Hstatus. lia. }
  destruct allowed; [|now apply (Hearly Chat.rate_limited)].
  destruct json as [e|b]; [now apply (Hfail e s0)|].
  destruct (Chat.Body.model b) as [|model|], (Chat.Body.messages b) as [messages|];
    try (now apply (Hearly Chat.invalid_request));
    try (now eapply Hfail; exact Hrun).
  destruct (str_truthy model); [|now apply (Hearly Chat.invalid_request)].
  rewrite chat_run in Hrun.
  destruct (or_undefined (Some (nth 0 (split_on ":" model) ""))) as [provider|];
    [|now apply (Hearly Chat.invalid_format)].
  destruct (or_undefined (nth_error (split_on ":" model) 1)) as [modelName|];
    [|now apply (Hearly Chat.invalid_format)].
  destruct (negb (Chat.supported provider)); [now apply (Hearly Chat.invalid_provider)|].
  destruct (or_undefined (Chat.resolveApiKey req (Chat.Body.context b))) as [apiKey|];
    [|now apply (Hearly Chat.key_required)].
  destruct (match Chat.Body.context b with Some c => Chat.Context.test c | None => false end).
  - injection Hrun as <- _. cbn in Hstatus. lia.
  - destruct (Chat.respond provider modelName apiKey messages (Chat.Body.context b)
                (Chat.Body.companyProfile b) s0) as [[e|r] s1].
    + now apply (Hfail e s1).
    + injection Hrun as <- _. cbn in Hstatus. lia.
Qed.

Lemma chat_refusal_only_counts_witness :
  exists allowed,
    Chat.checkRateLimit (W:=chat_world) (chat_request "sk-1") chat_init
    = (inr allowed, snd (Chat.POST (W:=chat_world) (chat_request "sk-1")
                           (inr (chat_body "gpt-4o" false)) chat_init))
    /\ Chat.calls (snd (Chat.POST (W:=chat_world) (chat_request "sk-1")
                          (inr (chat_body "gpt-4o" false)) chat_init)) = [].
Proof.
  apply (chat_refusal_only_counts (W:=chat_world) (chat_request "sk-1")
           (inr (chat_body "gpt-4o" false)) chat_init _ Chat.invalid_format).
  - reflexivity.
  - right. left. reflexivity.
Defined.

Lemma drop_prefix_append (p s : string) : drop_prefix p (p +:+ s) = Some s.
Proof. induction p as [|c p IH]; [reflexivity|]. simpl. now rewrite Ascii.eqb_refl. Qed.

Lemma replace_first_prefix (p s : string) : replace_first p (p +:+ s) = s.
Proof.
  destruct p as [|c p]; [destruct s; reflexivity|].
  change (replace_first (String c p) (String c p +:+ s))
    with (match drop_prefix (String c p) (String c p +:+ s) with
          | Some rest => rest
          | None => String c (replace_first (String c p) (p +:+ s))
          end).
  now rewrite drop_prefix_append.
Qed.

Lemma split_on_model (provider modelName : string) :
  contains ":" provider = false -> contains ":" modelName = false ->
  split_on ":" (provider +:+ ":" +:+ modelName) = [provider; modelName].
Proof.
  intros Hp Hm. change (":" +:+ modelName) with (String ":" modelName).
  now rewrite (split_on_append _ _ _ Hp), (split_on_plain _ _ Hm).
Qed.

Lemma supported_no_colon (provider : string) :
  Chat.supported provider = true -> contains ":" provider = false /\ provider <> "".
Proof.
  unfold Chat.supported. cbn [existsb]. rewrite !orb_true_iff, !String.eqb_eq.
  intros [->|[->|[->|Hnone]]]; try discriminate Hnone; split; (reflexivity || discriminate).
Qed.

(** X21. Validation does not test the key. A request in test mode with a
    supported provider, a model name and any API key that is not empty
    (and not the word [server-configured]) is answered 200 with the
    message that the key validation was successful, and no provider is
    contacted: the state is the one the limiter leaves. *)
Theorem test_mode_accepts_any_key `{W : Chat.World} (req : NextRequest) (b : Chat.Body.t)
    (provider modelName key : string) (messages : list Chat.Msg.t) (context : Chat.Context.t)
    (s s0 : Chat.State) :
  Chat.checkRateLimit req s = (inr true, s0) ->
  Chat.Body.model b = Chat.ModelText (provider +:+ ":" +:+ modelName) ->
  Chat.supported provider = true ->
  modelName <> "" -> contains ":" modelName = false ->
  Chat.Body.messages b = Some messages ->
  Chat.Body.context b = Some context ->
  Chat.Context.test context = true ->
  headers_get req "authorization" = Some ("Bearer " +:+ key) ->
  key <> "" -> key <> "server-configured" ->
  Chat.POST req (inr b) s = (inr Chat.validated, s0).
Proof.
  intros Hcheck Hmodel Hsupported Hname Hcolon Hmessages Hcontext Htest Hauth Hkey Hserver.
  destruct (chat_POST_run req (inr b) s) as (allowed & s0' & Hcheck' & _ & ->).
  rewrite Hcheck in Hcheck'. injection Hcheck' as <- <-.
  rewrite Hmodel, Hmessages, Hcontext, chat_run.
  destruct (supported_no_colon provider Hsupported) as [Hp Hpne].
  rewrite (split_on_model provider modelName Hp Hcolon). cbn [nth nth_error].
  assert (str_truthy (provider +:+ ":" +:+ modelName) = true) as ->
      by (destruct provider; reflexivity).
  assert (forall v, v <> "" -> or_undefined (Some v) = Some v) as Hsome
      by (intros [|c v] Hv; [congruence|reflexivity]).
  rewrite (Hsome provider Hpne), (Hsome modelName Hname), Hsupported. cbn [negb].
  assert (Chat.resolveApiKey req (Some context) = Some key) as ->.
  { unfold Chat.resolveApiKey, Chat.or_key. rewrite Hauth. cbn [option_map].
    rewrite replace_first_prefix, (Hsome key Hkey).
    destruct (String.eqb_spec key "server-configured"); [contradiction|reflexivity]. }
  now rewrite (Hsome key Hkey), Htest.
Qed.

Lemma test_mode_accepts_any_key_witness :
  Chat.POST (W:=chat_world) (chat_request "not-a-real-key")
            (inr (chat_body "anthropic:claude-3-haiku" true)) chat_init
  = (inr Chat.validated,
     snd (Chat.checkRateLimit (W:=chat_world) (chat_request "not-a-real-key") chat_init)).
Proof.
  apply (test_mode_accepts_any_key (W:=chat_world) (chat_request "not-a-real-key")
           (chat_body "anthropic:claude-3-haiku" true) "anthropic" "claude-3-haiku"
           "not-a-real-key" [Chat.Msg.mk "user" "test"] (Chat.Context.mk None true None None)
           chat_init);
    try reflexivity; discriminate.
Defined.

(** X22. Only the first two parts of [model] count. A model text with more
    than one colon is read as its first two parts: the handler answers a
    request for [provider:model:rest] as it answers the same request for
    [provider:model], so that a model name with a colon in it is cut
    short. *)
Theorem model_extra_parts_ignored `{W : Chat.World} (req : NextRequest) (b : Chat.Body.t)
    (provider modelName rest : string) (s : Chat.State) :
  contains ":" provider = false -> contains ":" modelName = false ->
  Chat.POST req (inr (with_model b (provider +:+ ":" +:+ modelName +:+ ":" +:+ rest))) s
  = Chat.POST req (inr (with_model b (provider +:+ ":" +:+ modelName))) s.
Proof.
  intros Hp Hm.
  assert (forall json json',
            (forall s0,
               match json with
               | inl e => (inl e, s0)
               | inr b =>
                   match Chat.Body.model b, Chat.Body.messages b with
                   | Chat.ModelText model, Some messages =>
                       if str_truthy model then
                         Chat.chat req model messages (Chat.Body.context b)
                                   (Chat.Body.companyProfile b) s0
                       else (inr Chat.invalid_request, s0)
                   | Chat.ModelOther, Some _ =>
                       (inl (JsError "model.split is not a function"), s0)
                   | _, _ => (inr Chat.invalid_request, s0)
                   end
               end
               = match json' with
                 | inl e => (inl e, s0)
                 | inr b =>
                     match Chat.Body.model b, Chat.Body.messages b with
                     | Chat.ModelText model, Some messages =>
                         if str_truthy model then
                           Chat.chat req model messages (Chat.Body.context b)
                                     (Chat.Body.companyProfile b) s0
                         else (inr Chat.invalid_request, s0)
                     | Chat.ModelOther, Some _ =>
                         (inl (JsError "model.split is not a function"), s0)
                     | _, _ => (inr Chat.invalid_request, s0)
                     end
                 end) ->
            Chat.POST req json s = Chat.POST req json' s) as Hsame.
  { intros json json' Heq.
    destruct (chat_POST_run req json s) as (a & s0 & Hc & _ & ->).
    destruct (chat_POST_run req json' s) as (a' & s0' & Hc' & _ & ->).
    rewrite Hc in Hc'. injection Hc' as <- <-. now rewrite Heq. }
  apply Hsame. intros s0. cbn [with_model Chat.Body.model Chat.Body.messages
                                Chat.Body.context Chat.Body.companyProfile].
  destruct (Chat.Body.messages b) as [messages|]; [|reflexivity].
  assert (str_truthy (provider +:+ ":" +:+ modelName +:+ ":" +:+ rest) = true) as ->
      by (destruct provider; reflexivity).
  assert (str_truthy (provider +:+ ":" +:+ modelName) = true) as ->
      by (destruct provider; reflexivity).
  rewrite !chat_run.
  rewrite (split_on_model provider modelName Hp Hm).
  change (":" +:+ modelName +:+ ":" +:+ rest) with (String ":" (modelName +:+ String ":" rest)).
  rewrite (split_on_append _ _ _ Hp), (split_on_append _ _ _ Hm).
  reflexivity.
Qed.

Lemma model_extra_parts_ignored_witness :
  Chat.POST (W:=chat_world) (chat_request "sk-1")
            (inr (with_model (chat_body "" false) "huggingface:org/model:main")) chat_init
  = Chat.POST (W:=chat_world) (chat_request "sk-1")
              (inr (with_model (chat_body "" false) "huggingface:org/model")) chat_init.
Proof.
  apply (model_extra_parts_ignored (W:=chat_world) (chat_request "sk-1") (chat_body "" false)
           "huggingface" "org/model" "main" chat_init); reflexivity.
Defined.

Lemma callOpenAI_state `{W : Chat.World} (messages : list Chat.Msg.t) (model apiKey : string)
    (temperature maxTokens : option number) (s : Chat.State) :
  snd (Chat.callOpenAI messages model apiKey temperature maxTokens s)
  = called (Chat.mkCall (provider_url "openai" model) (provider_headers "openai" apiKey)
              (Chat.OpenAIPayload model (Chat.formatOpenAIMessages messages)
                 (Chat.or_default temperature Chat.default_temperature)
                 (Chat.or_default maxTokens Chat.default_maxTokens) false)) s.
Proof.
  unfold Chat.callOpenAI, Chat.bind, Chat.fetch, Chat.lift, Chat.throw, Chat.ret.
  destruct (Chat.llm_fetch _ _) as [e|response]; [reflexivity|].
  destruct (negb (Chat.llm_ok response)).
  - destruct (Chat.llm_json response) as [e|error]; [reflexivity|].
    destruct (Chat.llm_error error); reflexivity.
  - destruct (Chat.llm_json response) as [e|data]; [reflexivity|].
    destruct (Chat.llm_content data); reflexivity.
Qed.

Lemma callAnthropic_state `{W : Chat.World} (messages : list Chat.Msg.t) (model apiKey : string)
    (temperature maxTokens : option number) (s : Chat.State) :
  snd (Chat.callAnthropic messages model apiKey temperature maxTokens s)
  = called (Chat.mkCall (provider_url "anthropic" model) (provider_headers "anthropic" apiKey)
              (Chat.AnthropicPayload model
                 (Chat.or_default maxTokens Chat.default_maxTokens)
                 (Chat.or_default temperature Chat.default_temperature)
                 (fst (Chat.formatAnthropicMessages messages))
                 (snd (Chat.formatAnthropicMessages messages)))) s.
Proof.
  unfold Chat.callAnthropic, Chat.bind, Chat.fetch, Chat.lift, Chat.throw, Chat.ret.
  destruct (Chat.llm_fetch _ _) as [e|response]; [reflexivity|].
  destruct (negb (Chat.llm_ok response)).
  - destruct (Chat.llm_json response) as [e|error]; [reflexivity|].
    destruct (Chat.llm_error error); reflexivity.
  - destruct (Chat.llm_json response) as [e|data]; [reflexivity|].
    destruct (Chat.llm_content data); [reflexivity|].
    destruct (Chat.llm_tokens data); reflexivity.
Qed.

Lemma callHuggingFace_state `{W : Chat.World} (messages : list Chat.Msg.t)
    (model apiKey : string) (temperature maxTokens : option number) (s : Chat.State) :
  snd (Chat.callHuggingFace messages model apiKey temperature maxTokens s)
  = called (Chat.mkCall (provider_url "huggingface" model)
              (provider_headers "huggingface" apiKey)
              (Chat.HuggingFacePayload (Chat.formatHuggingFaceMessages messages)
                 (Chat.or_default maxTokens Chat.default_maxTokens)
                 (Chat.or_default temperature Chat.default_temperature) false)) s.
Proof.
  unfold Chat.callHuggingFace, Chat.bind, Chat.fetch, Chat.lift, Chat.throw, Chat.ret.
  destruct (Chat.llm_fetch _ _) as [e|response]; [reflexivity|].
  destruct (negb (Chat.llm_ok response)).
  - destruct (Chat.llm_json response) as [e|error]; [reflexivity|].
    destruct (Chat.llm_error error); reflexivity.
  - destruct (Chat.llm_json response) as [e|data]; [reflexivity|].
    destruct (Chat.llm_content data); reflexivity.
Qed.

(** A call of a supported provider is one call, to its URL and with its
    headers. *)
Lemma callProvider_state `{W : Chat.World} (provider : string) (messages : list Chat.Msg.t)
    (modelName apiKey : string) (temperature maxTokens : option number) (s : Chat.State) :
  Chat.supported provider = true ->
  exists payload,
    snd (Chat.callProvider provider messages modelName apiKey temperature maxTokens s)
    = called (Chat.mkCall (provider_url provider modelName) (provider_headers provider apiKey)
                          payload) s.
Proof.
  unfold Chat.supported. cbn [existsb]. rewrite !orb_true_iff, !String.eqb_eq.
  intros [->|[->|[->|Hnone]]]; try discriminate Hnone; unfold Chat.callProvider;
    cbn [String.eqb Ascii.eqb Bool.eqb]; eexists.
  - apply callOpenAI_state.
  - apply callAnthropic_state.
  - apply callHuggingFace_state.
Qed.

(** X23. The key of the server is chosen without regard to the provider.
    When the request names the key [server-configured], the handler takes
    the first key that the server's environment holds, OpenAI's before
    Anthropic's before Hugging Face's; with an OpenAI key in the
    environment, a chat with any supported provider makes exactly one call,
    to that provider, with the OpenAI key in its headers. *)
Theorem server_key_ignores_provider `{W : Chat.World} (req : NextRequest) (b : Chat.Body.t)
    (provider modelName key : string) (messages : list Chat.Msg.t) (s s0 : Chat.State) :
  Chat.checkRateLimit req s = (inr true, s0) ->
  Chat.Body.model b = Chat.ModelText (provider +:+ ":" +:+ modelName) ->
  Chat.supported provider = true ->
  modelName <> "" -> contains ":" modelName = false ->
  Chat.Body.messages b = Some messages ->
  Chat.Body.companyProfile b = None ->
  match Chat.Body.context b with Some c => Chat.Context.test c | None => false end = false ->
  headers_get req "authorization" = Some "Bearer server-configured" ->
  Chat.OPENAI_API_KEY = Some key -> key <> "" ->
  exists response s' payload,
    Chat.POST req (inr b) s = (inr response, s')
    /\ Chat.calls s'
       = Chat.mkCall (provider_url provider modelName) (provider_headers provider key) payload
         :: Chat.calls s0.
Proof.
  intros Hcheck Hmodel Hsupported Hname Hcolon Hmessages Hprofile Htest Hauth Henv Hkey.
  destruct (chat_POST_run req (inr b) s) as (allowed & s0' & Hcheck' & _ & ->).
  rewrite Hcheck in Hcheck'. injection Hcheck' as <- <-.
  rewrite Hmodel, Hmessages, Hprofile, chat_run.
  destruct (supported_no_colon provider Hsupported) as [Hp Hpne].
  rewrite (split_on_model provider modelName Hp Hcolon). cbn [nth nth_error].
  assert (str_truthy (provider +:+ ":" +:+ modelName) = true) as ->
      by (destruct provider; reflexivity).
  assert (forall v, v <> "" -> or_undefined (Some v) = Some v) as Hsome
      by (intros [|c v] Hv; [congruence|reflexivity]).
  rewrite (Hsome provider Hpne), (Hsome modelName Hname), Hsupported, Htest. cbn [negb].
  assert (Chat.resolveApiKey req (Chat.Body.context b) = Some key) as ->.
  { unfold Chat.resolveApiKey. rewrite Hauth, Henv. unfold Chat.or_key at 1.
    cbn [option_map]. change "Bearer server-configured" with ("Bearer " +:+ "server-configured").
    rewrite replace_first_prefix. cbn [or_undefined opt_truthy str_truthy String.eqb].
    change (String.eqb "server-configured" "server-configured") with true. cbn iota.
    unfold Chat.or_key at 1. rewrite (Hsome key Hkey). unfold or_else.
    now rewrite (Hsome key Hkey). }
  rewrite (Hsome key Hkey). unfold Chat.respond.
  destruct (callProvider_state provider messages modelName key
              (Chat.Body.context b ≫= Chat.Context.temperature)
              (Chat.Body.context b ≫= Chat.Context.maxTokens) s0 Hsupported)
    as (payload & Hstate).
  destruct (Chat.callProvider provider messages modelName key _ _ s0) as [[e|r] s1];
    cbn [snd] in Hstate; subst s1; eexists; eexists; exists payload; split; reflexivity.
Qed.

Lemma server_key_ignores_provider_witness :
  exists response s' payload,
    Chat.POST (W:=chat_world) (chat_request "server-configured")
              (inr (chat_body "anthropic:claude-3-haiku" false)) chat_init
    = (inr response, s')
    /\ Chat.calls s'
       = [Chat.mkCall "https://api.anthropic.com/v1/messages"
            [("x-api-key", "sk-openai"); ("Content-Type", "application/json");
             ("anthropic-version", "2023-06-01")] payload].
Proof.
  apply (server_key_ignores_provider (W:=chat_world) (chat_request "server-configured")
           (chat_body "anthropic:claude-3-haiku" false) "anthropic" "claude-3-haiku"
           "sk-openai" [Chat.Msg.mk "user" "test"] chat_init
           (snd (Chat.checkRateLimit (W:=chat_world) (chat_request "server-configured")
                   chat_init)));
    try reflexivity; discriminate.
Defined.

Lemma llmFunction_state `{W : Chat.World} (provider modelName apiKey : string)
    (context : option Chat.Context.t) (systemPrompt userPrompt : string) (s : Chat.State) :
  snd (Chat.llmFunction provider modelName apiKey context systemPrompt userPrompt s)
  = snd (Chat.callProvider provider
           [Chat.Msg.mk "system" systemPrompt; Chat.Msg.mk "user" userPrompt]
           modelName apiKey (context ≫= Chat.Context.temperature)
           (context ≫= Chat.Context.maxTokens) s).
Proof.
  unfold Chat.llmFunction, Chat.bind, Chat.ret.
  destruct (Chat.callProvider _ _ _ _ _ _ s) as [[e|r] s1]; reflexivity.
Qed.

(** X24. Where the prompt of the retrieval step ends up. The LLM function
    that the handler gives to [chatWithRAG] makes one call per use. The
    system prompt it is given goes to OpenAI as a user message behind the
    route's own system prompt, does not go to Anthropic at all (only the
    user prompt does), and is shown to Hugging Face as a turn of the
    assistant. *)
Theorem rag_system_prompt_fate `{W : Chat.World} (modelName apiKey : string)
    (context : option Chat.Context.t) (systemPrompt userPrompt : string) (s : Chat.State) :
  Chat.calls (snd (Chat.llmFunction "openai" modelName apiKey context systemPrompt userPrompt s))
  = Chat.mkCall "https://api.openai.com/v1/chat/completions"
      (Chat.LLM_CONFIGS.openai_headers apiKey)
      (Chat.OpenAIPayload modelName
         [Chat.Msg.mk "system" Chat.SYSTEM_PROMPT; Chat.Msg.mk "user" systemPrompt;
          Chat.Msg.mk "user" userPrompt]
         (sent_temperature context) (sent_maxTokens context) false)
    :: Chat.calls s
  /\ Chat.calls (snd (Chat.llmFunction "anthropic" modelName apiKey context systemPrompt
                        userPrompt s))
     = Chat.mkCall "https://api.anthropic.com/v1/messages"
         (Chat.LLM_CONFIGS.anthropic_headers apiKey)
         (Chat.AnthropicPayload modelName (sent_maxTokens context) (sent_temperature context)
            Chat.SYSTEM_PROMPT
            [Chat.Msg.mk "user" userPrompt])
       :: Chat.calls s
  /\ Chat.calls (snd (Chat.llmFunction "huggingface" modelName apiKey context systemPrompt
                        userPrompt s))
     = Chat.mkCall ("https://api-inference.huggingface.co/models/" +:+ modelName)
         (Chat.LLM_CONFIGS.huggingface_headers apiKey)
         (Chat.HuggingFacePayload
            (Chat.SYSTEM_PROMPT +:+ Chat.newlines
               +:+ ("Assistant: " +:+ systemPrompt +:+ Chat.newlines
                      +:+ "Human: " +:+ userPrompt)
               +:+ Chat.newlines +:+ "Assistant:")
            (sent_maxTokens context) (sent_temperature context) false)
       :: Chat.calls s.
Proof.
  rewrite !llmFunction_state. unfold Chat.callProvider.
  cbn [String.eqb Ascii.eqb Bool.eqb].
  rewrite callOpenAI_state, callAnthropic_state, callHuggingFace_state.
  repeat split.
Qed.

(** * Properties of the store *)

Lemma filter_app_other (opportunityId : string) (l : list string) :
  List.filter (fun id => negb (String.eqb id opportunityId)) (l ++ [opportunityId])
  = List.filter (fun id => negb (String.eqb id opportunityId)) l.
Proof.
  rewrite List.filter_app. cbn. rewrite String.eqb_refl. cbn. apply app_nil_r.
Qed.

Lemma filter_idempotent {A} (f : A -> bool) (l : list A) :
  List.filter f (List.filter f l) = List.filter f l.
Proof.
  induction l as [|x r IH]; [reflexivity|]. cbn. destruct (f x) eqn:Hx; [|exact IH].
  cbn. now rewrite Hx, IH.
Qed.

Lemma existsb_filter_other (opportunityId : string) (l : list string) :
  existsb (String.eqb opportunityId)
          (List.filter (fun id => negb (String.eqb id opportunityId)) l) = false.
Proof.
  induction l as [|x r IH]; [reflexivity|]. cbn.
  destruct (String.eqb_spec x opportunityId) as [->|Hx]; cbn; [exact IH|].
  rewrite IH, orb_false_r. apply String.eqb_neq. congruence.
Qed.

(** X25. Favourites. Toggling an opportunity flips whether it is a
    favourite and leaves every other favourite in its place; toggling an
    opportunity that was no favourite twice gives back the list as it was.
    Adding does not look for duplicates, but removing and toggling remove
    every copy: removing after adding is the same as removing. *)
Theorem favorites_toggle (opportunityId : string) (state : Store.AppState) :
  existsb (String.eqb opportunityId) (Store.favorites (Store.toggleFavorite opportunityId state))
  = negb (existsb (String.eqb opportunityId) (Store.favorites state))
  /\ List.filter (fun id => negb (String.eqb id opportunityId))
                 (Store.favorites (Store.toggleFavorite opportunityId state))
     = List.filter (fun id => negb (String.eqb id opportunityId)) (Store.favorites state)
  /\ (existsb (String.eqb opportunityId) (Store.favorites state) = false ->
      Store.toggleFavorite opportunityId (Store.toggleFavorite opportunityId state) = state)
  /\ Store.removeFromFavorites opportunityId (Store.addToFavorites opportunityId state)
     = Store.removeFromFavorites opportunityId state
  /\ Store.favorites (Store.toggleFavorite opportunityId
                        (Store.addToFavorites opportunityId
                           (Store.addToFavorites opportunityId state)))
     = List.filter (fun id => negb (String.eqb id opportunityId)) (Store.favorites state).
Proof.
  unfold Store.toggleFavorite, Store.removeFromFavorites, Store.addToFavorites,
    Store.set_favorites. cbn [Store.favorites Store.config Store.currentSession
                               Store.chatSessions Store.ticks Store.drawn].
  split; [|split; [|split; [|split]]].
  - destruct (existsb (String.eqb opportunityId) (Store.favorites state)) eqn:Hin; cbn [negb].
    + apply existsb_filter_other.
    + rewrite existsb_app, Hin. cbn. now rewrite String.eqb_refl.
  - destruct (existsb (String.eqb opportunityId) (Store.favorites state)).
    + apply filter_idempotent.
    + apply filter_app_other.
  - intros Hout. rewrite Hout, existsb_app, Hout. cbn. rewrite String.eqb_refl. cbn.
    rewrite filter_app_other.
    assert (List.filter (fun id => negb (String.eqb id opportunityId)) (Store.favorites state)
            = Store.favorites state) as ->.
    { induction (Store.favorites state) as [|x r IH]; [reflexivity|]. cbn in Hout |- *.
      apply orb_false_elim in Hout as [Hx Hr]. rewrite String.eqb_sym, Hx. cbn.
      now rewrite (IH Hr). }
    now destruct state.
  - now rewrite filter_app_other.
  - rewrite !existsb_app. cbn. rewrite String.eqb_refl, !orb_true_r.
    now rewrite !filter_app_other.
Qed.

(** What the pass over the list does. *)
Lemma map_matching_run `{W : Store.World} (sessionId : string) (message : Store.ChatMessage)
    (sessions : list Store.ChatSession) :
  forall ticks,
    snd (Store.map_matching sessionId (Store.with_message message) sessions ticks)
    = (ticks + matching sessionId sessions)%nat
    /\ Forall2 (fun before after =>
                  Store.id after = Store.id before
                  /\ Store.messages after = messages_after sessionId message before)
               sessions
               (fst (Store.map_matching sessionId (Store.with_message message) sessions ticks))
    /\ (matching sessionId sessions = 0%nat ->
        fst (Store.map_matching sessionId (Store.with_message message) sessions ticks)
        = sessions).
Proof.
  induction sessions as [|session rest IH]; intros ticks.
  - cbn. split; [lia|]. split; [constructor|reflexivity].
  - cbn [Store.map_matching]. unfold matching, messages_after in *. cbn [List.filter].
    destruct (String.eqb (Store.id session) sessionId) eqn:Hid.
    + destruct (IH (S ticks)) as (Hticks & Hall & _).
      destruct (Store.map_matching sessionId (Store.with_message message) rest (S ticks))
        as [rest' ticks']. cbn [fst snd length] in *.
      split; [lia|]. split; [|discriminate].
      constructor; [|exact Hall]. cbn. now rewrite Hid.
    + destruct (IH ticks) as (Hticks & Hall & Hsame).
      destruct (Store.map_matching sessionId (Store.with_message message) rest ticks)
        as [rest' ticks']. cbn [fst snd] in *.
      split; [exact Hticks|]. split.
      * constructor; [|exact Hall]. now rewrite Hid.
      * intros Hnone. now rewrite (Hsame Hnone).
Qed.

(** Adding a message, written out. *)
Lemma addMessageToSession_run `{W : Store.World} (sessionId : string)
    (message : Store.ChatMessage) (state : Store.AppState) :
  Store.addMessageToSession sessionId message state =
    let sessions :=
      fst (Store.map_matching sessionId (Store.with_message message)
             (Store.chatSessions state) (Store.ticks state)) in
    let ticks := (Store.ticks state + matching sessionId (Store.chatSessions state))%nat in
    match Store.currentSession state with
    | Some session =>
        if String.eqb (Store.id session) sessionId then
          Store.mkApp (Store.config state)
                      (Some (Store.with_message message session (Store.clock ticks)))
                      sessions (Store.favorites state) (S ticks) (Store.drawn state)
        else
          Store.mkApp (Store.config state) (Some session) sessions (Store.favorites state)
                      ticks (Store.drawn state)
    | None =>
        Store.mkApp (Store.config state) None sessions (Store.favorites state) ticks
                    (Store.drawn state)
    end.
Proof.
  unfold Store.addMessageToSession. cbn zeta.
  destruct (map_matching_run sessionId message (Store.chatSessions state) (Store.ticks state))
    as (Hticks & _).
  destruct (Store.map_matching sessionId (Store.with_message message)
              (Store.chatSessions state) (Store.ticks state)) as [sessions ticks].
  cbn [fst snd] in *. now subst ticks.
Qed.

(** X26. A message reaches every copy of its session. Adding a message to
    a session appends it to every session of the list with that identifier
    and to the current session when it has that identifier, and changes no
    other session and no identifier; the clock is read once for each copy,
    the current one last, so the copies need not get the same [updatedAt].
    A message for an identifier that no session has is dropped and the
    state stays as it is. *)
Theorem message_reaches_every_copy `{W : Store.World} (sessionId : string)
    (message : Store.ChatMessage) (state : Store.AppState) :
  Forall2 (fun before after =>
             Store.id after = Store.id before
             /\ Store.messages after = messages_after sessionId message before)
          (Store.chatSessions state)
          (Store.chatSessions (Store.addMessageToSession sessionId message state))
  /\ Store.currentSession (Store.addMessageToSession sessionId message state)
     = match Store.currentSession state with
       | Some current =>
           if String.eqb (Store.id current) sessionId
           then Some (Store.with_message message current
                        (Store.clock (Store.ticks state
                                      + matching sessionId (Store.chatSessions state))))
           else Some current
       | None => None
       end
  /\ (matching sessionId (Store.chatSessions state) = 0%nat ->
      Store.is_current sessionId state = false ->
      Store.addMessageToSession sessionId message state = state).
Proof.
  rewrite addMessageToSession_run. cbn zeta. unfold Store.is_current.
  destruct (map_matching_run sessionId message (Store.chatSessions state) (Store.ticks state))
    as (_ & Hall & Hsame).
  destruct (Store.currentSession state) as [current|] eqn:Hcurrent.
  - destruct (String.eqb (Store.id current) sessionId) eqn:Hid; cbn.
    + split; [exact Hall|]. split; [reflexivity|]. intros _ Hno. discriminate.
    + split; [exact Hall|]. split; [reflexivity|]. intros Hnone _.
      rewrite (Hsame Hnone), Hnone, Nat.add_0_r, <- Hcurrent. now destruct state.
  - cbn. split; [exact Hall|]. split; [reflexivity|]. intros Hnone _.
    rewrite (Hsame Hnone), Hnone, Nat.add_0_r, <- Hcurrent. now destruct state.
Qed.

Lemma Forall2_nth_error_l {A B} (R : A -> B -> Prop) (l : list A) (l' : list B) :
  Forall2 R l l' ->
  forall i x, nth_error l i = Some x -> exists y, nth_error l' i = Some y /\ R x y.
Proof.
  induction 1 as [|x0 y0 l l' Hxy Hrest IH]; intros [|i] x Hi; try discriminate.
  - injection Hi as <-. exists y0. split; [reflexivity|exact Hxy].
  - apply (IH i x Hi).
Qed.

(** X27. The current session stays in step with the list. If the current
    session has a copy in the list with the same identifier and messages,
    this is still so after a session is created, after a message is added
    to any session, after any session is deleted and after all sessions
    are cleared. *)
Theorem sessions_stay_synced `{W : Store.World} (state : Store.AppState) :
  synced state ->
  (forall title, synced (snd (Store.createChatSession title state)))
  /\ (forall sessionId message, synced (Store.addMessageToSession sessionId message state))
  /\ (forall sessionId, synced (Store.deleteSession sessionId state))
  /\ synced (Store.clearAllSessions state).
Proof.
  intros Hsynced. split; [|split; [|split]].
  - intros title. unfold synced. cbn.
    eexists. split; [apply in_or_app; right; left; reflexivity|]. split; reflexivity.
  - intros sessionId message.
    rewrite addMessageToSession_run. cbn zeta.
    destruct (map_matching_run sessionId message (Store.chatSessions state)
                (Store.ticks state)) as (_ & Hall & _).
    unfold synced in *.
    destruct (Store.currentSession state) as [current|]; [|exact I].
    destruct Hsynced as (listed & Hin & Hid & Hmessages).
    apply In_nth_error in Hin as [i Hi].
    destruct (Forall2_nth_error_l _ _ _ Hall i listed Hi) as (after & Hafter & Haid & Hamsg).
    apply nth_error_In in Hafter. unfold messages_after in Hamsg. rewrite Hid in Hamsg.
    destruct (String.eqb (Store.id current) sessionId); exists after;
      (split; [exact Hafter|]); cbn; split; congruence.
  - intros sessionId. unfold synced, Store.deleteSession, Store.is_current in *. cbn.
    destruct (Store.currentSession state) as [current|]; [|exact I].
    destruct (String.eqb (Store.id current) sessionId) eqn:Hid; [exact I|].
    destruct Hsynced as (listed & Hin & Hlid & Hmessages).
    exists listed. split; [|split; assumption].
    apply filter_In. split; [exact Hin|]. now rewrite Hlid, Hid.
  - exact I.
Qed.

Lemma sessions_stay_synced_witness :
  synced (Store.addMessageToSession (W:=store_world) "uuid-0"
            (Store.mkMessage "m1" "hello")
            (snd (Store.createChatSession (W:=store_world) None store_init)))
  /\ Store.messages
       <$> Store.currentSession
             (Store.addMessageToSession (W:=store_world) "uuid-0"
                (Store.mkMessage "m1" "hello")
                (snd (Store.createChatSession (W:=store_world) None store_init)))
     = Some [Store.mkMessage "m1" "hello"].
Proof.
  split; [|reflexivity].
  apply (sessions_stay_synced (W:=store_world)
           (snd (Store.createChatSession (W:=store_world) None store_init))).
  eexists. split; [left; reflexivity|]. split; reflexivity.
Defined.

